(** * Aegis: the merchant risk-graph analyzer

    A shallow embedding of [MerchantGraphAnalyzer]
    (backend/services/graph_model.py) and the properties its
    specification states about it.

    Python values are modelled as follows.
    - [float] is an IEEE-754 binary64 number ([spec_float] with precision 53
      and maximal exponent 1024); every arithmetic operation rounds to
      nearest-even exactly as the hardware does.
    - [datetime] is a number of microseconds since the epoch ([Z]); a
      [timedelta] is a difference of two such numbers. The timestamp a
      caller passes is a [pydatetime]: such an instant together with
      whether the datetime is naive or aware of a time zone, since Python
      refuses to compare the two kinds. The clock of the analyzer,
      [datetime.utcnow()], is naive.
    - [dict]s keyed by strings are [gmap]s; the attribute bag of a node is
      a record tagged with the node type that decides which keys exist.
    - An exception is a value of [exn]; code that can raise lives in the
      [outcome] monad. Code that mutates the analyzer passes the state
      explicitly and returns the state together with an [outcome]: what
      was written before a raise stays written (as in Python).
    - The routines of networkx and numpy the analyzer calls are fields of
      the record [NxLib], and each may raise; the formatting of a float
      is a field too. *)

From Stdlib Require Import ZArith Bool List String Ascii Lia SpecFloat.
From stdpp Require Import base option list gmap strings pretty.

Local Open Scope Z_scope.

(** ** Floating point numbers (binary64) *)

Module Float.
Definition prec : Z := 53.
Definition emax : Z := 1024.

Definition add : spec_float → spec_float → spec_float := SFadd prec emax.
Definition mul : spec_float → spec_float → spec_float := SFmul prec emax.
Definition div : spec_float → spec_float → spec_float := SFdiv prec emax.
Definition ltb : spec_float → spec_float → bool := SFltb.
Definition leb : spec_float → spec_float → bool := SFleb.
Definition eqb : spec_float → spec_float → bool := SFeqb.

Definition zero : spec_float := S754_zero false.

(** [float(n)] for a Python integer [n]: the nearest double. *)
Definition of_Z (n : Z) : spec_float := binary_normalize prec emax n 0 false.

(** The integer [n] as an unrounded binary number, to divide integers
    with a single rounding. *)
Definition raw (n : Z) : spec_float :=
  match n with
  | Z0 => S754_zero false
  | Zpos p => S754_finite false p 0
  | Zneg p => S754_finite true p 0
  end.

(** The decimal literal [num/den] (e.g. [0.1] is [lit 1 10]): the double
    nearest to the rational. *)
Definition lit (num den : Z) : spec_float := div (raw num) (raw den).

Definition one : spec_float := of_Z 1.

Definition is_nan (x : spec_float) : bool :=
  match x with S754_nan => true | _ => false end.

(** Python's [max(a, b)] and [min(a, b)]: the first argument is kept
    unless the second compares strictly greater (smaller). *)
Definition py_max (a b : spec_float) : spec_float := if ltb a b then b else a.
Definition py_min (a b : spec_float) : spec_float := if ltb b a then b else a.

Definition sub : spec_float → spec_float → spec_float := SFsub prec emax.
Definition abs : spec_float → spec_float := SFabs.

(** [sum(xs)] as CPython computes it before version 3.12: plain
    addition, left to right from the integer [0]. *)
Definition sum_from_zero (xs : list spec_float) : spec_float := fold_left add xs zero.

(** One step of the compensated summation of CPython 3.12 and later
    (Neumaier's): the running sum [hi] and the compensation [c]. *)
Definition compensated_step (acc : spec_float * spec_float) (x : spec_float)
    : spec_float * spec_float :=
  let '(hi, c) := acc in
  let t := add hi x in
  (t, if leb (abs x) (abs hi)
      then add c (add (sub hi t) x)
      else add c (add (sub x t) hi)).

(** [sum(xs)] as CPython computes it from version 3.12 on: the first
    float is added to the integer [0], the others with compensation,
    and the compensation is added at the end when it is finite and not
    zero. *)
Definition sum_compensated (xs : list spec_float) : spec_float :=
  match xs with
  | [] => zero
  | x :: rest =>
      let '(hi, c) := fold_left compensated_step rest (add zero x, zero) in
      match c with
      | S754_finite _ _ _ => add hi c
      | _ => hi
      end
  end.
End Float.

Abbreviation float := spec_float.

(** ** Exceptions *)

Inductive exn :=
  | KeyError (key : string)
  | ZeroDivisionError
  | TypeError (msg : string)
  | LibraryError (msg : string).

Definition exn_str (e : exn) : string :=
  match e with
  | KeyError k => "'" +:+ k +:+ "'"
  | ZeroDivisionError => "division by zero"
  | TypeError msg => msg
  | LibraryError msg => msg
  end.

Inductive outcome (A : Type) :=
  | Return (a : A)
  | Raise (e : exn).
Arguments Return {A} a.
Arguments Raise {A} e.

Global Instance outcome_ret : MRet outcome := λ A a, Return a.
Global Instance outcome_bind : MBind outcome := λ A B k m,
  match m with
  | Return a => k a
  | Raise e => Raise e
  end.

(** [try: m except Exception: h] *)
Definition try_except {A} (m : outcome A) (h : exn → outcome A) : outcome A :=
  match m with
  | Return a => Return a
  | Raise e => h e
  end.

(** [m] with every exception replaced by the value [d]:
    [try: return m except: return d]. *)
Definition or_else {A} (m : outcome A) (d : A) : A :=
  match m with
  | Return a => a
  | Raise _ => d
  end.

(** The value a computation returned, if it did. *)
Definition returned {A} (o : outcome A) : option A :=
  match o with
  | Return a => Some a
  | Raise _ => None
  end.

(** Python's true division of floats raises on a zero divisor. *)
Definition py_div (x y : float) : outcome float :=
  if Float.eqb y Float.zero then Raise ZeroDivisionError else Return (Float.div x y).

(** [x / n] and [n / y] for an integer [n]: the integer is converted to
    the nearest double; [float(n)] is zero exactly when [n] is. *)
Definition float_div_int (x : float) (n : Z) : outcome float :=
  if n =? 0 then Raise ZeroDivisionError else Return (Float.div x (Float.of_Z n)).

Definition int_div_float (n : Z) (y : float) : outcome float :=
  py_div (Float.of_Z n) y.

(** True division of two integers: the exact quotient rounded once. *)
Definition int_true_div (a b : Z) : outcome float :=
  if b =? 0 then Raise ZeroDivisionError else Return (Float.div (Float.raw a) (Float.raw b)).

(** ** Time *)

Definition datetime := Z.
Definition timedelta := Z.

Definition us_per_second : Z := 1000000.

(** [td.total_seconds()] *)
Definition total_seconds (td : timedelta) : float :=
  Float.div (Float.raw td) (Float.raw us_per_second).

(** [td.seconds]: the seconds field of the normalised triple
    (days, seconds, microseconds), always in [0, 86400). *)
Definition td_seconds (td : timedelta) : Z := (td / us_per_second) mod 86400.

(** [td.days] *)
Definition td_days (td : timedelta) : Z := td / (us_per_second * 86400).

(** A [datetime] object as a caller passes it: the instant, and whether
    the object is aware of a time zone ([tzinfo] set) or naive. Two
    aware datetimes are compared by their instants; comparing a naive
    with an aware one raises a [TypeError]. A bare instant is read as a
    naive datetime. *)
Record pydatetime := mkdt {
  instant : datetime;
  aware : bool
}.

Definition naive (t : Z) : pydatetime := mkdt t false.
Coercion naive : Z >-> pydatetime.

(** ** Strings *)

(** [a in s] for two strings. *)
Fixpoint is_substring (a s : string) : bool :=
  String.prefix a s ||
  match s with
  | EmptyString => false
  | String _ s' => is_substring a s'
  end.

(** ** The data model *)

Inductive node_kind := Merchant | User.

Global Instance node_kind_eq_dec : EqDecision node_kind.
Proof. solve_decision. Defined.

(** The name of the key holding the counterparties of a node. *)
Definition peers_key (k : node_kind) : string :=
  match k with
  | Merchant => "unique_customers"
  | User => "unique_merchants"
  end.

Module Node.
(** The attributes of a node. [peers] is [unique_customers] of a
    merchant node and [unique_merchants] of a user node; the other key
    does not exist in the node's dict. *)
Record t := make {
  node_type : node_kind;
  total_transactions : nat;
  total_amount : float;
  peers : gset string;
  first_seen : datetime;
  last_seen : datetime;
  (** Whether the two datetimes of the node are aware. They are of one
      kind: both are the timestamp of the call that adds the node, and
      [last_seen] is only ever replaced by [max(last_seen, timestamp)],
      which raises unless the two can be compared. *)
  tz_aware : bool
}.

(** A node whose datetimes are naive. *)
Definition mk (k : node_kind) (n : nat) (a : float) (p : gset string)
    (first last : datetime) : t :=
  make k n a p first last false.

Definition fresh (k : node_kind) (timestamp : pydatetime) : t :=
  make k 0%nat Float.zero ∅ (instant timestamp) (instant timestamp) (aware timestamp).

Definition incr_total_transactions (d : t) : t :=
  make (node_type d) (S (total_transactions d)) (total_amount d) (peers d)
       (first_seen d) (last_seen d) (tz_aware d).
Definition add_total_amount (amount : float) (d : t) : t :=
  make (node_type d) (total_transactions d) (Float.add (total_amount d) amount)
       (peers d) (first_seen d) (last_seen d) (tz_aware d).
Definition add_peer (x : string) (d : t) : t :=
  make (node_type d) (total_transactions d) (total_amount d) ({[x]} ∪ peers d)
       (first_seen d) (last_seen d) (tz_aware d).
Definition set_last_seen (ts : datetime) (d : t) : t :=
  make (node_type d) (total_transactions d) (total_amount d) (peers d)
       (first_seen d) ts (tz_aware d).
End Node.

Module Edge.
Record t := mk {
  transaction_count : nat;
  total_amount : float;
  first_transaction : datetime;
  last_transaction : datetime;
  amounts : list float
}.

(** The datetimes of an edge are instants: they are timestamps of calls
    that got past both [max(last_seen, timestamp)], so they are of the
    kind of the two nodes, and only their difference is read. *)
Definition fresh (amount : float) (timestamp : pydatetime) : t :=
  mk 1%nat amount (instant timestamp) (instant timestamp) [amount].

(** The four statements that update an existing edge. *)
Definition record (amount : float) (timestamp : pydatetime) (e : t) : t :=
  mk (S (transaction_count e)) (Float.add (total_amount e) amount)
     (first_transaction e) (instant timestamp) (amounts e ++ [amount]).
End Edge.

(** The undirected graph [merchant_graph]. An edge is stored once, under
    the orientation it was created with, and found under both. *)
Record Graph := mkGraph {
  nodes : gmap string Node.t;
  edges : gmap (string * string) Edge.t
}.

Definition has_node (g : Graph) (n : string) : bool :=
  bool_decide (is_Some (nodes g !! n)).

Definition get_edge (g : Graph) (u v : string) : option Edge.t :=
  match edges g !! (u, v) with
  | Some e => Some e
  | None => edges g !! (v, u)
  end.

Definition has_edge (g : Graph) (u v : string) : bool :=
  bool_decide (is_Some (get_edge g u v)).

(** The key an edge between [u] and [v] is (or will be) stored under. *)
Definition edge_key (g : Graph) (u v : string) : string * string :=
  match edges g !! (u, v) with
  | Some _ => (u, v)
  | None => match edges g !! (v, u) with Some _ => (v, u) | None => (u, v) end
  end.

(** [G.neighbors(n)] *)
Definition neighbors (g : Graph) (n : string) : list string :=
  omap (λ '(a, b), if decide (a = n) then Some b
                   else if decide (b = n) then Some a else None)
       (map_to_list (edges g)).*1.

(** The directed graph [transaction_graph]: one arc per ordered pair, its
    attributes overwritten by each [add_edge]. *)
Module Arc.
Record t := mk {
  amount : float;
  timestamp : datetime;
  metadata : gmap string string
}.
End Arc.

Record DiGraph := mkDiGraph {
  d_nodes : gset string;
  d_arcs : gmap (string * string) Arc.t
}.

Definition di_add_edge (u v : string) (a : Arc.t) (g : DiGraph) : DiGraph :=
  mkDiGraph ({[u]} ∪ ({[v]} ∪ d_nodes g)) (<[(u, v) := a]> (d_arcs g)).

(** ** Risk analysis results *)

Inductive pyval :=
  | PyFloat (x : float)
  | PyInt (n : Z).

(** The dict a sub-analysis returns: its metrics (in insertion order), its
    contribution to the score and its factors. *)
Record SubAnalysis := mkSub {
  metrics : list (string * pyval);
  risk_contribution : float;
  sub_factors : list string
}.

Record Anomaly := mkAnomaly {
  anomaly_type : string;
  description : string;
  severity : string
}.

(** The dict [risk_analysis]. A sub-analysis that was not run is the
    empty dict ([None]). *)
Record RiskAnalysis := mkRisk {
  merchant_id : string;
  risk_score : float;
  factors : list string;
  centrality_metrics : option SubAnalysis;
  clustering_metrics : option SubAnalysis;
  velocity_metrics : option SubAnalysis;
  network_anomalies : list Anomaly;
  recommendations : list string
}.

(** What [analyze_merchant_risk] returns: the analysis, or the dict built
    by the exception handler. *)
Inductive RiskResult :=
  | Analysis (r : RiskAnalysis)
  | Degraded (merchant : string) (score : float) (fs : list string) (error : string).

Definition result_score (r : RiskResult) : float :=
  match r with
  | Analysis a => risk_score a
  | Degraded _ s _ _ => s
  end.

Definition result_factors (r : RiskResult) : list string :=
  match r with
  | Analysis a => factors a
  | Degraded _ _ fs _ => fs
  end.

Definition result_merchant (r : RiskResult) : string :=
  match r with
  | Analysis a => merchant_id a
  | Degraded m _ _ _ => m
  end.

(** ** The analyzer *)

Record Analyzer := mkAnalyzer {
  merchant_graph : Graph;
  transaction_graph : DiGraph;
  risk_cache : gmap string (RiskResult * datetime)
}.

Definition cache_ttl : Z := 3600.
Definition high_centrality_threshold : float := Float.lit 8 10.
Definition suspicious_clustering_threshold : float := Float.lit 9 10.
Definition velocity_threshold : float := Float.of_Z 100.

(** [__init__] *)
Definition init : Analyzer :=
  mkAnalyzer (mkGraph ∅ ∅) (mkDiGraph ∅ ∅) ∅.

Definition set_graph (g : Graph) (self : Analyzer) : Analyzer :=
  mkAnalyzer g (transaction_graph self) (risk_cache self).

(** *** Mutation *)

Definition add_node (n : string) (d : Node.t) (g : Graph) : Graph :=
  mkGraph (<[n := d]> (nodes g)) (edges g).

(** [if not G.has_node(n): G.add_node(n, **d)] *)
Definition ensure_node (n : string) (d : Node.t) (g : Graph) : Graph :=
  if has_node g n then g else add_node n d g.

(** [G.nodes[n][key] = f(G.nodes[n][key])] for a key every node has. *)
Definition update_node (n : string) (f : Node.t → Node.t) (g : Graph) : Graph :=
  mkGraph (alter f n (nodes g)) (edges g).

(** [G.nodes[n][peers_key k].add(x)]: a [KeyError] when the node is of the
    other type, whose dict has no such key. *)
Definition peers_add (k : node_kind) (n x : string) (g : Graph) : outcome Graph :=
  match nodes g !! n with
  | Some d =>
      if decide (Node.node_type d = k)
      then Return (update_node n (Node.add_peer x) g)
      else Raise (KeyError (peers_key k))
  | None => Raise (KeyError n)
  end.

(** [max(d['last_seen'], timestamp)]: a [TypeError] when one of the two
    is naive and the other aware. *)
Definition max_last_seen (timestamp : pydatetime) (d : Node.t) : outcome datetime :=
  if bool_decide (Node.tz_aware d = aware timestamp)
  then Return (Z.max (Node.last_seen d) (instant timestamp))
  else Raise (TypeError "can't compare offset-naive and offset-aware datetimes").

(** [G.nodes[n]['last_seen'] = max(G.nodes[n]['last_seen'], timestamp)] *)
Definition last_seen_max (n : string) (timestamp : pydatetime) (g : Graph)
    : outcome Graph :=
  match nodes g !! n with
  | Some d =>
      ts ← max_last_seen timestamp d;
      Return (update_node n (Node.set_last_seen ts) g)
  | None => Raise (KeyError n)
  end.

(** The if/else that adds or updates the edge. *)
Definition add_or_update_edge (user_id merchant_id : string) (amount : float)
    (timestamp : pydatetime) (g : Graph) : Graph :=
  if has_edge g user_id merchant_id
  then mkGraph (nodes g)
         (alter (Edge.record amount timestamp) (edge_key g user_id merchant_id) (edges g))
  else mkGraph (nodes g)
         (<[(user_id, merchant_id) := Edge.fresh amount timestamp]> (edges g)).

(** [_invalidate_cache]: collect the keys that contain either identity,
    then delete them. *)
Definition keys_to_remove (merchant_id user_id : string)
    (cache : gmap string (RiskResult * datetime)) : list string :=
  filter (λ key, is_substring merchant_id key || is_substring user_id key)
         (map_to_list cache).*1.

Definition _invalidate_cache (merchant_id user_id : string)
    (cache : gmap string (RiskResult * datetime)) : gmap string (RiskResult * datetime) :=
  foldr delete cache (keys_to_remove merchant_id user_id cache).

(** [add_transaction_edge]: the state after the call and how the call
    ended. *)
Definition add_transaction_edge (user_id merchant_id : string) (amount : float)
    (timestamp : pydatetime) (metadata : option (gmap string string))
    (self : Analyzer) : Analyzer * outcome unit :=
  let g := merchant_graph self in
  (* Add nodes if they don't exist *)
  let g := ensure_node merchant_id (Node.fresh Merchant timestamp) g in
  let g := ensure_node user_id (Node.fresh User timestamp) g in
  (* Update node attributes *)
  let g := update_node merchant_id Node.incr_total_transactions g in
  let g := update_node merchant_id (Node.add_total_amount amount) g in
  match peers_add Merchant merchant_id user_id g with
  | Raise e => (set_graph g self, Raise e)
  | Return g =>
  match last_seen_max merchant_id timestamp g with
  | Raise e => (set_graph g self, Raise e)
  | Return g =>
      let g := update_node user_id Node.incr_total_transactions g in
      let g := update_node user_id (Node.add_total_amount amount) g in
      match peers_add User user_id merchant_id g with
      | Raise e => (set_graph g self, Raise e)
      | Return g =>
      match last_seen_max user_id timestamp g with
      | Raise e => (set_graph g self, Raise e)
      | Return g =>
          (* Add or update edge *)
          let g := add_or_update_edge user_id merchant_id amount timestamp g in
          (* Add to directed transaction graph for flow analysis *)
          let t := di_add_edge user_id merchant_id
                     (Arc.mk amount (instant timestamp) (default ∅ metadata))
                     (transaction_graph self) in
          (* Clear relevant cache entries *)
          (mkAnalyzer g t (_invalidate_cache merchant_id user_id (risk_cache self)),
           Return ())
      end
      end
  end
  end.

(** ** The library routines the analyzer calls

    networkx, numpy and float formatting. Each routine gets the graph it
    is called on and may raise. *)

Record NxLib := mkLib {
  degree_centrality : Graph → outcome (gmap string float);
  (** [nx.betweenness_centrality(G, k=k)] *)
  betweenness_centrality : Graph → nat → outcome (gmap string float);
  closeness_centrality : Graph → outcome (gmap string float);
  is_connected : Graph → outcome bool;
  clustering : Graph → string → outcome float;
  average_clustering : Graph → outcome float;
  connected_components : Graph → outcome (list (gset string));
  node_connected_component : Graph → string → outcome (gset string);
  has_path : DiGraph → string → string → outcome bool;
  shortest_path : DiGraph → string → string → outcome (list string);
  np_var : list float → outcome float;
  (** [format(x, ".<digits>f")] *)
  format_float : nat → float → string
}.

(** [d.get(key, 0.0)] *)
Definition get_or_zero (d : gmap string float) (key : string) : float :=
  default Float.zero (d !! key).

(** [G.nodes[n]] *)
Definition node_data (g : Graph) (n : string) : outcome Node.t :=
  match nodes g !! n with
  | Some d => Return d
  | None => Raise (KeyError n)
  end.

(** [d[peers_key k]] on the dict of a node *)
Definition node_peers (k : node_kind) (d : Node.t) : outcome (gset string) :=
  if decide (Node.node_type d = k) then Return (Node.peers d)
  else Raise (KeyError (peers_key k)).

(** [G.neighbors(n)] raises for a node that is not in the graph. *)
Definition G_neighbors (g : Graph) (n : string) : outcome (list string) :=
  if has_node g n then Return (neighbors g n)
  else Raise (LibraryError "The node is not in the graph.").

Definition empty_sub : SubAnalysis := mkSub [] Float.zero [].

(** ** Sub-analyses *)

Section analysis.
Context (lib : NxLib).

Definition _analyze_centrality (g : Graph) (merchant_id : string) : SubAnalysis :=
  or_else
    ('(degree, betweenness, closeness) ←
       (if (1 <? Z.of_nat (size (nodes g)))
        then
          dc ← degree_centrality lib g;
          let degree := get_or_zero dc merchant_id in
          betweenness ←
            (if (Z.of_nat (size (nodes g)) <? 1000)
             then bc ← betweenness_centrality lib g 100%nat;
                  Return (get_or_zero bc merchant_id)
             else Return Float.zero);
          connected ← is_connected lib g;
          closeness ←
            (if (connected : bool)
             then cc ← closeness_centrality lib g;
                  Return (get_or_zero cc merchant_id)
             else Return Float.zero);
          Return (degree, betweenness, closeness)
        else Return (Float.zero, Float.zero, Float.zero));
     let risk_contribution := Float.zero in
     let factors := [] in
     let '(risk_contribution, factors) :=
       if Float.ltb high_centrality_threshold degree
       then (Float.add risk_contribution (Float.lit 3 10),
             factors ++ ["High degree centrality (" +:+ format_float lib 3 degree +:+ ")"])
       else (risk_contribution, factors) in
     let '(risk_contribution, factors) :=
       if Float.ltb high_centrality_threshold betweenness
       then (Float.add risk_contribution (Float.lit 2 10),
             factors ++ ["High betweenness centrality (" +:+ format_float lib 3 betweenness +:+ ")"])
       else (risk_contribution, factors) in
     Return (mkSub [("degree", PyFloat degree); ("betweenness", PyFloat betweenness);
                    ("closeness", PyFloat closeness)]
                   risk_contribution factors))
    empty_sub.

(** The loop that finds the size of the first community holding the
    merchant. *)
Fixpoint community_size (communities : list (gset string)) (merchant_id : string) : nat :=
  match communities with
  | [] => 0%nat
  | community :: rest =>
      if decide (merchant_id ∈ community) then size community
      else community_size rest merchant_id
  end.

Definition _analyze_clustering (g : Graph) (merchant_id : string) : SubAnalysis :=
  or_else
    (clustering_coeff ← clustering lib g merchant_id;
     global_clustering ← average_clustering lib g;
     communities ← connected_components lib g;
     let merchant_community_size := community_size communities merchant_id in
     let risk_contribution := Float.zero in
     let factors := [] in
     let '(risk_contribution, factors) :=
       if Float.ltb suspicious_clustering_threshold clustering_coeff
       then (Float.add risk_contribution (Float.lit 2 10),
             factors ++ ["Suspicious clustering pattern (" +:+ format_float lib 3 clustering_coeff +:+ ")"])
       else (risk_contribution, factors) in
     let '(risk_contribution, factors) :=
       if (50 <? Z.of_nat merchant_community_size) && Float.ltb (Float.lit 7 10) clustering_coeff
       then (Float.add risk_contribution (Float.lit 3 10),
             factors ++ ["Large tight community (" +:+ pretty merchant_community_size +:+ " members)"])
       else (risk_contribution, factors) in
     Return (mkSub [("local_clustering", PyFloat clustering_coeff);
                    ("global_clustering", PyFloat global_clustering);
                    ("community_size", PyInt (Z.of_nat merchant_community_size));
                    ("total_communities", PyInt (Z.of_nat (length communities)))]
                   risk_contribution factors))
    empty_sub.

(** [(last_seen - first_seen).total_seconds() / 3600] *)
Definition span_hours (d : Node.t) : float :=
  Float.div (total_seconds (Node.last_seen d - Node.first_seen d)) (Float.of_Z 3600).

(** The [time_span] the velocity metrics divide by: the span in hours,
    replaced by 1 when it is zero. The replacement is the int [1]; a
    division by it converts it to the float 1.0 ([n / 1] is [float(n)]),
    and so does the comparison with 24. *)
Definition velocity_time_span (d : Node.t) : float :=
  let time_span := span_hours d in
  if Float.eqb time_span Float.zero then Float.one else time_span.

(** [time_span] as the dict of metrics holds it: the int [1] when the
    span was zero, the float span otherwise. *)
Definition time_span_value (d : Node.t) : pyval :=
  let time_span := span_hours d in
  if Float.eqb time_span Float.zero then PyInt 1 else PyFloat time_span.

(** The body of the [try] block of [_analyze_velocity]. *)
Definition velocity_body (g : Graph) (merchant_id : string) : outcome SubAnalysis :=
    (if negb (has_node g merchant_id) then Return empty_sub
     else
       merchant_data ← node_data g merchant_id;
       let time_span := velocity_time_span merchant_data in
       let total_transactions := Z.of_nat (Node.total_transactions merchant_data) in
       transactions_per_hour ← int_div_float total_transactions time_span;
       amount_per_hour ← py_div (Node.total_amount merchant_data) time_span;
       customers ← node_peers Merchant merchant_data;
       let unique_customers := Z.of_nat (size customers) in
       avg_transaction_amount ←
         float_div_int (Node.total_amount merchant_data) total_transactions;
       let risk_contribution := Float.zero in
       let factors := [] in
       let '(risk_contribution, factors) :=
         if Float.ltb velocity_threshold transactions_per_hour
         then (Float.add risk_contribution (Float.lit 3 10),
               factors ++ ["High transaction velocity (" +:+
                           format_float lib 1 transactions_per_hour +:+ "/hour)"])
         else (risk_contribution, factors) in
       let '(risk_contribution, factors) :=
         if Float.ltb time_span (Float.of_Z 24) &&
            Float.ltb (Float.of_Z 10) transactions_per_hour
         then (Float.add risk_contribution (Float.lit 2 10),
               factors ++ ["High activity for new merchant"])
         else (risk_contribution, factors) in
       cust_txn_ratio ← int_true_div unique_customers total_transactions;
       let '(risk_contribution, factors) :=
         if Float.ltb cust_txn_ratio (Float.lit 1 10)
         then (Float.add risk_contribution (Float.lit 2 10),
               factors ++ ["Low customer diversity"])
         else (risk_contribution, factors) in
       Return (mkSub [("transactions_per_hour", PyFloat transactions_per_hour);
                      ("amount_per_hour", PyFloat amount_per_hour);
                      ("unique_customers", PyInt unique_customers);
                      ("avg_transaction_amount", PyFloat avg_transaction_amount);
                      ("time_span_hours", time_span_value merchant_data)]
                     risk_contribution factors)).

Definition _analyze_velocity (g : Graph) (merchant_id : string) : SubAnalysis :=
  or_else (velocity_body g merchant_id) empty_sub.

(** ** Network anomalies *)

Definition _detect_circular_pattern (t : DiGraph) (user_id merchant_id : string) : bool :=
  or_else
    (connected ← has_path lib t merchant_id user_id;
     if (connected : bool)
     then path ← shortest_path lib t merchant_id user_id;
          Return (Z.of_nat (length path) <=? 5)
     else Return false)
    false.

Definition _detect_burst_pattern (g : Graph) (merchant_id : string) : outcome bool :=
  if negb (has_node g merchant_id) then Return false
  else
    merchant_data ← node_data g merchant_id;
    let time_span_hours := span_hours merchant_data in
    Return (Float.ltb time_span_hours Float.one &&
            (20 <? Z.of_nat (Node.total_transactions merchant_data))).

(** The inner loop of [_detect_merchant_chain], over the neighbours of
    one user. *)
Fixpoint chain_merchants (g : Graph) (merchant_id : string) (ns : list string)
    (merchant_neighbors : gset string) : outcome (gset string) :=
  match ns with
  | [] => Return merchant_neighbors
  | merchant_neighbor :: rest =>
      d ← node_data g merchant_neighbor;
      chain_merchants g merchant_id rest
        (if bool_decide (Node.node_type d = Merchant) &&
            bool_decide (merchant_neighbor ≠ merchant_id)
         then {[merchant_neighbor]} ∪ merchant_neighbors
         else merchant_neighbors)
  end.

(** The outer loop, over the neighbours of the merchant. *)
Fixpoint chain_users (g : Graph) (merchant_id : string) (ns : list string)
    (merchant_neighbors : gset string) : outcome (gset string) :=
  match ns with
  | [] => Return merchant_neighbors
  | neighbor :: rest =>
      d ← node_data g neighbor;
      merchant_neighbors ←
        (if bool_decide (Node.node_type d = User)
         then ns' ← G_neighbors g neighbor;
              chain_merchants g merchant_id ns' merchant_neighbors
         else Return merchant_neighbors);
      chain_users g merchant_id rest merchant_neighbors
  end.

Definition _detect_merchant_chain (g : Graph) (merchant_id : string) : nat :=
  or_else
    (ns ← G_neighbors g merchant_id;
     merchant_neighbors ← chain_users g merchant_id ns ∅;
     Return (size merchant_neighbors + 1)%nat)
    1%nat.

(** The two nested loops of [_is_isolated_cluster]. *)
Fixpoint external_connections (g : Graph) (component : gset string)
    (members : list string) (count : nat) : outcome nat :=
  match members with
  | [] => Return count
  | node :: rest =>
      ns ← G_neighbors g node;
      external_connections g component rest
        (count + length (filter (λ neighbor, neighbor ∉ component) ns))%nat
  end.

Definition _is_isolated_cluster (g : Graph) (merchant_id : string) : bool :=
  or_else
    (component ← node_connected_component lib g merchant_id;
     if (Z.of_nat (size component) <? 10)
     then n ← external_connections g component (elements component) 0%nat;
          Return (Z.of_nat n <? 2)
     else Return false)
    false.

Definition truthy (user_id : option string) : bool :=
  match user_id with
  | Some u => negb (String.eqb u "")
  | None => false
  end.

(** [_detect_network_anomalies]: the anomalies appended before an
    exception are kept. *)
Definition _detect_network_anomalies (self : Analyzer) (merchant_id : string)
    (user_id : option string) : list Anomaly :=
  let g := merchant_graph self in
  let anomalies := [] in
  let anomalies :=
    if truthy user_id &&
       _detect_circular_pattern (transaction_graph self) (default "" user_id) merchant_id
    then anomalies ++ [mkAnomaly "circular_transactions"
                         "Circular transaction pattern detected" "high"]
    else anomalies in
  match _detect_burst_pattern g merchant_id with
  | Raise _ => anomalies
  | Return burst =>
      let anomalies :=
        if burst
        then anomalies ++ [mkAnomaly "transaction_burst"
                             "Unusual transaction burst detected" "medium"]
        else anomalies in
      let chain_length := _detect_merchant_chain g merchant_id in
      let anomalies :=
        if (5 <? Z.of_nat chain_length)
        then anomalies ++ [mkAnomaly "merchant_chain"
                             ("Part of " +:+ pretty chain_length +:+ "-merchant chain")
                             "medium"]
        else anomalies in
      if _is_isolated_cluster g merchant_id
      then anomalies ++ [mkAnomaly "isolated_cluster"
                           "Merchant in isolated network cluster" "low"]
      else anomalies
  end.

(** ** The relationship of one user with the merchant *)

Definition new_relationship : SubAnalysis :=
  mkSub [] (Float.lit 1 10) ["New merchant relationship"].

Definition _analyze_user_merchant_relationship (g : Graph)
    (user_id merchant_id : string) : outcome SubAnalysis :=
  match get_edge g user_id merchant_id with
  | None => Return new_relationship
  | Some edge_data =>
      let risk_contribution := Float.zero in
      let factors := [] in
      let transaction_count := Edge.transaction_count edge_data in
      let total_amount := Edge.total_amount edge_data in
      avg_amount ← float_div_int total_amount (Z.of_nat transaction_count);
      let '(risk_contribution, factors) :=
        if (50 <? Z.of_nat transaction_count)
        then (Float.add risk_contribution (Float.lit 2 10),
              factors ++ ["Very frequent transactions (" +:+ pretty transaction_count +:+ ")"])
        else (risk_contribution, factors) in
      let amounts := Edge.amounts edge_data in
      '(risk_contribution, factors) ←
        (if (1 <? Z.of_nat (length amounts))
         then amount_variance ← np_var lib amounts;
              Return (if Float.ltb (Float.mul avg_amount (Float.of_Z 2)) amount_variance
                      then (Float.add risk_contribution (Float.lit 1 10),
                            factors ++ ["Highly variable transaction amounts"])
                      else (risk_contribution, factors))
         else Return (risk_contribution, factors));
      Return (mkSub [("transaction_count", PyInt (Z.of_nat transaction_count));
                     ("total_amount", PyFloat total_amount);
                     ("avg_amount", PyFloat avg_amount);
                     ("relationship_age_days",
                      PyInt (td_days (Edge.last_transaction edge_data -
                                      Edge.first_transaction edge_data)))]
                    risk_contribution factors)
  end.

(** ** Recommendations *)

(** The extra recommendation a factor brings, if any. *)
Definition factor_recommendation (factor : string) : list string :=
  if is_substring "High degree centrality" factor
  then ["Monitor for potential money laundering hub activity"]
  else if is_substring "High transaction velocity" factor
  then ["Implement velocity-based transaction limits"]
  else if is_substring "Large tight community" factor
  then ["Investigate potential merchant collusion network"]
  else [].

Definition _generate_recommendations (risk_score : float) (factors : list string)
    : list string :=
  (if Float.ltb (Float.lit 8 10) risk_score
   then ["ðŸš¨ IMMEDIATE REVIEW: High-risk merchant requiring urgent investigation";
         "Consider temporary transaction limits";
         "Manual review of recent high-value transactions"]
   else if Float.ltb (Float.lit 6 10) risk_score
   then ["âš ï¸ Enhanced monitoring recommended";
         "Review transaction patterns weekly";
         "Consider velocity limits"]
   else if Float.ltb (Float.lit 4 10) risk_score
   then ["ðŸ“Š Standard monitoring sufficient";
         "Include in routine risk reports"]
   else ["âœ… Low risk - standard processing"])
  ++ concat (map factor_recommendation factors).

(** ** The cache and the analysis *)

(** [user_id or 'none'] *)
Definition user_or_none (user_id : option string) : string :=
  if truthy user_id then default "" user_id else "none".

Definition cache_key (merchant_id : string) (user_id : option string) : string :=
  "merchant_risk_" +:+ merchant_id +:+ "_" +:+ user_or_none user_id.

(** The cache check: the cached result when the key is present and the
    [seconds] field of its age is below the time to live. *)
Definition cache_check (self : Analyzer) (key : string) (now : datetime)
    : option RiskResult :=
  match risk_cache self !! key with
  | Some (cached_result, timestamp) =>
      if td_seconds (now - timestamp) <? cache_ttl then Some cached_result else None
  | None => None
  end.

(** [min(1.0, max(0.0, score))] *)
Definition clamp (score : float) : float :=
  Float.py_min Float.one (Float.py_max Float.zero score).

Definition unknown_merchant (merchant_id : string) : RiskAnalysis :=
  mkRisk merchant_id (Float.lit 1 10) ["Unknown merchant"] None None None [] [].

(** The body of the [try] block: the result, and the cache after it.
    [stored] is the clock read when the result is cached. *)
Definition analysis_body (self : Analyzer) (merchant_id : string)
    (user_id : option string) (stored : datetime) : outcome (Analyzer * RiskResult) :=
  let g := merchant_graph self in
  if negb (has_node g merchant_id)
  then Return (self, Analysis (unknown_merchant merchant_id))
  else
    merchant_data ← node_data g merchant_id;
    let risk_score := Float.zero in
    let factors := [] in
    (* 1. Centrality Analysis *)
    let centrality_risk := _analyze_centrality g merchant_id in
    let risk_score := Float.add risk_score (risk_contribution centrality_risk) in
    let factors := factors ++ sub_factors centrality_risk in
    (* 2. Clustering Analysis *)
    let clustering_risk := _analyze_clustering g merchant_id in
    let risk_score := Float.add risk_score (risk_contribution clustering_risk) in
    let factors := factors ++ sub_factors clustering_risk in
    (* 3. Velocity Analysis *)
    let velocity_risk := _analyze_velocity g merchant_id in
    let risk_score := Float.add risk_score (risk_contribution velocity_risk) in
    let factors := factors ++ sub_factors velocity_risk in
    (* 4. Network Anomaly Detection *)
    let anomalies := _detect_network_anomalies self merchant_id user_id in
    let anomaly_risk :=
      Float.mul (Float.of_Z (Z.of_nat (length anomalies))) (Float.lit 1 10) in
    let risk_score := Float.add risk_score anomaly_risk in
    (* 5. User-Merchant Relationship Analysis (if user provided) *)
    '(risk_score, factors) ←
      (if truthy user_id
       then relationship_risk ←
              _analyze_user_merchant_relationship g (default "" user_id) merchant_id;
            Return (Float.add risk_score (risk_contribution relationship_risk),
                    factors ++ sub_factors relationship_risk)
       else Return (risk_score, factors));
    (* Normalize risk score to [0, 1] *)
    let risk_score := clamp risk_score in
    let recommendations := _generate_recommendations risk_score factors in
    let risk_analysis :=
      Analysis (mkRisk merchant_id risk_score factors (Some centrality_risk)
                  (Some clustering_risk) (Some velocity_risk) anomalies recommendations) in
    (* Cache result *)
    Return (mkAnalyzer (merchant_graph self) (transaction_graph self)
              (<[cache_key merchant_id user_id := (risk_analysis, stored)]> (risk_cache self)),
            risk_analysis).

(** The [except Exception] handler. *)
Definition analysis_error (merchant_id : string) (e : exn) : RiskResult :=
  Degraded merchant_id (Float.lit 5 10) ["Analysis error"] (exn_str e).

(** [analyze_merchant_risk]. [now] is the clock read by the cache check
    and [stored] the clock read when the result is cached. *)
Definition analyze_merchant_risk (merchant_id : string) (user_id : option string)
    (now stored : datetime) (self : Analyzer) : Analyzer * outcome RiskResult :=
  match cache_check self (cache_key merchant_id user_id) now with
  | Some cached_result => (self, Return cached_result)
  | None =>
      match analysis_body self merchant_id user_id stored with
      | Return (self', risk_analysis) => (self', Return risk_analysis)
      | Raise e => (self, Return (analysis_error merchant_id e))
      end
  end.
End analysis.

(** ** Network statistics *)

(** The two routines of networkx that only [get_network_stats] calls. *)
Record StatsLib := mkStatsLib {
  number_connected_components : Graph → outcome nat;
  density : Graph → outcome float
}.

(** The dict [get_network_stats] returns. *)
Record NetworkStats := mkStats {
  total_nodes : nat;
  total_edges : nat;
  merchant_nodes : nat;
  user_nodes : nat;
  stats_connected_components : nat;
  stats_average_clustering : float;
  stats_density : float
}.

(** [len([n for n, d in G.nodes(data=True) if d.get('node_type') == k])] *)
Definition count_nodes (k : node_kind) (g : Graph) : nat :=
  length (filter (λ nd, Node.node_type nd.2 = k) (map_to_list (nodes g))).

(** [get_network_stats]: no handler, an error of a routine is the
    caller's. *)
Definition get_network_stats (lib : NxLib) (slib : StatsLib) (self : Analyzer)
    : outcome NetworkStats :=
  let g := merchant_graph self in
  let total_nodes := size (nodes g) in
  let total_edges := size (edges g) in
  let merchant_nodes := count_nodes Merchant g in
  let user_nodes := count_nodes User g in
  connected_components ← number_connected_components slib g;
  average_clustering ← average_clustering lib g;
  density ← density slib g;
  Return (mkStats total_nodes total_edges merchant_nodes user_nodes
            connected_components average_clustering density).

(** ** The transactions router

    [routers/transactions.py] keeps one analyzer and asks it for the
    risk of the merchant of each transaction; the fraud score comes from
    the anomaly model and is an input here. *)

(** [fraud_score > 0.7 or graph_risk.get("risk_score", 0) > 0.8] *)
Definition is_flagged (fraud_score : float) (graph_risk : RiskResult) : bool :=
  Float.ltb (Float.lit 7 10) fraud_score ||
  Float.ltb (Float.lit 8 10) (result_score graph_risk).

(** The fields of [FraudScoreResponse] the scoring decides. *)
Record FraudScore := mkFraudScore {
  fraud_score : float;
  graph_risk_score : float;
  flagged : bool;
  status : string;
  score_factors : list string
}.

(** The scoring steps [create_transaction] and [rescore_transaction]
    share: ask the analyzer, then flag. *)
Definition score_transaction (lib : NxLib) (user_id merchant_id : string)
    (fraud_score : float) (now stored : datetime) (self : Analyzer)
    : Analyzer * outcome FraudScore :=
  let '(self', answer) :=
    analyze_merchant_risk lib merchant_id (Some user_id) now stored self in
  (self',
   graph_risk ← answer;
   let is_flagged := is_flagged fraud_score graph_risk in
   Return (mkFraudScore fraud_score (result_score graph_risk) is_flagged
             (if is_flagged then "flagged" else "cleared")
             (result_factors graph_risk))).

(** ** Histories of calls *)

Inductive call :=
  | Record (user_id merchant_id : string) (amount : float) (timestamp : pydatetime)
           (metadata : option (gmap string string))
  | Analyze (lib : NxLib) (merchant_id : string) (user_id : option string)
            (now stored : datetime).

Definition step (self : Analyzer) (c : call) : Analyzer :=
  match c with
  | Record user_id merchant_id amount timestamp metadata =>
      (add_transaction_edge user_id merchant_id amount timestamp metadata self).1
  | Analyze lib merchant_id user_id now stored =>
      (analyze_merchant_risk lib merchant_id user_id now stored self).1
  end.

(** The analyzer after the calls [cs], made in order on a new analyzer.
    A call that raised leaves what it had written. *)
Definition run (cs : list call) : Analyzer := fold_left step cs init.

(** ** Two library instances *)

(** Every routine answers, with the values of a connected graph without
    triangles or return paths: no centrality, no clustering, one
    component, no path from a merchant back to a user. *)
Definition calm_lib : NxLib :=
  mkLib (λ _, Return ∅) (λ _ _, Return ∅) (λ _, Return ∅) (λ _, Return true)
        (λ _ _, Return Float.zero) (λ _, Return Float.zero)
        (λ g, Return [dom (nodes g)])
        (λ g _, Return (dom (nodes g))) (λ _ _ _, Return false) (λ _ _ _, Return [])
        (λ _, Return Float.zero) (λ _ _, "").

(** Every routine raises. *)
Definition broken_lib : NxLib :=
  let e := LibraryError "unavailable" in
  mkLib (λ _, Raise e) (λ _ _, Raise e) (λ _, Raise e) (λ _, Raise e)
        (λ _ _, Raise e) (λ _, Raise e) (λ _, Raise e)
        (λ _ _, Raise e) (λ _ _ _, Raise e) (λ _ _ _, Raise e)
        (λ _, Raise e) (λ _ _, "").

(** [calm_lib] with a clustering routine that raises. *)
Definition no_clustering_lib : NxLib :=
  mkLib (degree_centrality calm_lib) (betweenness_centrality calm_lib)
        (closeness_centrality calm_lib) (is_connected calm_lib)
        (λ _ _, Raise (LibraryError "clustering failed"))
        (average_clustering calm_lib) (connected_components calm_lib)
        (node_connected_component calm_lib) (has_path calm_lib)
        (shortest_path calm_lib) (np_var calm_lib) (format_float calm_lib).

(** * The vocabulary of the properties *)

(** [x] lies in the closed interval from 0.0 to 1.0. *)
Definition in_unit (x : float) : bool :=
  Float.leb Float.zero x && Float.leb x Float.one.

(** Every cached result has a score between 0 and 1. *)
Definition cache_bounded (self : Analyzer) : Prop :=
  ∀ k r t, risk_cache self !! k = Some (r, t) → in_unit (result_score r) = true.

(** [a] occurs in [s]. *)
Definition contains (s a : string) : Prop := ∃ p q, s = p +:+ a +:+ q.

(** The amounts of the examples. *)
Definition ten : float := Float.of_Z 10.


(** [n] seconds, in microseconds. *)
Definition seconds (n : Z) : Z := n * us_per_second.

(** The type of the node [n], if the graph has it. *)
Definition kind_of (g : Graph) (n : string) : option node_kind :=
  Node.node_type <$> nodes g !! n.

(** Whether the datetimes of the node [n] are aware, if the graph has
    the node. *)
Definition tz_of (g : Graph) (n : string) : option bool :=
  Node.tz_aware <$> nodes g !! n.

(** A later state of a node: same type, same [first_seen], and neither
    [last_seen] nor the transaction count has gone down. Its datetimes
    are naive or aware as they were. *)
Definition node_le (d d' : Node.t) : Prop :=
  (Node.node_type d' = Node.node_type d ∧ Node.tz_aware d' = Node.tz_aware d) ∧
  Node.first_seen d' = Node.first_seen d ∧
  Node.last_seen d ≤ Node.last_seen d' ∧
  (Node.total_transactions d ≤ Node.total_transactions d')%nat.

(** A later state of an edge: the amounts recorded so far are still
    there, in order, before the new ones. *)
Definition edge_le (e e' : Edge.t) : Prop :=
  Edge.first_transaction e' = Edge.first_transaction e ∧
  (Edge.transaction_count e ≤ Edge.transaction_count e')%nat ∧
  Edge.amounts e `prefix_of` Edge.amounts e'.

(** The graph only grows: every node and every edge is still there, in
    a later state. *)
Definition grows (g g' : Graph) : Prop :=
  (∀ n d, nodes g !! n = Some d → ∃ d', nodes g' !! n = Some d' ∧ node_le d d') ∧
  (∀ k e, edges g !! k = Some e → ∃ e', edges g' !! k = Some e' ∧ edge_le e e').

(** A node update that keeps the node's type and [first_seen] and lowers
    neither [last_seen] nor the count. *)
Definition monotone_update (f : Node.t → Node.t) : Prop := ∀ d, node_le d (f d).

(** What [last_seen = max(last_seen, timestamp)] makes of a node whose
    datetimes can be compared with the timestamp. *)
Definition bump_last_seen (timestamp : pydatetime) (d : Node.t) : Node.t :=
  Node.set_last_seen (Z.max (Node.last_seen d) (instant timestamp)) d.

(** The graph after the two nodes were made sure of and the merchant's
    totals raised: the graph the first set update sees. *)
Definition after_merchant_totals (u m : string) (a : float) (t : pydatetime)
    (g : Graph) : Graph :=
  update_node m (Node.add_total_amount a)
    (update_node m Node.incr_total_transactions
       (ensure_node u (Node.fresh User t) (ensure_node m (Node.fresh Merchant t) g))).

(** The graph the first [max] sees. *)
Definition after_merchant_peer (u m : string) (a : float) (t : pydatetime)
    (g : Graph) : Graph :=
  update_node m (Node.add_peer u) (after_merchant_totals u m a t g).

(** The graph the second set update sees. *)
Definition after_user_totals (u m : string) (a : float) (t : pydatetime)
    (g : Graph) : Graph :=
  update_node u (Node.add_total_amount a)
    (update_node u Node.incr_total_transactions
       (update_node m (bump_last_seen t)
          (after_merchant_peer u m a t g))).

(** The graph the second [max] sees. *)
Definition after_user_peer (u m : string) (a : float) (t : pydatetime)
    (g : Graph) : Graph :=
  update_node u (Node.add_peer m) (after_user_totals u m a t g).

(** The graph a call that returns leaves. *)
Definition after_add (u m : string) (a : float) (t : pydatetime) (g : Graph) : Graph :=
  add_or_update_edge u m a t
    (update_node u (bump_last_seen t)
       (update_node u (Node.add_peer m) (after_user_totals u m a t g))).

(** The identities can play the roles the call gives them: they differ,
    the merchant's is not the identity of a user node and the user's is
    not the identity of a merchant node. *)
Definition roles_fit (g : Graph) (u m : string) : Prop :=
  u ≠ m ∧ kind_of g m ≠ Some User ∧ kind_of g u ≠ Some Merchant.

(** The timestamp can be compared with the datetimes of the node [n], if
    the graph has the node: both are naive or both are aware. *)
Definition comparable (g : Graph) (n : string) (t : pydatetime) : Prop :=
  tz_of g n ≠ Some (negb (aware t)).

(** The timestamp can be compared with the datetimes of both nodes. *)
Definition times_fit (g : Graph) (u m : string) (t : pydatetime) : Prop :=
  comparable g m t ∧ comparable g u t.

Global Instance comparable_dec g n t : Decision (comparable g n t).
Proof. unfold comparable. apply _. Defined.

(** How a call of [add_transaction_edge] ends, read off the graph it is
    made on, in the order the statements of the call are run: the set
    update of the merchant's node, its [max], the set update of the
    user's node, its [max]. The amount plays no part. *)
Definition call_end (g : Graph) (u m : string) (t : pydatetime) : outcome unit :=
  if decide (kind_of g m = Some User)
  then Raise (KeyError "unique_customers")
  else if decide (comparable g m t)
  then if decide (u = m ∨ kind_of g u = Some Merchant)
       then Raise (KeyError "unique_merchants")
       else if decide (comparable g u t)
       then Return ()
       else Raise (TypeError "can't compare offset-naive and offset-aware datetimes")
  else Raise (TypeError "can't compare offset-naive and offset-aware datetimes").

(** The amounts added up from left to right, each partial sum rounded to
    the nearest double: what [total_amount] accumulates. *)
Definition fsum (xs : list float) : float :=
  match xs with
  | [] => Float.zero
  | x :: rest => fold_left Float.add rest x
  end.

(** Two partial sums that are equal, or are the two zeros. *)
Definition same_up_to_zero_sign (x x' : float) : Prop :=
  x = x' ∨ (x = S754_zero true ∧ x' = S754_zero false).

(** A number that is not negative (and is a number): what a valid amount
    is. *)
Definition nonneg (x : float) : bool :=
  match x with
  | S754_nan => false
  | S754_zero _ => true
  | S754_infinity s | S754_finite s _ _ => negb s
  end.

(** What a call adds to the amounts recorded for the pair [(u, m)]: the
    amount of a call for that user and merchant that returned. *)
Definition recorded_step (u m : string) (self : Analyzer) (c : call) : list float :=
  match c with
  | Record u' m' a t md =>
      if bool_decide (u' = u ∧ m' = m)
      then match (add_transaction_edge u' m' a t md self).2 with
           | Return _ => [a]
           | Raise _ => []
           end
      else []
  | Analyze _ _ _ _ _ => []
  end.

(** The amounts the calls [cs], made from the state [self], record for
    the pair. *)
Fixpoint recorded_from (self : Analyzer) (u m : string) (cs : list call) : list float :=
  match cs with
  | [] => []
  | c :: cs' => recorded_step u m self c ++ recorded_from (step self c) u m cs'
  end.

(** The amounts [a1 .. an] of the calls for [(u, m)] that returned, in the
    history [cs] on a new analyzer. *)
Definition recorded (u m : string) (cs : list call) : list float :=
  recorded_from init u m cs.

(** An edge whose count and total agree with its amounts. *)
Definition edge_sound (e : Edge.t) : Prop :=
  Edge.amounts e ≠ [] ∧
  Edge.transaction_count e = length (Edge.amounts e) ∧
  Edge.total_amount e = fsum (Edge.amounts e).

(** Every edge joins a user node (first) to a merchant node, is sound,
    and holds the amounts recorded for its pair; a pair without an edge
    has nothing recorded. *)
Definition ledger (cs : list call) : Prop :=
  let g := merchant_graph (run cs) in
  ∀ a b,
    match edges g !! (a, b) with
    | Some e => kind_of g a = Some User ∧ kind_of g b = Some Merchant ∧
                edge_sound e ∧ Edge.amounts e = recorded a b cs
    | None => recorded a b cs = []
    end.

(** A history of calls for one user and one merchant only, given by the
    amount, the timestamp and the metadata of each call. *)
Definition same_pair (u m : string)
    (xs : list (float * pydatetime * option (gmap string string))) : list call :=
  (λ x, Record u m x.1.1 x.1.2 x.2) <$> xs.

(** Every node of the graph satisfies [P]. *)
Definition every_node (P : Node.t → Prop) (g : Graph) : Prop :=
  ∀ n d, nodes g !! n = Some d → P d.


(** [d[key]] on a dict of metrics. *)
Fixpoint metric (key : string) (ms : list (string * pyval)) : option pyval :=
  match ms with
  | [] => None
  | (k, v) :: rest => if String.eqb k key then Some v else metric key rest
  end.

(** The formula of the specification: the transaction count divided by
    [max(time_span_hours, 1)]. *)
Definition spec_transactions_per_hour (d : Node.t) : float :=
  Float.div (Float.of_Z (Z.of_nat (Node.total_transactions d)))
            (Float.py_max (span_hours d) Float.one).

(** The beginnings of the factors the sub-analyses give for a merchant
    whose relationship with the user is not new. *)
Definition factor_prefixes : list string :=
  ["High degree centrality ("; "High betweenness centrality (";
   "Suspicious clustering pattern ("; "Large tight community (";
   "High transaction velocity ("; "High activity for new merchant";
   "Low customer diversity"; "Very frequent transactions (";
   "Highly variable transaction amounts"].

Definition graph_factor (s : string) : bool :=
  existsb (λ p, String.prefix p s) factor_prefixes.

(** The updates of the totals of a node, and all the updates a call
    that gets that far makes to one of its two nodes. *)
Definition totals_update (a : float) (d : Node.t) : Node.t :=
  Node.add_total_amount a (Node.incr_total_transactions d).

Definition peer_update (x : string) (a : float) (d : Node.t) : Node.t :=
  Node.add_peer x (totals_update a d).

Definition node_update (x : string) (a : float) (t : pydatetime) (d : Node.t) : Node.t :=
  bump_last_seen t (peer_update x a d).

(** A history in which the analyzer is only asked, as the routers do. *)
Definition asked_only (cs : list call) : Prop :=
  Forall (λ c, match c with Analyze _ _ _ _ _ => True | Record _ _ _ _ _ => False end) cs.

(** The counterparties of a node are no more than its transactions, and
    a merchant node has at least one counterparty. *)
Definition counted (d : Node.t) : Prop :=
  (size (Node.peers d) ≤ Node.total_transactions d)%nat ∧
  (Node.node_type d = Merchant → (1 ≤ size (Node.peers d))%nat).

(** A later state of a node that has also kept its counterparties. *)
Definition node_later (d d' : Node.t) : Prop :=
  node_le d d' ∧ Node.peers d ⊆ Node.peers d'.

(** The node the call starts from: the node of the graph, or the new
    node the call adds. *)
Definition node_before (k : node_kind) (t : pydatetime) (g : Graph) (n : string) : Node.t :=
  default (Node.fresh k t) (nodes g !! n).

(** What the two graphs hold about a pair: the ends of an edge are nodes
    that have each other among their counterparties and were last seen
    no earlier than the edge, and the directed graph has the arc of the
    pair, with the time and the amount of the last transaction of the
    edge; a pair without an edge has no arc. *)
Definition linked (self : Analyzer) : Prop :=
  let g := merchant_graph self in
  ∀ a b,
    match edges g !! (a, b) with
    | Some e =>
        (∃ da db, nodes g !! a = Some da ∧ nodes g !! b = Some db ∧
                  b ∈ Node.peers da ∧ a ∈ Node.peers db ∧
                  Edge.last_transaction e ≤ Node.last_seen da ∧
                  Edge.last_transaction e ≤ Node.last_seen db) ∧
        (∃ arc, d_arcs (transaction_graph self) !! (a, b) = Some arc ∧
                Arc.timestamp arc = Edge.last_transaction e ∧
                last (Edge.amounts e) = Some (Arc.amount arc))
    | None => d_arcs (transaction_graph self) !! (a, b) = None
    end.

(** There is an arc from [a] to [b], and a directed path. *)
Definition arc (t : DiGraph) (a b : string) : Prop := is_Some (d_arcs t !! (a, b)).

Definition path (t : DiGraph) : string → string → Prop := rtc (arc t).

(** The types of anomaly, in the order they are looked for. *)
Definition anomaly_types : list string :=
  ["circular_transactions"; "transaction_burst"; "merchant_chain"; "isolated_cluster"].

(** A complete analysis: the three sub-analyses are there, the score is
    between 0 and 1 and the recommendations are those of the score and
    the factors. *)
Definition complete (a : RiskAnalysis) : Prop :=
  is_Some (centrality_metrics a) ∧ is_Some (clustering_metrics a) ∧
  is_Some (velocity_metrics a) ∧ in_unit (risk_score a) = true ∧
  recommendations a = _generate_recommendations (risk_score a) (factors a).

(** Every cached result is the complete analysis of a merchant that has
    a node, under the key of a question about that merchant. *)
Definition cache_sound (self : Analyzer) : Prop :=
  ∀ k r t, risk_cache self !! k = Some (r, t) →
    ∃ a u, r = Analysis a ∧ k = cache_key (merchant_id a) u ∧
           has_node (merchant_graph self) (merchant_id a) = true ∧ complete a.

(** The role and the time of the first call of [add_transaction_edge]
    that names the identity [n]. *)
Fixpoint first_named (n : string) (cs : list call) : option (node_kind * pydatetime) :=
  match cs with
  | [] => None
  | Record u m _ t _ :: rest =>
      if decide (m = n) then Some (Merchant, t)
      else if decide (u = n) then Some (User, t)
      else first_named n rest
  | Analyze _ _ _ _ _ :: rest => first_named n rest
  end.

(** The type and [first_seen] of a node, naive or aware as the node is. *)
Definition origin (d : Node.t) : node_kind * pydatetime :=
  (Node.node_type d, mkdt (Node.first_seen d) (Node.tz_aware d)).

(** The call that first named an identity, if there is one, gave it the
    role [k], with a timestamp that can be compared with [t]. *)
Definition first_fits (k : node_kind) (t : pydatetime)
    (first : option (node_kind * pydatetime)) : bool :=
  match first with
  | None => true
  | Some (k', t') => bool_decide (k' = k) && bool_decide (aware t' = aware t)
  end.

(** A call [add_transaction_edge(u, m, _, t)] made after the calls
    [before] is accepted when the two identities differ, [m] was not
    first named as a user and [u] not as a merchant, and [t] can be
    compared with the timestamps of the calls that first named them.
    This is read off the history alone. *)
Definition accepted (before : list call) (u m : string) (t : pydatetime) : bool :=
  bool_decide (u ≠ m) &&
  first_fits Merchant t (first_named m before) &&
  first_fits User t (first_named u before).

Definition accepted_step (before : list call) (u m : string) (c : call) : list float :=
  match c with
  | Record u' m' a t _ =>
      if bool_decide (u' = u ∧ m' = m) && accepted before u m t then [a] else []
  | Analyze _ _ _ _ _ => []
  end.

Fixpoint accepted_from (before : list call) (u m : string) (cs : list call)
    : list float :=
  match cs with
  | [] => []
  | c :: rest => accepted_step before u m c ++ accepted_from (before ++ [c]) u m rest
  end.

(** The amounts [a1 .. an] of the accepted calls for [(u, m)] in the
    history [cs], in order. *)
Definition accepted_amounts (u m : string) (cs : list call) : list float :=
  accepted_from [] u m cs.

(** * Properties *)

(** ** Floats *)

Lemma ltb_leb (a b : float) : Float.ltb a b = true → Float.leb a b = true.
Proof.
  unfold Float.ltb, Float.leb, SFltb, SFleb.
  by destruct (SFcompare a b) as [[]|].
Qed.

Lemma clamp_in_unit (x : float) : in_unit (clamp x) = true.
Proof.
  unfold clamp, Float.py_min, Float.py_max, in_unit.
  destruct (Float.ltb Float.zero x) eqn:H0.
  - destruct (Float.ltb x Float.one) eqn:H1.
    + apply ltb_leb in H0, H1. by rewrite H0, H1.
    + reflexivity.
  - reflexivity.
Qed.

(** ** The cache *)

Lemma lookup_foldr_delete {V} (m : gmap string V) (ks : list string) (k : string) :
  foldr delete m ks !! k = if decide (k ∈ ks) then None else m !! k.
Proof.
  induction ks as [|k' ks IH]; simpl.
  - destruct (decide (k ∈ [])) as [H%not_elem_of_nil|]; done.
  - destruct (decide (k' = k)) as [->|Hne].
    + rewrite lookup_delete_eq. destruct (decide (k ∈ k :: ks)) as [|[]]; [done|left].
    + rewrite lookup_delete_ne by done. rewrite IH.
      destruct (decide (k ∈ ks)), (decide (k ∈ k' :: ks)) as [Hin|Hnin]; try done.
      * exfalso. apply Hnin. by right.
      * apply elem_of_cons in Hin as [->|?]; done.
Qed.

Lemma elem_of_keys_to_remove m u cache (k : string) :
  k ∈ keys_to_remove m u cache ↔
  is_Some (cache !! k) ∧ (is_substring m k || is_substring u k) = true.
Proof.
  unfold keys_to_remove. rewrite list_elem_of_filter, list_elem_of_fmap.
  rewrite Is_true_true. split.
  - intros [? [[k' v] [-> Hin%elem_of_map_to_list]]]. eauto.
  - intros [[v Hv] ?]. split; [done|]. exists (k, v). split; [done|].
    by apply elem_of_map_to_list.
Qed.

Lemma invalidate_lookup_Some m u cache (k : string) v :
  _invalidate_cache m u cache !! k = Some v ↔
  cache !! k = Some v ∧ is_substring m k = false ∧ is_substring u k = false.
Proof.
  unfold _invalidate_cache. rewrite lookup_foldr_delete.
  destruct (decide _) as [Hin|Hnin].
  - apply elem_of_keys_to_remove in Hin as [_ Hin]. split; [done|].
    intros (_ & Hm & Hu). by rewrite Hm, Hu in Hin.
  - split; [|by intros []]. intros Hv.
    rewrite elem_of_keys_to_remove, Hv in Hnin.
    destruct (is_substring m k), (is_substring u k); try done;
      exfalso; apply Hnin; eauto.
Qed.

Lemma has_node_true g n : has_node g n = true ↔ is_Some (nodes g !! n).
Proof. unfold has_node. by rewrite bool_decide_eq_true. Qed.

Lemma has_node_false g n : has_node g n = false ↔ nodes g !! n = None.
Proof. unfold has_node. by rewrite bool_decide_eq_false, eq_None_not_Some. Qed.

(** How a call of [analyze_merchant_risk] can end. *)
Lemma analyze_cases lib m u now stored self :
  ∃ self' r,
    analyze_merchant_risk lib m u now stored self = (self', Return r) ∧
    merchant_graph self' = merchant_graph self ∧
    transaction_graph self' = transaction_graph self ∧
    ((cache_check self (cache_key m u) now = Some r ∧ self' = self) ∨
     (cache_check self (cache_key m u) now = None ∧
      ((has_node (merchant_graph self) m = false ∧
        r = Analysis (unknown_merchant m) ∧ self' = self) ∨
       (∃ e, analysis_body lib self m u stored = Raise e ∧
             r = analysis_error m e ∧ self' = self) ∨
       (has_node (merchant_graph self) m = true ∧
        ∃ a x, r = Analysis a ∧ merchant_id a = m ∧ risk_score a = clamp x ∧
               analysis_body lib self m u stored = Return (self', r) ∧
               risk_cache self' = <[cache_key m u := (r, stored)]> (risk_cache self))))).
Proof.
  unfold analyze_merchant_risk.
  destruct (cache_check self (cache_key m u) now) as [r|] eqn:Hc.
  { exists self, r. do 3 (split; [done|]). by left. }
  destruct (analysis_body lib self m u stored) as [[self' r]|e] eqn:Hb.
  2:{ exists self, (analysis_error m e). do 3 (split; [done|]). right. split; [done|]. right. left. by exists e. }
  exists self', r. split; [done|]. revert Hb. unfold analysis_body.
  destruct (has_node (merchant_graph self) m) eqn:Hn; simpl.
  2:{ intros [= <- <-]. do 2 (split; [done|]). right. split; [done|]. by left. }
  apply has_node_true in Hn as [d Hd]. unfold node_data. rewrite Hd. simpl.
  destruct (truthy u); simpl.
  - destruct (_analyze_user_merchant_relationship _ _ _ _) as [rel|e]; simpl; [|done].
    intros [= <- <-]. simpl. do 2 (split; [done|]). right. split; [done|].
    right. right. split; [done|]. eexists _, _. done.
  - intros [= <- <-]. simpl. do 2 (split; [done|]). right. split; [done|].
    right. right. split; [done|]. eexists _, _. done.
Qed.

(** ** Histories *)

Lemma run_snoc cs c : run (cs ++ [c]) = step (run cs) c.
Proof. unfold run. by rewrite fold_left_app. Qed.

Lemma run_ind (P : Analyzer → Prop) :
  P init → (∀ s c, P s → P (step s c)) → ∀ cs, P (run cs).
Proof.
  intros Hi Hs cs. induction cs as [|c cs IH] using rev_ind; [done|].
  rewrite run_snoc. by apply Hs.
Qed.

(** What [add_transaction_edge] does to the cache. *)
Lemma add_cache u m a t md self :
  let r := add_transaction_edge u m a t md self in
  risk_cache r.1 =
    match r.2 with
    | Return _ => _invalidate_cache m u (risk_cache self)
    | Raise _ => risk_cache self
    end.
Proof.
  unfold add_transaction_edge; simpl.
  destruct (peers_add Merchant _ _ _); [|done].
  destruct (last_seen_max m _ _); [|done].
  destruct (peers_add User _ _ _); [|done].
  destruct (last_seen_max u _ _); done.
Qed.

Lemma add_cache_lookup u m a t md self k v :
  risk_cache (add_transaction_edge u m a t md self).1 !! k = Some v →
  risk_cache self !! k = Some v.
Proof.
  rewrite add_cache. destruct (_.2); [|done].
  by intros [? _]%invalidate_lookup_Some.
Qed.

Lemma cache_check_Some self key now r :
  cache_check self key now = Some r →
  ∃ t, risk_cache self !! key = Some (r, t) ∧ td_seconds (now - t) < cache_ttl.
Proof.
  unfold cache_check. destruct (risk_cache self !! key) as [[r' t]|]; [|done].
  destruct (Z.ltb_spec (td_seconds (now - t)) cache_ttl); [|done].
  intros [= ->]. eauto.
Qed.

Lemma run_cache_bounded cs : cache_bounded (run cs).
Proof.
  apply (run_ind cache_bounded); clear cs.
  { intros k r t. unfold init; simpl. by rewrite lookup_empty. }
  intros s c IH.
  destruct c as [u m a t md|lib m u now stored]; simpl.
  - intros k r t' H%add_cache_lookup. eauto.
  - destruct (analyze_cases lib m u now stored s)
      as (s' & r & -> & _ & _ & [[_ ->]|[_ [(_ & _ & ->)|[(e & _ & _ & ->)|
          (_ & a & x & -> & _ & Hx & _ & Hc)]]]]); simpl; try done.
    intros k r t'. rewrite Hc. destruct (decide (cache_key m u = k)) as [<-|].
    + rewrite lookup_insert_eq. intros [= <- <-]. simpl. rewrite Hx. apply clamp_in_unit.
    + rewrite lookup_insert_ne by done. apply IH.
Qed.

(** C1. For every history of calls and every input, [analyze_merchant_risk]
    returns a result whose [risk_score] is at least 0.0 and at most 1.0:
    on the normal path (the clamp), for an unknown merchant (0.1), in the
    exception handler (0.5) and for a result served from the cache. *)
Theorem risk_score_bounds cs lib m u now stored :
  ∃ r, (analyze_merchant_risk lib m u now stored (run cs)).2 = Return r ∧
       Float.leb Float.zero (result_score r) = true ∧
       Float.leb (result_score r) Float.one = true.
Proof.
  destruct (analyze_cases lib m u now stored (run cs))
    as (s' & r & -> & _ & _ & H). exists r. split; [done|].
  apply andb_true_iff. change (in_unit (result_score r) = true).
  destruct H as [[(t & Hc & _)%cache_check_Some _]|[_ [(_ & -> & _)|[(e & _ & -> & _)|
    (_ & a & x & -> & _ & Hx & _)]]]]; simpl.
  - by eapply run_cache_bounded.
  - reflexivity.
  - reflexivity.
  - rewrite Hx. apply clamp_in_unit.
Qed.

(** ** Substrings *)

Lemma append_nil_l (s : string) : "" +:+ s = s.
Proof. reflexivity. Qed.

Lemma append_cons (c : ascii) (a s : string) : String c a +:+ s = String c (a +:+ s).
Proof. reflexivity. Qed.

Lemma prefix_spec a s : String.prefix a s = true ↔ ∃ q, s = a +:+ q.
Proof.
  revert s. induction a as [|c a IH]; intros s.
  - split; [|by destruct s]. intros _. by exists s.
  - destruct s as [|c' s]; simpl.
    + split; [done|]. by intros [q ?].
    + destruct (Ascii.ascii_dec c c') as [->|Hne].
      * rewrite IH. split; intros [q Hq]; exists q; rewrite append_cons in *; congruence.
      * split; [done|]. intros [q Hq]. rewrite append_cons in Hq. congruence.
Qed.

Lemma is_substring_nil a : is_substring a "" = String.prefix a "" || false.
Proof. reflexivity. Qed.

Lemma is_substring_cons a c s :
  is_substring a (String c s) = String.prefix a (String c s) || is_substring a s.
Proof. reflexivity. Qed.

Lemma is_substring_spec a s : is_substring a s = true ↔ contains s a.
Proof.
  induction s as [|c s IH];
    rewrite ?is_substring_nil, ?is_substring_cons, orb_true_iff, prefix_spec.
  - split.
    + intros [[q Hq]|]; [|done]. by exists "", q.
    + intros (p & q & H). left. destruct p; [by exists q|done].
  - rewrite IH. split.
    + intros [[q Hq]|(p & q & ->)]; [by exists "", q|]. by exists (String c p), q.
    + intros (p & q & H). destruct p as [|c' p].
      * left. by exists q.
      * right. exists p, q. rewrite append_cons in H. congruence.
Qed.

Lemma contains_empty s : contains s "".
Proof. by exists "", s. Qed.

Lemma cache_key_contains_merchant m u : contains (cache_key m u) m.
Proof. unfold cache_key. by exists "merchant_risk_", ("_" +:+ user_or_none u). Qed.

Lemma append_empty_r s : s +:+ "" = s.
Proof. induction s as [|c s IH]; [done|]. by rewrite append_cons, IH. Qed.

Lemma append_assoc (a b c : string) : (a +:+ b) +:+ c = a +:+ b +:+ c.
Proof. induction a as [|x a IH]; [done|]. by rewrite !append_cons, IH. Qed.

Lemma cache_key_contains_user m u : contains (cache_key m (Some u)) u.
Proof.
  destruct (String.eqb_spec u "") as [->|Hne]; [apply contains_empty|].
  unfold cache_key, user_or_none, truthy.
  apply String.eqb_neq in Hne. rewrite Hne. simpl.
  exists ("merchant_risk_" +:+ m +:+ "_"), "".
  by rewrite append_empty_r, !append_assoc.
Qed.

(** ** Which errors reach the handler of [analyze_merchant_risk] *)

(** The body of the [try] block raises exactly when the analysis of the
    relationship with the given user does: the centrality, clustering,
    velocity and anomaly analyses handle their own errors. *)
Lemma analysis_body_raises lib self m u stored e :
  analysis_body lib self m u stored = Raise e ↔
  has_node (merchant_graph self) m = true ∧ truthy u = true ∧
  _analyze_user_merchant_relationship lib (merchant_graph self) (default "" u) m = Raise e.
Proof.
  unfold analysis_body.
  destruct (has_node (merchant_graph self) m) eqn:Hn; simpl.
  2:{ split; [done|]. by intros []. }
  apply has_node_true in Hn as [d Hd]. unfold node_data. rewrite Hd. simpl.
  destruct (truthy u); simpl.
  2:{ split; [done|]. by intros (_ & ? & _). }
  destruct (_analyze_user_merchant_relationship _ _ _ _) as [rel|e']; simpl.
  - split; [done|]. by intros (_ & _ & ?).
  - split; [by intros [= ->]|]. by intros (_ & _ & [= ->]).
Qed.

(** A routine of the library that raises inside a sub-analysis costs that
    sub-analysis its contribution, nothing more. *)
Lemma clustering_error_absorbed lib g m e :
  clustering lib g m = Raise e → _analyze_clustering lib g m = empty_sub.
Proof. unfold _analyze_clustering. by intros ->. Qed.

Lemma centrality_error_absorbed lib g m e :
  1 < Z.of_nat (size (nodes g)) →
  degree_centrality lib g = Raise e → _analyze_centrality lib g m = empty_sub.
Proof.
  unfold _analyze_centrality. intros Hn ->.
  by destruct (Z.ltb_spec 1 (Z.of_nat (size (nodes g)))); [|lia].
Qed.

(** C3, as the code has it. [analyze_merchant_risk] always returns a
    result and never raises. When the cache does not answer, the only
    errors that reach its handler are those of the relationship analysis
    (the other sub-analyses handle their own and contribute nothing
    instead), and an error that reaches the handler is answered with the
    score 0.5 and the one factor "Analysis error", the state left as it
    was. *)
Theorem analysis_always_answers lib m u now stored self :
  ∃ self' r,
    analyze_merchant_risk lib m u now stored self = (self', Return r) ∧
    (cache_check self (cache_key m u) now = None →
     ∀ e, analysis_body lib self m u stored = Raise e →
          self' = self ∧
          r = Degraded m (Float.lit 5 10) ["Analysis error"] (exn_str e) ∧
          has_node (merchant_graph self) m = true ∧ truthy u = true ∧
          _analyze_user_merchant_relationship lib (merchant_graph self)
            (default "" u) m = Raise e).
Proof.
  destruct (analyze_cases lib m u now stored self)
    as (self' & r & Heq & _ & _ & H).
  exists self', r. split; [done|]. intros Hc e He.
  pose proof (proj1 (analysis_body_raises _ _ _ _ _ _) He) as (Hn & Hu & Hr).
  destruct H as [[Hc' _]|[_ [(Hn' & _)|[(e' & He' & -> & ->)|
    (_ & a & x & _ & _ & _ & Hb & _)]]]]; try congruence.
  rewrite He in He'. injection He' as <-. done.
Qed.

(** A history after which a library error does reach the handler: two
    transactions on one edge, and a variance routine that raises. *)
Example handler_reached :
  let self := run [Record "U1" "M1" ten 0 None; Record "U1" "M1" ten 0 None] in
  analyze_merchant_risk broken_lib "M1" (Some "U1") 0 0 self =
  (self, Return (Degraded "M1" (Float.lit 5 10) ["Analysis error"] "unavailable")).
Proof. vm_compute. reflexivity. Qed.

(** The claim of C3 as stated fails: the clustering routine raises, and
    the analysis goes on to an ordinary result, with no factor and a
    score that is not 0.5. *)
Lemma clustering_error_not_degraded :
  let self := run [Record "U1" "M1" ten 0 None] in
  clustering no_clustering_lib (merchant_graph self) "M1" =
    Raise (LibraryError "clustering failed") ∧
  result_factors <$> returned (analyze_merchant_risk no_clustering_lib "M1" None 0 0 self).2
    = Some [] ∧
  result_score <$> returned (analyze_merchant_risk no_clustering_lib "M1" None 0 0 self).2
    = Some (Float.lit 1 10).
Proof. vm_compute. done. Qed.

(** ** The time to live of a cache entry *)

(** The cache check compares the [seconds] field of the entry's age, which
    starts again from zero every day, with the time to live. *)
Lemma cache_check_spec self key now :
  cache_check self key now =
  match risk_cache self !! key with
  | Some (r, t) =>
      if ((now - t) / us_per_second) mod 86400 <? 3600 then Some r else None
  | None => None
  end.
Proof. reflexivity. Qed.

(** An entry younger than an hour is served; one whose age is between an
    hour and a day is not. *)
Lemma cache_check_first_day self key now r t :
  risk_cache self !! key = Some (r, t) →
  0 ≤ now - t < seconds 86400 →
  cache_check self key now = if (now - t) <? seconds 3600 then Some r else None.
Proof.
  intros Hk Hage. unfold cache_check. rewrite Hk. unfold td_seconds, cache_ttl.
  unfold seconds, us_per_second in *.
  rewrite Z.mod_small by (Z.div_mod_to_equations; lia).
  destruct (Z.ltb_spec ((now - t) / 1000000) 3600),
           (Z.ltb_spec (now - t) (3600 * 1000000)); try done;
    Z.div_mod_to_equations; lia.
Qed.

(** C9, at an age of one day and ten seconds. An analysis is cached at
    time 0. Whatever the library answers then and later, the call made
    86410 seconds later returns the cached result and leaves the cache as
    it was: the [seconds] field of the age is 10. (At an age of 3600
    seconds the cache check does turn the entry down.) *)
Theorem day_old_cache_entry_served lib lib' :
  let self := run [Record "U1" "M1" ten 0 None] in
  let first := analyze_merchant_risk lib "M1" None 0 0 self in
  let late := seconds (86400 + 10) in
  td_seconds (late - 0) = 10 ∧
  analyze_merchant_risk lib' "M1" None late late first.1 = first ∧
  cache_check first.1 (cache_key "M1" None) (seconds 3600) = None.
Proof.
  intros self first late. split; [done|]. subst first.
  destruct (analyze_cases lib "M1" None 0 0 self) as (s2 & r & -> & _ & _ & H).
  cbn [fst].
  destruct H as [[Hc _]|[_ [(Hn' & _)|[(e & Hb & _)|
    (_ & a & x & Hr & _ & _ & _ & Hk)]]]].
  - by vm_compute in Hc.
  - by vm_compute in Hn'.
  - by apply analysis_body_raises in Hb as (_ & ? & _).
  - unfold analyze_merchant_risk, cache_check. unfold datetime in *.
    rewrite Hk, !lookup_insert_eq. done.
Qed.

(** ** Unknown merchants *)

(** When the cache does not answer, a merchant without a node gets the
    score 0.1 and the one factor "Unknown merchant"; nothing else is
    computed and the analyzer is left as it was. *)
Lemma unknown_merchant_floor lib m u now stored self :
  has_node (merchant_graph self) m = false →
  cache_check self (cache_key m u) now = None →
  analyze_merchant_risk lib m u now stored self =
    (self, Return (Analysis (mkRisk m (Float.lit 1 10) ["Unknown merchant"]
                               None None None [] []))).
Proof.
  intros Hn Hc. unfold analyze_merchant_risk, analysis_body. by rewrite Hc, Hn.
Qed.

(** Two different questions with one cache key. *)
Lemma cache_key_collision :
  cache_key "shop_user" (Some "42") = cache_key "shop" (Some "user_42").
Proof. reflexivity. Qed.

(** ** How [add_transaction_edge] changes the graph *)

Global Instance node_le_preorder : PreOrder node_le.
Proof.
  split.
  - intros d. unfold node_le. repeat split; lia.
  - intros d1 d2 d3 ([? ?] & ? & ? & ?) ([? ?] & ? & ? & ?).
    unfold node_le. repeat split; try congruence; lia.
Qed.

Global Instance edge_le_preorder : PreOrder edge_le.
Proof.
  split.
  - intros e. unfold edge_le. repeat split; [lia|done].
  - intros e1 e2 e3 (? & ? & ?) (? & ? & ?).
    unfold edge_le. repeat split; [congruence|lia|by etrans].
Qed.

Lemma node_le_refl d : node_le d d.
Proof. reflexivity. Qed.

Lemma edge_le_refl e : edge_le e e.
Proof. reflexivity. Qed.

Create HintDb graph discriminated.
#[local] Hint Resolve node_le_refl edge_le_refl : graph.

Global Instance grows_preorder : PreOrder grows.
Proof.
  split.
  - intros g. split; intros ? x ?; by exists x.
  - intros g1 g2 g3 [Hn1 He1] [Hn2 He2]. split.
    + intros n d (d' & Hd' & ?)%Hn1. apply Hn2 in Hd' as (d'' & ? & ?).
      exists d''. split; [done|by etrans].
    + intros k e (e' & He' & ?)%He1. apply He2 in He' as (e'' & ? & ?).
      exists e''. split; [done|by etrans].
Qed.

Lemma monotone_incr : monotone_update Node.incr_total_transactions.
Proof. intros d. unfold node_le; simpl. repeat split; try done; lia. Qed.

Lemma monotone_add_total_amount a : monotone_update (Node.add_total_amount a).
Proof. intros d. unfold node_le; simpl. repeat split; try done; lia. Qed.

Lemma monotone_add_peer x : monotone_update (Node.add_peer x).
Proof. intros d. unfold node_le; simpl. repeat split; try done; lia. Qed.

Lemma monotone_bump_last_seen t : monotone_update (bump_last_seen t).
Proof. intros d. unfold node_le; simpl. repeat split; try done; lia. Qed.

Lemma lookup_update_node n f g k :
  nodes (update_node n f g) !! k =
  if decide (n = k) then f <$> nodes g !! k else nodes g !! k.
Proof.
  simpl. destruct (decide (n = k)) as [->|].
  - by rewrite lookup_alter_eq.
  - by rewrite lookup_alter_ne.
Qed.

Lemma lookup_ensure_node n d g k :
  nodes (ensure_node n d g) !! k =
  match nodes g !! k with
  | Some d' => Some d'
  | None => if decide (n = k) then Some d else None
  end.
Proof.
  unfold ensure_node. destruct (has_node g n) eqn:Hn.
  - apply has_node_true in Hn as [d' Hd']. destruct (decide (n = k)) as [<-|].
    + by rewrite Hd'.
    + by destruct (nodes g !! k).
  - apply has_node_false in Hn. simpl. destruct (decide (n = k)) as [<-|].
    + by rewrite lookup_insert_eq, Hn.
    + rewrite lookup_insert_ne by done. by destruct (nodes g !! k).
Qed.

Lemma grows_ensure_node n d g : grows g (ensure_node n d g).
Proof.
  split; [|by unfold ensure_node; destruct (has_node g n); eauto with graph].
  intros k d' Hd'. exists d'. by rewrite lookup_ensure_node, Hd'.
Qed.

Lemma grows_update_node n f g : monotone_update f → grows g (update_node n f g).
Proof.
  intros Hf. split; [|by eauto with graph].
  intros k d Hd. rewrite lookup_update_node, Hd.
  destruct (decide (n = k)); simpl; eauto with graph.
Qed.

Lemma peers_add_Return k n x g g' :
  peers_add k n x g = Return g' →
  kind_of g n = Some k ∧ g' = update_node n (Node.add_peer x) g.
Proof.
  unfold peers_add, kind_of. destruct (nodes g !! n) as [d|]; [|done]; simpl.
  destruct (decide (Node.node_type d = k)) as [->|]; [|done]. by intros [= <-].
Qed.

Lemma peers_add_kind k n x g :
  kind_of g n = Some k → peers_add k n x g = Return (update_node n (Node.add_peer x) g).
Proof.
  unfold peers_add, kind_of. destruct (nodes g !! n) as [d|]; [|done]; simpl.
  intros [= <-]. by rewrite decide_True.
Qed.

Lemma grows_peers_add k n x g g' : peers_add k n x g = Return g' → grows g g'.
Proof.
  intros [_ ->]%peers_add_Return. apply grows_update_node, monotone_add_peer.
Qed.

Lemma kind_of_grows g g' n k : grows g g' → kind_of g n = Some k → kind_of g' n = Some k.
Proof.
  unfold kind_of. intros [Hn _]. destruct (nodes g !! n) as [d|] eqn:Hd; [|done].
  apply Hn in Hd as (d' & -> & [Ht _] & _). simpl. congruence.
Qed.

Lemma tz_of_grows g g' n b : grows g g' → tz_of g n = Some b → tz_of g' n = Some b.
Proof.
  unfold tz_of. intros [Hn _]. destruct (nodes g !! n) as [d|] eqn:Hd; [|done].
  apply Hn in Hd as (d' & -> & [_ Ht] & _). simpl. congruence.
Qed.

Lemma kind_of_update_node n f g k :
  monotone_update f → kind_of (update_node n f g) k = kind_of g k.
Proof.
  intros Hf. unfold kind_of. rewrite lookup_update_node.
  destruct (decide (n = k)); [|done]. destruct (nodes g !! k) as [d|]; [|done].
  simpl. f_equal. apply Hf.
Qed.

Lemma tz_of_update_node n f g k :
  monotone_update f → tz_of (update_node n f g) k = tz_of g k.
Proof.
  intros Hf. unfold tz_of. rewrite lookup_update_node.
  destruct (decide (n = k)); [|done]. destruct (nodes g !! k) as [d|]; [|done].
  simpl. f_equal. apply Hf.
Qed.

Lemma tz_of_ensure_node n d g k :
  tz_of (ensure_node n d g) k =
  match tz_of g k with
  | Some x => Some x
  | None => if decide (n = k) then Some (Node.tz_aware d) else None
  end.
Proof.
  unfold tz_of. rewrite lookup_ensure_node.
  destruct (nodes g !! k); [done|]. by destruct (decide (n = k)).
Qed.

Lemma kind_of_ensure_node n d g k :
  kind_of (ensure_node n d g) k =
  match kind_of g k with
  | Some x => Some x
  | None => if decide (n = k) then Some (Node.node_type d) else None
  end.
Proof.
  unfold kind_of. rewrite lookup_ensure_node.
  destruct (nodes g !! k); [done|]. by destruct (decide (n = k)).
Qed.

(** *** The edge *)

Lemma edges_add_or_update_edge u m a t g g' :
  edges g = edges g' →
  edges (add_or_update_edge u m a t g) = edges (add_or_update_edge u m a t g').
Proof.
  intros H. unfold add_or_update_edge, has_edge, get_edge, edge_key.
  rewrite H. by destruct (bool_decide _).
Qed.

Lemma edge_le_record a t e : edge_le e (Edge.record a t e).
Proof. unfold edge_le; simpl. repeat split; [lia|]. by apply prefix_app_r. Qed.

Lemma grows_add_or_update_edge u m a t g : grows g (add_or_update_edge u m a t g).
Proof.
  unfold add_or_update_edge. destruct (has_edge g u m) eqn:He.
  - split; [by eauto with graph|]. simpl. intros k e Hk.
    destruct (decide (edge_key g u m = k)) as [<-|].
    + rewrite lookup_alter_eq, Hk. simpl. eauto using edge_le_record with graph.
    + rewrite lookup_alter_ne by done. eauto with graph.
  - split; [by eauto with graph|]. simpl. intros k e Hk.
    destruct (decide ((u, m) = k)) as [<-|].
    + apply bool_decide_eq_false in He. exfalso. apply He.
      unfold get_edge. rewrite Hk. eauto with graph.
    + rewrite lookup_insert_ne by done. eauto with graph.
Qed.

#[local] Hint Resolve monotone_incr monotone_add_total_amount monotone_add_peer
  monotone_bump_last_seen grows_ensure_node grows_update_node
  grows_add_or_update_edge : graph.

(** *** The call as a whole *)

Lemma grows_after_merchant_totals u m a t g : grows g (after_merchant_totals u m a t g).
Proof.
  unfold after_merchant_totals.
  etrans; [|apply grows_update_node, monotone_add_total_amount].
  etrans; [|apply grows_update_node, monotone_incr].
  etrans; [|apply grows_ensure_node]. apply grows_ensure_node.
Qed.

Lemma grows_after_merchant_peer u m a t g : grows g (after_merchant_peer u m a t g).
Proof.
  unfold after_merchant_peer.
  etrans; [|apply grows_update_node, monotone_add_peer].
  apply grows_after_merchant_totals.
Qed.

Lemma grows_after_user_totals u m a t g : grows g (after_user_totals u m a t g).
Proof.
  unfold after_user_totals.
  etrans; [|apply grows_update_node, monotone_add_total_amount].
  etrans; [|apply grows_update_node, monotone_incr].
  etrans; [|apply grows_update_node, monotone_bump_last_seen].
  apply grows_after_merchant_peer.
Qed.

Lemma grows_after_user_peer u m a t g : grows g (after_user_peer u m a t g).
Proof.
  unfold after_user_peer.
  etrans; [|apply grows_update_node, monotone_add_peer].
  apply grows_after_user_totals.
Qed.

Lemma grows_after_add u m a t g : grows g (after_add u m a t g).
Proof.
  unfold after_add.
  etrans; [|apply grows_add_or_update_edge].
  etrans; [|apply grows_update_node, monotone_bump_last_seen].
  apply grows_after_user_peer.
Qed.

Lemma kind_of_after_merchant_totals u m a t g k :
  kind_of (after_merchant_totals u m a t g) k =
  match kind_of g k with
  | Some x => Some x
  | None => if decide (m = k) then Some Merchant
            else if decide (u = k) then Some User else None
  end.
Proof.
  unfold after_merchant_totals.
  rewrite !kind_of_update_node, !kind_of_ensure_node by eauto with graph.
  destruct (kind_of g k); [done|]. by destruct (decide (m = k)).
Qed.

Lemma kind_of_after_merchant_peer u m a t g k :
  kind_of (after_merchant_peer u m a t g) k = kind_of (after_merchant_totals u m a t g) k.
Proof. unfold after_merchant_peer. by rewrite kind_of_update_node by eauto with graph. Qed.

Lemma kind_of_after_user_totals u m a t g k :
  kind_of (after_user_totals u m a t g) k = kind_of (after_merchant_totals u m a t g) k.
Proof.
  unfold after_user_totals. rewrite !kind_of_update_node by eauto with graph.
  apply kind_of_after_merchant_peer.
Qed.

Lemma kind_of_after_user_peer u m a t g k :
  kind_of (after_user_peer u m a t g) k = kind_of (after_merchant_totals u m a t g) k.
Proof.
  unfold after_user_peer. rewrite kind_of_update_node by eauto with graph.
  apply kind_of_after_user_totals.
Qed.

(** Whether the datetimes of a node are aware, after the nodes were made
    sure of: a new node is as the timestamp is. *)
Lemma tz_of_after_merchant_totals u m a t g k :
  tz_of (after_merchant_totals u m a t g) k =
  match tz_of g k with
  | Some x => Some x
  | None => if decide (m = k) then Some (aware t)
            else if decide (u = k) then Some (aware t) else None
  end.
Proof.
  unfold after_merchant_totals.
  rewrite !tz_of_update_node, !tz_of_ensure_node by eauto with graph.
  destruct (tz_of g k); [done|]. by destruct (decide (m = k)).
Qed.

Lemma tz_of_after_merchant_peer u m a t g k :
  tz_of (after_merchant_peer u m a t g) k = tz_of (after_merchant_totals u m a t g) k.
Proof. unfold after_merchant_peer. by rewrite tz_of_update_node by eauto with graph. Qed.

Lemma tz_of_after_user_peer u m a t g k :
  tz_of (after_user_peer u m a t g) k = tz_of (after_merchant_totals u m a t g) k.
Proof.
  unfold after_user_peer, after_user_totals.
  rewrite !tz_of_update_node by eauto with graph. apply tz_of_after_merchant_peer.
Qed.

Lemma comparable_after_merchant_totals u m a t g k :
  comparable (after_merchant_totals u m a t g) k t ↔ comparable g k t.
Proof.
  unfold comparable. rewrite tz_of_after_merchant_totals.
  destruct (tz_of g k); [done|].
  split; [done|]. intros _. repeat case_decide; try done; by destruct (aware t).
Qed.

(** [last_seen = max(last_seen, timestamp)] on a node of the graph. *)
Lemma last_seen_max_cases n t g :
  is_Some (nodes g !! n) →
  (comparable g n t ∧ last_seen_max n t g = Return (update_node n (bump_last_seen t) g)) ∨
  (¬ comparable g n t ∧
   last_seen_max n t g =
     Raise (TypeError "can't compare offset-naive and offset-aware datetimes")).
Proof.
  intros [d Hd]. unfold last_seen_max, comparable, tz_of, max_last_seen.
  rewrite Hd. cbn [fmap option_fmap option_map].
  case_bool_decide as Ht; cbn [mbind outcome_bind].
  - left. split; [rewrite Ht; by destruct (aware t)|]. f_equal.
    unfold update_node. f_equal. apply alter_ext. intros d' Hd'.
    rewrite Hd in Hd'. by injection Hd' as <-.
  - right. split; [|done]. intros H. apply H. f_equal.
    by destruct (Node.tz_aware d), (aware t).
Qed.

(** The five ways the call can end. *)
Lemma add_cases u m a t md self :
  let g := merchant_graph self in
  (kind_of (after_merchant_totals u m a t g) m ≠ Some Merchant ∧
   add_transaction_edge u m a t md self =
     (set_graph (after_merchant_totals u m a t g) self,
      Raise (KeyError "unique_customers"))) ∨
  (kind_of (after_merchant_totals u m a t g) m = Some Merchant ∧
   ¬ comparable g m t ∧
   add_transaction_edge u m a t md self =
     (set_graph (after_merchant_peer u m a t g) self,
      Raise (TypeError "can't compare offset-naive and offset-aware datetimes"))) ∨
  (kind_of (after_merchant_totals u m a t g) m = Some Merchant ∧
   comparable g m t ∧
   kind_of (after_merchant_totals u m a t g) u ≠ Some User ∧
   add_transaction_edge u m a t md self =
     (set_graph (after_user_totals u m a t g) self,
      Raise (KeyError "unique_merchants"))) ∨
  (kind_of (after_merchant_totals u m a t g) m = Some Merchant ∧
   comparable g m t ∧
   kind_of (after_merchant_totals u m a t g) u = Some User ∧
   ¬ comparable g u t ∧
   add_transaction_edge u m a t md self =
     (set_graph (after_user_peer u m a t g) self,
      Raise (TypeError "can't compare offset-naive and offset-aware datetimes"))) ∨
  (kind_of (after_merchant_totals u m a t g) m = Some Merchant ∧
   kind_of (after_merchant_totals u m a t g) u = Some User ∧
   comparable g m t ∧ comparable g u t ∧
   add_transaction_edge u m a t md self =
     (mkAnalyzer (after_add u m a t g)
        (di_add_edge u m (Arc.mk a (instant t) (default ∅ md)) (transaction_graph self))
        (_invalidate_cache m u (risk_cache self)),
      Return ())).
Proof.
  intros g. unfold add_transaction_edge. fold g.
  change (update_node m (Node.add_total_amount a) _)
    with (after_merchant_totals u m a t g).
  assert (is_Some (kind_of (after_merchant_totals u m a t g) m)) as [km Hkm].
  { rewrite kind_of_after_merchant_totals. destruct (kind_of g m); [eauto|].
    rewrite decide_True by done. eauto. }
  assert (is_Some (kind_of (after_merchant_totals u m a t g) u)) as [ku Hku].
  { rewrite kind_of_after_merchant_totals. destruct (kind_of g u); [eauto|].
    destruct (decide (m = u)); [eauto|]. rewrite decide_True by done. eauto. }
  destruct km.
  2:{ left. split; [congruence|]. unfold peers_add. unfold kind_of in Hkm.
      destruct (nodes _ !! m) as [d|]; [|done]. simpl in Hkm.
      injection Hkm as Hkm. rewrite decide_False by congruence. done. }
  right. rewrite (peers_add_kind _ _ _ _ Hkm).
  change (update_node m (Node.add_peer u) _) with (after_merchant_peer u m a t g).
  destruct (last_seen_max_cases m t (after_merchant_peer u m a t g)) as [[Hcm ->]|[Hcm ->]].
  { pose proof (kind_of_after_merchant_peer u m a t g m) as H. rewrite Hkm in H.
    unfold kind_of in H. by destruct (nodes _ !! m). }
  2:{ left. split; [done|]. split; [|done]. intros H. apply Hcm.
      unfold comparable. rewrite tz_of_after_merchant_peer.
      by apply comparable_after_merchant_totals. }
  assert (comparable g m t) as Hcm'.
  { apply (comparable_after_merchant_totals u m a). unfold comparable in *.
    by rewrite <- tz_of_after_merchant_peer. }
  right.
  change (update_node u (Node.add_total_amount a) _)
    with (after_user_totals u m a t g).
  pose proof (kind_of_after_user_totals u m a t g u) as Hku'. rewrite Hku in Hku'.
  destruct ku.
  { left. do 2 (split; [done|]). split; [congruence|]. unfold peers_add.
    unfold kind_of in Hku'.
    destruct (nodes _ !! u) as [d|]; [|done]. simpl in Hku'.
    injection Hku' as Hku'. rewrite decide_False by congruence. done. }
  right. rewrite (peers_add_kind _ _ _ _ Hku').
  change (update_node u (Node.add_peer m) _) with (after_user_peer u m a t g).
  destruct (last_seen_max_cases u t (after_user_peer u m a t g)) as [[Hcu ->]|[Hcu ->]].
  { pose proof (kind_of_after_user_peer u m a t g u) as H. rewrite Hku in H.
    unfold kind_of in H. by destruct (nodes _ !! u). }
  2:{ left. do 3 (split; [done|]). split; [|done]. intros H. apply Hcu.
      unfold comparable. rewrite tz_of_after_user_peer.
      by apply comparable_after_merchant_totals. }
  right. do 3 (split; [done|]). split; [|done].
  apply (comparable_after_merchant_totals u m a). unfold comparable in *.
  by rewrite <- tz_of_after_user_peer.
Qed.

#[local] Hint Resolve grows_after_merchant_totals grows_after_merchant_peer
  grows_after_user_totals grows_after_user_peer grows_after_add : graph.

Lemma add_grows u m a t md self :
  grows (merchant_graph self) (merchant_graph (add_transaction_edge u m a t md self).1).
Proof.
  destruct (add_cases u m a t md self)
    as [[_ ->]|[(_ & _ & ->)|[(_ & _ & _ & ->)|[(_ & _ & _ & _ & ->)|(_ & _ & _ & _ & ->)]]]];
    simpl; eauto with graph.
Qed.

Lemma add_returns_iff u m a t md self :
  (add_transaction_edge u m a t md self).2 = Return () ↔
  roles_fit (merchant_graph self) u m ∧ times_fit (merchant_graph self) u m t.
Proof.
  unfold roles_fit, times_fit.
  destruct (add_cases u m a t md self)
    as [[Hm ->]|[(Hm & Hc & ->)|[(Hm & Hc & Hu & ->)|[(Hm & Hc & Hu & Hc' & ->)|
        (Hm & Hu & Hc & Hc' & ->)]]]];
    simpl; rewrite !kind_of_after_merchant_totals in *.
  - split; [done|]. intros ((_ & Hm' & _) & _). exfalso.
    destruct (kind_of (merchant_graph self) m) as [[]|]; try done.
    by rewrite decide_True in Hm.
  - split; [done|]. by intros (_ & ? & _).
  - split; [done|]. intros ((Hne & _ & Hu') & _). exfalso.
    destruct (kind_of (merchant_graph self) u) as [[]|]; try done.
    rewrite decide_False, decide_True in Hu by done. done.
  - split; [done|]. by intros (_ & _ & ?).
  - split; [|done]. intros _. split; [|done].
    destruct (decide (u = m)) as [->|Hne].
    { destruct (kind_of (merchant_graph self) m); [congruence|].
      rewrite decide_True in Hu by done. done. }
    split; [done|]. split; intros H; rewrite H in *; done.
Qed.

(** What a call that returns leaves. *)
Lemma add_Return u m a t md self :
  (add_transaction_edge u m a t md self).2 = Return () →
  kind_of (after_merchant_totals u m a t (merchant_graph self)) m = Some Merchant ∧
  kind_of (after_merchant_totals u m a t (merchant_graph self)) u = Some User ∧
  add_transaction_edge u m a t md self =
    (mkAnalyzer (after_add u m a t (merchant_graph self))
       (di_add_edge u m (Arc.mk a (instant t) (default ∅ md)) (transaction_graph self))
       (_invalidate_cache m u (risk_cache self)),
     Return ()).
Proof.
  intros Hret.
  destruct (add_cases u m a t md self)
    as [[_ H]|[(_ & _ & H)|[(_ & _ & _ & H)|[(_ & _ & _ & _ & H)|(? & ? & _ & _ & H)]]]];
    rewrite H in Hret |- *; done.
Qed.

(** The way the call ends depends on the identities, the timestamp and
    the graph only. *)
Lemma add_outcome u m a t md self :
  (add_transaction_edge u m a t md self).2 = call_end (merchant_graph self) u m t.
Proof.
  unfold call_end.
  destruct (add_cases u m a t md self)
    as [[Hm ->]|[(Hm & Hc & ->)|[(Hm & Hc & Hu & ->)|[(Hm & Hc & Hu & Hc' & ->)|
        (Hm & Hu & Hc & Hc' & ->)]]]];
    cbn [snd]; rewrite !kind_of_after_merchant_totals in *.
  - rewrite decide_True; [done|].
    destruct (kind_of (merchant_graph self) m) as [[]|]; try done.
    by rewrite decide_True in Hm.
  - rewrite decide_False, (decide_False (P := comparable _ m t)); [done|done|].
    intros H. by rewrite H in Hm.
  - rewrite decide_False, (decide_True (P := comparable _ m t)), decide_True; [done| |done|].
    + destruct (decide (u = m)) as [|Hne]; [by left|right].
      destruct (kind_of (merchant_graph self) u) as [[]|]; try done.
      rewrite decide_False, decide_True in Hu by done. done.
    + intros H. by rewrite H in Hm.
  - assert (u ≠ m) as Hne.
    { intros ->. congruence. }
    rewrite decide_False, (decide_True (P := comparable _ m t)), decide_False,
      (decide_False (P := comparable _ u t)); [done|done| |done|].
    + intros [?|H]; [done|]. by rewrite H in Hu.
    + intros H. by rewrite H in Hm.
  - assert (u ≠ m) as Hne.
    { intros ->. congruence. }
    rewrite decide_False, (decide_True (P := comparable _ m t)), decide_False,
      (decide_True (P := comparable _ u t)); [done|done| |done|].
    + intros [?|H]; [done|]. by rewrite H in Hu.
    + intros H. by rewrite H in Hm.
Qed.

(** The edge between the two identities after the if/else. *)
Lemma get_edge_add_or_update_edge u m a t g :
  get_edge (add_or_update_edge u m a t g) u m =
  Some match get_edge g u m with
       | Some e => Edge.record a t e
       | None => Edge.fresh a t
       end.
Proof.
  unfold add_or_update_edge, has_edge.
  destruct (get_edge g u m) as [e|] eqn:He.
  - rewrite bool_decide_eq_true_2 by eauto.
    revert He. unfold get_edge, edge_key. cbn [edges].
    destruct (edges g !! (u, m)) as [e'|] eqn:Hum.
    + intros [= ->]. by rewrite lookup_alter_eq, Hum.
    + intros He. rewrite He.
      destruct (decide ((m, u) = (u, m))) as [Heq|Hne].
      * rewrite <- Heq, lookup_alter_eq, He. done.
      * rewrite lookup_alter_ne by done. by rewrite Hum, lookup_alter_eq, He.
  - rewrite bool_decide_eq_false_2 by (by intros [? ?]).
    unfold get_edge. cbn [edges]. by rewrite lookup_insert_eq.
Qed.



(** A call with a finite, positive amount that fails: the identity of the
    user is also the identity of the merchant. *)
Example same_identity_raises :
  (add_transaction_edge "A" "A" ten 0 None init).2 = Raise (KeyError "unique_merchants").
Proof. vm_compute. reflexivity. Qed.

(** ** Sums of amounts *)

Lemma fsum_snoc xs x : xs ≠ [] → fsum (xs ++ [x]) = Float.add (fsum xs) x.
Proof. destruct xs as [|y ys]; [done|]. intros _. simpl. by rewrite fold_left_app. Qed.

Lemma float_eqb_refl (x : float) : Float.is_nan x = false → Float.eqb x x = true.
Proof.
  unfold Float.eqb, SFeqb. destruct x as [s|s| |s p e]; try done; simpl.
  - by destruct s.
  - rewrite Z.compare_refl, Pos.compare_cont_refl. by destruct s.
Qed.

Lemma same_up_to_zero_sign_add x x' y :
  same_up_to_zero_sign x x' → same_up_to_zero_sign (Float.add x y) (Float.add x' y).
Proof.
  intros [->|[-> ->]]; [by left|].
  destruct y as [[]|s| |s p e]; simpl; (by left) || (by right).
Qed.

Lemma same_up_to_zero_sign_fold xs x x' :
  same_up_to_zero_sign x x' →
  same_up_to_zero_sign (fold_left Float.add xs x) (fold_left Float.add xs x').
Proof.
  revert x x'. induction xs as [|y ys IH]; intros x x' H; [done|].
  simpl. by apply IH, same_up_to_zero_sign_add.
Qed.

(** Python's [==] between the accumulated total and the amounts added up
    from zero holds unless the total is not a number. *)
Lemma fsum_sum_from_zero xs :
  Float.is_nan (fsum xs) = false → Float.eqb (fsum xs) (Float.sum_from_zero xs) = true.
Proof.
  intros Hn. destruct xs as [|x xs]; [done|].
  assert (same_up_to_zero_sign (fsum (x :: xs)) (Float.sum_from_zero (x :: xs))) as [<-|[H1 H2]].
  { unfold Float.sum_from_zero; simpl. apply same_up_to_zero_sign_fold.
    destruct x as [[]|s| |s p e]; (by left) || (by right). }
  - by apply float_eqb_refl.
  - by rewrite H1, H2.
Qed.

(** ** Amounts that are not negative *)

Lemma shr_1_nonneg mrs : 0 ≤ shr_m mrs → 0 ≤ shr_m (shr_1 mrs).
Proof. destruct mrs as [[|[p|p|]|[p|p|]] r s]; simpl; lia. Qed.

Lemma iter_pos_shr_1_nonneg p mrs :
  0 ≤ shr_m mrs → 0 ≤ shr_m (SpecFloat.iter_pos shr_1 p mrs).
Proof.
  revert mrs. induction p as [p IH|p IH|]; intros mrs H; simpl.
  - by apply IH, IH, shr_1_nonneg.
  - by apply IH, IH.
  - by apply shr_1_nonneg.
Qed.

Lemma shr_fexp_nonneg m e l :
  0 ≤ m → 0 ≤ shr_m (shr_fexp Float.prec Float.emax m e l).1.
Proof.
  intros Hm. unfold shr_fexp, shr.
  assert (0 ≤ shr_m (shr_record_of_loc m l)) by (by destruct l as [|[]]).
  destruct (_ - e); simpl; [done| |done]. by apply iter_pos_shr_1_nonneg.
Qed.

Lemma round_nearest_even_nonneg m l : 0 ≤ m → 0 ≤ round_nearest_even m l.
Proof.
  intros Hm. destruct l as [|[]]; simpl; try lia. destruct (Z.even m); lia.
Qed.

Lemma binary_round_aux_nonneg m e l :
  0 ≤ m → nonneg (binary_round_aux Float.prec Float.emax false m e l) = true.
Proof.
  intros Hm. unfold binary_round_aux.
  pose proof (shr_fexp_nonneg m e l Hm) as H1.
  destruct (shr_fexp Float.prec Float.emax m e l) as [mrs' e'].
  pose proof (shr_fexp_nonneg _ e' loc_Exact
                (round_nearest_even_nonneg _ (loc_of_shr_record mrs') H1)) as H2.
  destruct (shr_fexp _ _ (round_nearest_even _ _) e' loc_Exact) as [mrs'' e''].
  simpl in H2. destruct (shr_m mrs''); [done| |lia]. by destruct (_ <=? _).
Qed.

Lemma add_nonneg x y : nonneg x = true → nonneg y = true → nonneg (Float.add x y) = true.
Proof.
  destruct x as [sx|[]| |[] mx ex], y as [sy|[]| |[] my ey]; try done.
  - by destruct sx, sy.
  - intros _ _. unfold Float.add, SFadd, cond_Zopp, binary_normalize.
    destruct (shl_align mx _ _) as [m1 e1], (shl_align my _ _) as [m2 e2].
    cbn [fst]. change (Z.pos m1 + Z.pos m2) with (Z.pos (m1 + m2)). unfold binary_round.
    destruct (shl_align _ _ _) as [mz ez]. by apply binary_round_aux_nonneg.
Qed.

Lemma fsum_nonneg xs : Forall (λ x, nonneg x = true) xs → nonneg (fsum xs) = true.
Proof.
  destruct xs as [|x xs]; [done|]. intros [Hx Hxs]%Forall_cons. simpl.
  revert x Hx. induction Hxs as [|y ys Hy _ IH]; intros x Hx; [done|].
  simpl. by apply IH, add_nonneg.
Qed.

Lemma nonneg_not_nan x : nonneg x = true → Float.is_nan x = false.
Proof. by destruct x. Qed.

(** For amounts that are not negative, Python's [==] between the sum the
    edge accumulates and the amounts added up from zero holds. *)
Lemma fsum_sum_from_zero_nonneg xs :
  Forall (λ x, nonneg x = true) xs → Float.eqb (fsum xs) (Float.sum_from_zero xs) = true.
Proof. intros H. by apply fsum_sum_from_zero, nonneg_not_nan, fsum_nonneg. Qed.

(** ** The amounts recorded on an edge *)

Lemma recorded_from_app self u m cs cs' :
  recorded_from self u m (cs ++ cs') =
  recorded_from self u m cs ++ recorded_from (fold_left step cs self) u m cs'.
Proof.
  revert self. induction cs as [|c cs IH]; intros self; [done|].
  simpl. by rewrite IH, app_assoc.
Qed.

Lemma recorded_snoc u m cs c :
  recorded u m (cs ++ [c]) = recorded u m cs ++ recorded_step u m (run cs) c.
Proof. unfold recorded. rewrite recorded_from_app. simpl. by rewrite app_nil_r. Qed.

Lemma edge_sound_fresh a t : edge_sound (Edge.fresh a t).
Proof. by unfold edge_sound. Qed.

Lemma edge_sound_record a t e : edge_sound e → edge_sound (Edge.record a t e).
Proof.
  intros (Hne & Hc & Ht). unfold edge_sound; simpl. split; [|split].
  - by destruct (Edge.amounts e).
  - rewrite length_app; simpl. lia.
  - by rewrite fsum_snoc, Ht.
Qed.

Lemma edges_after_merchant_totals u m a t g :
  edges (after_merchant_totals u m a t g) = edges g.
Proof.
  unfold after_merchant_totals, ensure_node; simpl.
  by destruct (has_node _ u), (has_node g m).
Qed.

Lemma edges_after_merchant_peer u m a t g :
  edges (after_merchant_peer u m a t g) = edges g.
Proof. unfold after_merchant_peer. cbn [update_node edges]. apply edges_after_merchant_totals. Qed.

Lemma edges_after_user_totals u m a t g :
  edges (after_user_totals u m a t g) = edges g.
Proof. unfold after_user_totals. cbn [update_node edges]. apply edges_after_merchant_peer. Qed.

Lemma edges_after_user_peer u m a t g :
  edges (after_user_peer u m a t g) = edges g.
Proof. unfold after_user_peer. cbn [update_node edges]. apply edges_after_user_totals. Qed.

Lemma nodes_add_or_update_edge u m a t g : nodes (add_or_update_edge u m a t g) = nodes g.
Proof. unfold add_or_update_edge. by destruct (has_edge g u m). Qed.

(** The edges a call that returns leaves, when no edge is stored under
    the reversed pair. *)
Lemma lookup_edges_after_add u m a t g k :
  edges g !! (m, u) = None →
  edges (after_add u m a t g) !! k =
  if decide (k = (u, m))
  then Some match edges g !! (u, m) with
            | Some e => Edge.record a t e
            | None => Edge.fresh a t
            end
  else edges g !! k.
Proof.
  intros Hmu. unfold after_add.
  rewrite (edges_add_or_update_edge u m a t _ g) by apply edges_after_user_totals.
  unfold add_or_update_edge, has_edge, get_edge, edge_key.
  destruct (edges g !! (u, m)) as [e|] eqn:Hum.
  - rewrite bool_decide_eq_true_2 by eauto. cbn [edges].
    destruct (decide (k = (u, m))) as [->|].
    + by rewrite lookup_alter_eq, Hum.
    + by rewrite lookup_alter_ne.
  - rewrite Hmu, bool_decide_eq_false_2 by (by intros [? ?]). cbn [edges].
    destruct (decide (k = (u, m))) as [->|].
    + by rewrite lookup_insert_eq.
    + by rewrite lookup_insert_ne.
Qed.

Lemma kind_of_after_add u m a t g k :
  kind_of (after_add u m a t g) k = kind_of (after_merchant_totals u m a t g) k.
Proof.
  unfold after_add, kind_of at 1. rewrite nodes_add_or_update_edge.
  fold (kind_of (update_node u (bump_last_seen t)
                   (update_node u (Node.add_peer m) (after_user_totals u m a t g))) k).
  rewrite !kind_of_update_node by eauto using monotone_bump_last_seen, monotone_add_peer.
  apply kind_of_after_user_totals.
Qed.

Lemma analyze_graph lib m u now stored self :
  merchant_graph (analyze_merchant_risk lib m u now stored self).1 = merchant_graph self.
Proof.
  by destruct (analyze_cases lib m u now stored self) as (s' & r & -> & ? & _).
Qed.

Lemma run_ledger cs : ledger cs.
Proof.
  induction cs as [|c cs IH] using rev_ind.
  { intros a b.
    change (edges (merchant_graph (run []))) with (∅ : gmap (string * string) Edge.t).
    by rewrite lookup_empty. }
  unfold ledger in *. rewrite run_snoc. intros x y. rewrite recorded_snoc.
  destruct c as [u m a t md|lib m u now stored]; cbn [step recorded_step].
  2:{ rewrite analyze_graph, app_nil_r. apply IH. }
  pose proof (add_grows u m a t md (run cs)) as Hgrow.
  pose proof (add_returns_iff u m a t md (run cs)) as Hret.
  assert (∀ e, edges (merchant_graph (run cs)) !! (x, y) = Some e →
               kind_of (merchant_graph (add_transaction_edge u m a t md (run cs)).1) x
                 = Some User ∧
               kind_of (merchant_graph (add_transaction_edge u m a t md (run cs)).1) y
                 = Some Merchant ∧
               edge_sound e ∧ Edge.amounts e = recorded x y cs) as Hold.
  { intros e He. specialize (IH x y). rewrite He in IH.
    destruct IH as (? & ? & ? & ?).
    do 2 (split; [by eapply kind_of_grows|]). done. }
  destruct (add_cases u m a t md (run cs))
    as [[_ H]|[(_ & _ & H)|[(_ & _ & _ & H)|[(_ & _ & _ & _ & H)|(Hm & Hu & _ & _ & H)]]]];
    rewrite H in *; cbn [fst snd merchant_graph set_graph] in *.
  - rewrite edges_after_merchant_totals. case_bool_decide; rewrite app_nil_r.
    all: specialize (IH x y); destruct (edges _ !! (x, y)); [by apply Hold|done].
  - rewrite edges_after_merchant_peer. case_bool_decide; rewrite app_nil_r.
    all: specialize (IH x y); destruct (edges _ !! (x, y)); [by apply Hold|done].
  - rewrite edges_after_user_totals. case_bool_decide; rewrite app_nil_r.
    all: specialize (IH x y); destruct (edges _ !! (x, y)); [by apply Hold|done].
  - rewrite edges_after_user_peer. case_bool_decide; rewrite app_nil_r.
    all: specialize (IH x y); destruct (edges _ !! (x, y)); [by apply Hold|done].
  - assert (edges (merchant_graph (run cs)) !! (m, u) = None) as Hmu.
    { pose proof (IH m u) as Hx. destruct (edges _ !! (m, u)); [|done].
      destruct Hx as (Hx & _). destruct Hret as [((_ & Hf & _) & _) _]; [done|]. done. }
    rewrite lookup_edges_after_add by done.
    rewrite <- !kind_of_after_add in Hm, Hu.
    destruct (decide ((x, y) = (u, m))) as [[= -> ->]|Hne].
    + rewrite bool_decide_eq_true_2 by done.
      do 2 (split; [done|]). specialize (IH u m).
      destruct (edges _ !! (u, m)) as [e|].
      * destruct IH as (_ & _ & ? & <-). split; [by apply edge_sound_record|done].
      * rewrite IH. split; [apply edge_sound_fresh|done].
    + rewrite bool_decide_eq_false_2, app_nil_r by (intros [-> ->]; done).
      specialize (IH x y). destruct (edges _ !! (x, y)); [by apply Hold|done].
Qed.

(** Three calls for one pair: the count is 3 and the total is the sum
    0.1 + 0.2 + 0.3 as binary64 gives it, 0.6000000000000001. *)
Example three_amounts :
  let cs := same_pair "U1" "M1"
              [(Float.lit 1 10, naive 0, None); (Float.lit 2 10, naive 0, None);
               (Float.lit 3 10, naive 0, None)] in
  Edge.transaction_count <$> get_edge (merchant_graph (run cs)) "U1" "M1" = Some 3%nat ∧
  Edge.total_amount <$> get_edge (merchant_graph (run cs)) "U1" "M1"
    = Some (S754_finite false 5404319552844596 (-53)).
Proof. vm_compute. done. Qed.

(** ** The times of a node *)






(** C7, for two transactions that arrive out of order. After a
    transaction stamped 10 s and then one stamped 5 s, [first_seen] of the
    merchant (and of the user) is still 10 s, not the minimum 5 s;
    [last_seen] is the maximum 10 s. *)
Theorem first_seen_not_the_minimum :
  let self := run [Record "U1" "M1" ten (seconds 10) None;
                   Record "U1" "M1" ten (seconds 5) None] in
  Node.first_seen <$> nodes (merchant_graph self) !! "M1" = Some (seconds 10) ∧
  Node.first_seen <$> nodes (merchant_graph self) !! "U1" = Some (seconds 10) ∧
  Node.last_seen <$> nodes (merchant_graph self) !! "M1" = Some (seconds 10) ∧
  Z.min (seconds 10) (seconds 5) = seconds 5.
Proof. vm_compute. done. Qed.

(** ** Velocity *)

Lemma SFcompare_antisym (a b : float) : SFcompare b a = CompOpp <$> SFcompare a b.
Proof.
  destruct a as [[]|[]| |[] m1 e1], b as [[]|[]| |[] m2 e2]; try done; simpl;
    rewrite (Z.compare_antisym e1 e2); destruct (e1 ?= e2); simpl; try done;
    by rewrite ?CompOpp_involutive, ?Pos.compare_cont_antisym.
Qed.

Lemma leb_not_ltb (a b : float) : Float.leb a b = true → Float.ltb b a = false.
Proof.
  unfold Float.leb, Float.ltb, SFleb, SFltb. rewrite (SFcompare_antisym a b).
  by destruct (SFcompare a b) as [[]|].
Qed.

Lemma eqb_zero (x : float) : Float.eqb x Float.zero = true → ∃ s, x = S754_zero s.
Proof. destruct x as [s|[]| |[] p e]; try done. eauto. Qed.

Lemma leb_one_not_zero (x : float) :
  Float.leb Float.one x = true → Float.eqb x Float.zero = false.
Proof. by destruct x as [[]|[]| |[] p e]. Qed.

(** The divisor is never zero. *)
Lemma velocity_time_span_nonzero d : Float.eqb (velocity_time_span d) Float.zero = false.
Proof.
  unfold velocity_time_span.
  by destruct (Float.eqb (span_hours d) Float.zero) eqn:H.
Qed.

(** What [_analyze_velocity] computes for a merchant node with at least
    one transaction. *)
Lemma velocity_body_returns lib g m d :
  nodes g !! m = Some d →
  Node.node_type d = Merchant →
  Node.total_transactions d ≠ 0%nat →
  ∃ s, velocity_body lib g m = Return s ∧
       metric "transactions_per_hour" (metrics s) =
         Some (PyFloat (Float.div (Float.of_Z (Z.of_nat (Node.total_transactions d)))
                                  (velocity_time_span d))).
Proof.
  intros Hd Ht Hn. unfold velocity_body.
  rewrite (proj2 (has_node_true g m)) by eauto. unfold node_data. rewrite Hd.
  cbn [negb mbind outcome_bind]. unfold int_div_float, py_div.
  rewrite velocity_time_span_nonzero. cbn [mbind outcome_bind].
  unfold node_peers. rewrite decide_True by done. cbn [mbind outcome_bind].
  unfold float_div_int, int_true_div.
  destruct (Z.eqb_spec (Z.of_nat (Node.total_transactions d)) 0) as [|_]; [lia|].
  cbn [mbind outcome_bind].
  repeat match goal with
         | |- context [if ?c then (_, _) else (_, _)] => destruct c
         end; eexists; (split; [reflexivity|done]).
Qed.

(** C8, as the code has it. For a merchant node with at least one
    transaction, [transactions_per_hour] is the transaction count divided
    by the time span in hours, the divisor replaced by 1 only when the
    span is exactly zero; this is the formula of the specification,
    count / max(span, 1), when the span is zero or at least one hour. *)
Theorem velocity_transactions_per_hour lib g m d :
  nodes g !! m = Some d →
  Node.node_type d = Merchant →
  Node.total_transactions d ≠ 0%nat →
  let count := Float.of_Z (Z.of_nat (Node.total_transactions d)) in
  let time_span_hours := span_hours d in
  let divisor :=
    if Float.eqb time_span_hours Float.zero then Float.one else time_span_hours in
  metric "transactions_per_hour" (metrics (_analyze_velocity lib g m))
    = Some (PyFloat (Float.div count divisor)) ∧
  (Float.eqb time_span_hours Float.zero = true ∨
   Float.leb Float.one time_span_hours = true →
   Float.div count divisor = spec_transactions_per_hour d).
Proof.
  intros Hd Ht Hn count time_span_hours divisor. split.
  - destruct (velocity_body_returns lib g m d Hd Ht Hn) as (s & Hs & Hm).
    unfold _analyze_velocity. rewrite Hs. exact Hm.
  - unfold spec_transactions_per_hour, divisor, Float.py_max. fold time_span_hours count.
    intros [H|H].
    + rewrite H. apply eqb_zero in H as [s ->]. by destruct s.
    + rewrite (leb_one_not_zero _ H), (leb_not_ltb _ _ H). done.
Qed.

Lemma velocity_transactions_per_hour_witness :
  let g := merchant_graph (run [Record "U1" "M1" ten 0 None;
                                Record "U2" "M1" ten (seconds 7200) None]) in
  metric "transactions_per_hour" (metrics (_analyze_velocity calm_lib g "M1"))
    = Some (PyFloat Float.one).
Proof.
  intros g.
  destruct (velocity_transactions_per_hour calm_lib g "M1"
              (Node.mk Merchant 2 (Float.of_Z 20) {["U1"; "U2"]} 0 (seconds 7200)))
    as [H _].
  - vm_compute. reflexivity.
  - reflexivity.
  - simpl. lia.
  - rewrite H. vm_compute. reflexivity.
Defined.

(** The claim of C8 as stated fails: two transactions half an hour apart
    give 2 / 0.5 = 4 transactions per hour, where the formula of the
    specification gives 2 / max(0.5, 1) = 2. *)
Lemma velocity_divisor_below_one_hour :
  let g := merchant_graph (run [Record "U1" "M1" ten 0 None;
                                Record "U1" "M1" ten (seconds 1800) None]) in
  metric "transactions_per_hour" (metrics (_analyze_velocity calm_lib g "M1"))
    = Some (PyFloat (Float.of_Z 4)) ∧
  spec_transactions_per_hour <$> nodes g !! "M1" = Some (Float.of_Z 2).
Proof. vm_compute. done. Qed.

(** ** The relationship of a user with a merchant *)

Lemma truthy_Some u : u ≠ "" → truthy (Some u) = true.
Proof. intros Hu. unfold truthy. by apply String.eqb_neq in Hu as ->. Qed.

Lemma relationship_no_edge lib g u m :
  get_edge g u m = None →
  _analyze_user_merchant_relationship lib g u m =
    Return (mkSub [] (Float.lit 1 10) ["New merchant relationship"]).
Proof. unfold _analyze_user_merchant_relationship. by intros ->. Qed.

(** The sub-check on an edge that holds one transaction. *)
Lemma relationship_first_transaction lib g u m a t :
  get_edge g u m = Some (Edge.fresh a t) →
  ∃ ms, _analyze_user_merchant_relationship lib g u m = Return (mkSub ms Float.zero []).
Proof.
  unfold _analyze_user_merchant_relationship. intros ->. simpl. eauto.
Qed.

(** The claim of C10 as stated fails: after the one transaction between
    the new user U9 and the existing merchant M2 is recorded, the
    analysis for U9 has no factor "New merchant relationship" (it has no
    factor at all) and the sub-check contributes 0.0. *)
Lemma relationship_not_new_after_recording :
  let self := run [Record "U1" "M2" ten 0 None;
                   Record "U9" "M2" ten (seconds 3600) None] in
  let answer := (analyze_merchant_risk calm_lib "M2" (Some "U9")
                   (seconds 3600) (seconds 3600) self).2 in
  let check := _analyze_user_merchant_relationship calm_lib (merchant_graph self)
                 "U9" "M2" in
  result_factors <$> returned answer = Some [] ∧
  risk_contribution <$> returned check = Some Float.zero ∧
  sub_factors <$> returned check = Some [].
Proof. vm_compute. done. Qed.

(** ** The factors an analysis can give *)

Lemma graph_factor_intro p s :
  p ∈ factor_prefixes → graph_factor (p +:+ s) = true.
Proof.
  intros Hp. unfold graph_factor. apply existsb_exists. exists p.
  split; [by apply list_elem_of_In|]. apply prefix_spec. by exists s.
Qed.

Ltac graph_factors :=
  repeat first
    [ progress cbn [or_else mbind outcome_bind sub_factors app]
    | match goal with
      | |- context [if ?c then (_, _) else (_, _)] => destruct c
      end ];
  repeat apply Forall_cons_2; try apply Forall_nil_2;
  try reflexivity;
  match goal with
  | |- graph_factor (?p +:+ _) = true =>
      apply (graph_factor_intro p); unfold factor_prefixes; set_solver
  end.

Lemma centrality_factors lib g m :
  Forall (λ s, graph_factor s = true) (sub_factors (_analyze_centrality lib g m)).
Proof.
  unfold _analyze_centrality.
  match goal with |- context [or_else (mbind _ ?c) _] => destruct c as [[[deg bet] clo]|] end;
    cbn [or_else mbind outcome_bind]; [|by constructor].
  graph_factors.
Qed.

Lemma clustering_factors lib g m :
  Forall (λ s, graph_factor s = true) (sub_factors (_analyze_clustering lib g m)).
Proof.
  unfold _analyze_clustering.
  destruct (clustering lib g m) as [c|]; cbn [or_else mbind outcome_bind];
    [|by constructor].
  destruct (average_clustering lib g) as [ac|]; cbn [or_else mbind outcome_bind];
    [|by constructor].
  destruct (connected_components lib g) as [cc|]; cbn [or_else mbind outcome_bind];
    [|by constructor].
  graph_factors.
Qed.

Lemma velocity_factors lib g m :
  Forall (λ s, graph_factor s = true) (sub_factors (_analyze_velocity lib g m)).
Proof.
  unfold _analyze_velocity, velocity_body.
  destruct (negb (has_node g m)); [by constructor|].
  destruct (node_data g m) as [d|]; cbn [or_else mbind outcome_bind]; [|by constructor].
  destruct (int_div_float _ _) as [tph|]; cbn [or_else mbind outcome_bind];
    [|by constructor].
  destruct (py_div _ _) as [aph|]; cbn [or_else mbind outcome_bind]; [|by constructor].
  destruct (node_peers _ _) as [cs|]; cbn [or_else mbind outcome_bind]; [|by constructor].
  destruct (float_div_int _ _) as [avg|]; cbn [or_else mbind outcome_bind];
    [|by constructor].
  destruct (int_true_div _ _) as [ratio|].
  2:{ repeat match goal with
             | |- context [if ?c then (_, _) else (_, _)] => destruct c
             end; by constructor. }
  graph_factors.
Qed.

(** The relationship sub-check gives the factor "New merchant
    relationship" only when there is no edge. *)
Lemma relationship_factors lib g u m r :
  is_Some (get_edge g u m) →
  _analyze_user_merchant_relationship lib g u m = Return r →
  Forall (λ s, graph_factor s = true) (sub_factors r).
Proof.
  unfold _analyze_user_merchant_relationship. intros [e ->].
  destruct (float_div_int _ _) as [avg|]; cbn [mbind outcome_bind]; [|by intros [=]].
  destruct (50 <? _), (1 <? _); cbn [mbind outcome_bind].
  all: try (destruct (np_var lib _) as [v|]; cbn [mbind outcome_bind]; [|by intros [=]]).
  all: repeat match goal with
              | |- context [if ?c then (_, _) else (_, _)] => destruct c
              end.
  all: intros [= <-]; graph_factors.
Qed.

(** The factors of an analysis that ran to its end, for a merchant that
    has an edge with the given user, or without a user: none is
    "New merchant relationship" or "Unknown merchant". *)
Lemma analysis_body_factors lib self m u stored self' r :
  (truthy u = true → is_Some (get_edge (merchant_graph self) (default "" u) m)) →
  has_node (merchant_graph self) m = true →
  analysis_body lib self m u stored = Return (self', r) →
  Forall (λ s, graph_factor s = true) (result_factors r).
Proof.
  intros He Hn. unfold analysis_body. rewrite Hn.
  apply has_node_true in Hn as [d Hd]. unfold node_data. rewrite Hd.
  cbn [negb mbind outcome_bind].
  pose proof (centrality_factors lib (merchant_graph self) m) as H1.
  pose proof (clustering_factors lib (merchant_graph self) m) as H2.
  pose proof (velocity_factors lib (merchant_graph self) m) as H3.
  destruct (truthy u).
  - destruct (_analyze_user_merchant_relationship _ _ _ _) as [rel|] eqn:Hrel;
      cbn [mbind outcome_bind]; [|done].
    intros [= _ <-]. cbn [result_factors factors].
    pose proof (relationship_factors _ _ _ _ _ (He eq_refl) Hrel).
    rewrite !Forall_app. done.
  - cbn [mbind outcome_bind]. intros [= _ <-]. cbn [result_factors factors].
    rewrite !Forall_app. done.
Qed.

Lemma not_graph_factor (s : string) (fs : list string) :
  graph_factor s = false → Forall (λ s, graph_factor s = true) fs → s ∉ fs.
Proof.
  intros Hs Hfs Hin. rewrite Forall_forall in Hfs. apply Hfs in Hin. congruence.
Qed.

Lemma cache_invalidated_none m u cache u' :
  _invalidate_cache m u cache !! cache_key m u' = None.
Proof.
  apply eq_None_not_Some. intros [v (_ & Hm & _)%invalidate_lookup_Some].
  pose proof (proj2 (is_substring_spec m _) (cache_key_contains_merchant m u')).
  congruence.
Qed.

(** After a call of [add_transaction_edge] that returned, the analysis of
    the merchant for the user runs anew (nothing cached is left for it)
    and finds their edge. *)
Lemma analysis_after_record lib u m a t md self now stored :
  (add_transaction_edge u m a t md self).2 = Return () →
  let self' := (add_transaction_edge u m a t md self).1 in
  ∃ r, (analyze_merchant_risk lib m (Some u) now stored self').2 = Return r ∧
       "New merchant relationship" ∉ result_factors r.
Proof.
  intros Hret self'.
  assert (is_Some (get_edge (merchant_graph self') u m) ∧
          has_node (merchant_graph self') m = true ∧
          cache_check self' (cache_key m (Some u)) now = None) as (He & Hn & Hc).
  { subst self'.
    destruct (add_Return u m a t md self Hret) as (Hm & _ & H).
    rewrite H. cbn [fst merchant_graph]. split; [|split].
    - unfold after_add. rewrite get_edge_add_or_update_edge. eauto.
    - rewrite <- kind_of_after_add in Hm. apply has_node_true.
      unfold kind_of in Hm. by destruct (nodes _ !! m).
    - pose proof (cache_invalidated_none m u (risk_cache self) (Some u)) as Hk.
      unfold cache_check; cbn [risk_cache]. unfold datetime in *. by rewrite Hk. }
  destruct (analyze_cases lib m (Some u) now stored self')
    as (s'' & r & -> & _ & _ & H). exists r. split; [done|].
  destruct H as [[Hc' _]|[_ [(Hn' & _)|[(e & _ & Hr & _)|
    (_ & x & y & _ & _ & _ & Hb & _)]]]]; try congruence.
  - rewrite Hr. cbn [analysis_error result_factors].
    by intros [=]%list_elem_of_singleton.
  - apply not_graph_factor; [done|].
    eapply analysis_body_factors; [|done|done].
    intros Hu. destruct u; by rewrite ?He.
Qed.

(** ** What an analysis answers after a record *)

(** C5, at a collision of cache keys. The merchant "shop_user" has no
    node, but the question (shop_user, 42) has the cache key of the
    question (shop, user_42). Once that question was asked, whatever the
    library answered, the call for the unknown merchant a second later
    returns the cached analysis of "shop": the merchant of the result is
    "shop" and "Unknown merchant" is not among its factors. *)
Theorem unknown_merchant_answered_from_cache lib lib' :
  let self := run [Record "user_42" "shop" ten 0 None;
                   Analyze lib "shop" (Some "user_42") 0 0] in
  let answer := (analyze_merchant_risk lib' "shop_user" (Some "42")
                   (seconds 1) (seconds 1) self).2 in
  has_node (merchant_graph self) "shop_user" = false ∧
  cache_key "shop_user" (Some "42") = cache_key "shop" (Some "user_42") ∧
  ∃ r, answer = Return r ∧ result_merchant r = "shop" ∧
       "Unknown merchant" ∉ result_factors r.
Proof.
  intros self answer. subst answer self.
  change (run [Record "user_42" "shop" ten 0 None;
               Analyze lib "shop" (Some "user_42") 0 0])
    with (step (run [Record "user_42" "shop" ten 0 None])
               (Analyze lib "shop" (Some "user_42") 0 0)).
  cbn [step].
  set (s1 := run [Record "user_42" "shop" ten 0 None]).
  rewrite analyze_graph. split; [by vm_compute|]. split; [done|].
  assert (has_node (merchant_graph s1) "shop" = true) as Hn by (by vm_compute).
  assert (get_edge (merchant_graph s1) "user_42" "shop" = Some (Edge.fresh ten 0))
    as He by (by vm_compute).
  destruct (analyze_cases lib "shop" (Some "user_42") 0 0 s1)
    as (s2 & r & -> & _ & _ & H). cbn [fst].
  destruct H as [[Hc _]|[_ [(Hn' & _)|[(e & Hb & _)|
    (_ & a & x & Hr & Hm & _ & Hb & Hk)]]]].
  - by vm_compute in Hc.
  - congruence.
  - apply analysis_body_raises in Hb as (_ & _ & Hb).
    destruct (relationship_first_transaction lib _ _ _ _ _ He) as [ms Hms].
    change (default "" (Some "user_42")) with "user_42" in Hb.
    rewrite Hms in Hb. done.
  - exists r. unfold analyze_merchant_risk, cache_check.
    change (cache_key "shop_user" (Some "42")) with (cache_key "shop" (Some "user_42")).
    unfold datetime in *. rewrite Hk, lookup_insert_eq. cbn [fst snd].
    split; [done|]. split; [by rewrite Hr|].
    apply not_graph_factor; [done|].
    eapply analysis_body_factors; [|exact Hn|exact Hb].
    intros _. change (default "" (Some "user_42")) with "user_42". rewrite He. eauto.
Qed.

(** C10, as the code has it. As long as no transaction between the user
    and an existing merchant is recorded, the analysis for that user has
    the factor "New merchant relationship" and the relationship sub-check
    contributes exactly 0.1. Once a transaction between them is recorded,
    the edge exists: whatever the library answers, the analysis for the
    user no longer has the factor, and after their first transaction the
    sub-check contributes 0.0 and gives no factor. *)
Theorem new_relationship_until_first_transaction lib u m :
  (∀ self now stored,
     has_node (merchant_graph self) m = true →
     u ≠ "" →
     get_edge (merchant_graph self) u m = None →
     cache_check self (cache_key m (Some u)) now = None →
     risk_contribution <$>
       returned (_analyze_user_merchant_relationship lib (merchant_graph self) u m)
       = Some (Float.lit 1 10) ∧
     ∃ r, (analyze_merchant_risk lib m (Some u) now stored self).2 = Return (Analysis r) ∧
          "New merchant relationship" ∈ factors r) ∧
  (∀ self a t md now stored,
     (add_transaction_edge u m a t md self).2 = Return () →
     let self' := (add_transaction_edge u m a t md self).1 in
     (∃ r, (analyze_merchant_risk lib m (Some u) now stored self').2 = Return r ∧
           "New merchant relationship" ∉ result_factors r) ∧
     (get_edge (merchant_graph self) u m = None →
      ∃ ms, _analyze_user_merchant_relationship lib (merchant_graph self') u m
            = Return (mkSub ms Float.zero []))).
Proof.
  split.
  - intros self now stored Hn Hu He Hc.
    rewrite (relationship_no_edge lib _ u m He). split; [done|].
    unfold analyze_merchant_risk. rewrite Hc. unfold analysis_body.
    rewrite Hn. apply has_node_true in Hn as [d Hd].
    unfold node_data. rewrite Hd. cbn [negb mbind outcome_bind].
    rewrite (truthy_Some u Hu). change (default "" (Some u)) with u.
    rewrite (relationship_no_edge lib _ u m He). cbn [mbind outcome_bind snd].
    eexists. split; [reflexivity|]. cbn [factors sub_factors].
    apply elem_of_app. right. by left.
  - intros self a t md now stored Hret self'. split.
    { by apply analysis_after_record. }
    intros He. subst self'.
    destruct (add_Return u m a t md self Hret) as (_ & _ & H).
    rewrite H. cbn [fst merchant_graph].
    apply (relationship_first_transaction lib _ u m a t).
    unfold after_add. rewrite get_edge_add_or_update_edge.
    assert (get_edge (update_node u (bump_last_seen t)
              (update_node u (Node.add_peer m)
                 (after_user_totals u m a t (merchant_graph self)))) u m = None) as ->; [|done].
    revert He. unfold get_edge.
    change (edges (update_node u _ _)) with (edges (after_user_totals u m a t (merchant_graph self))).
    by rewrite edges_after_user_totals.
Qed.

Lemma new_relationship_until_first_transaction_witness :
  let self := run [Record "U1" "M2" ten 0 None] in
  let self' := (add_transaction_edge "U9" "M2" ten 0 None self).1 in
  (∃ r, (analyze_merchant_risk calm_lib "M2" (Some "U9") 0 0 self).2 = Return (Analysis r) ∧
        "New merchant relationship" ∈ factors r) ∧
  (∃ r, (analyze_merchant_risk calm_lib "M2" (Some "U9") 0 0 self').2 = Return r ∧
        "New merchant relationship" ∉ result_factors r) ∧
  (∃ ms, _analyze_user_merchant_relationship calm_lib (merchant_graph self') "U9" "M2"
         = Return (mkSub ms Float.zero [])).
Proof.
  intros self self'.
  destruct (new_relationship_until_first_transaction calm_lib "U9" "M2") as [H1 H2].
  split; [|split].
  - apply (H1 self 0 0); [vm_compute; reflexivity|discriminate|
                          vm_compute; reflexivity|vm_compute; reflexivity].
  - apply (H2 self ten 0 None 0 0). vm_compute. reflexivity.
  - apply (H2 self ten 0 None 0 0); vm_compute; reflexivity.
Defined.

(** ** Further properties of the analyzer *)

(** X1. A merchant without a node, asked about while nothing is cached
    under the key of the question, gets the score 0.1 and the one factor
    "Unknown merchant", every sub-analysis left out; the analyzer does
    not change and a second call returns the same. *)
Theorem unknown_merchant_without_cache_entry lib m u now stored now' stored' self :
  has_node (merchant_graph self) m = false →
  risk_cache self !! cache_key m u = None →
  analyze_merchant_risk lib m u now stored self =
    (self, Return (Analysis (mkRisk m (Float.lit 1 10) ["Unknown merchant"]
                               None None None [] []))) ∧
  analyze_merchant_risk lib m u now' stored'
    (analyze_merchant_risk lib m u now stored self).1 =
  analyze_merchant_risk lib m u now stored self.
Proof.
  intros Hn Hk.
  assert (∀ t, cache_check self (cache_key m u) t = None) as Hc.
  { intros t. unfold cache_check, datetime in *. by rewrite Hk. }
  rewrite (unknown_merchant_floor lib m u now stored self) by done.
  split; [done|]. cbn [fst]. by apply unknown_merchant_floor.
Qed.

Lemma unknown_merchant_without_cache_entry_witness :
  (analyze_merchant_risk broken_lib "NEVER_SEEN" None 0 0
     (run [Record "U1" "M1" ten 0 None])).2 =
  Return (Analysis (mkRisk "NEVER_SEEN" (Float.lit 1 10) ["Unknown merchant"]
                      None None None [] [])).
Proof.
  destruct (unknown_merchant_without_cache_entry broken_lib "NEVER_SEEN" None 0 0 0 0
              (run [Record "U1" "M1" ten 0 None])) as [H _].
  - vm_compute. reflexivity.
  - vm_compute. reflexivity.
  - by rewrite H.
Defined.

(** X2. How a call of [add_transaction_edge] ends is decided by the
    identities, the timestamp and the graph, never by the amount, in the
    order the call runs. It raises [KeyError('unique_customers')] when
    the merchant's identity is that of a user node; else a [TypeError]
    when the timestamp cannot be compared with the datetimes of the
    merchant's node (one is naive, the other aware); else
    [KeyError('unique_merchants')] when the two identities are equal or
    the user's identity is that of a merchant node; else a [TypeError]
    when the timestamp cannot be compared with the datetimes of the
    user's node; otherwise it returns. So it returns exactly when the
    identities fit their roles and the timestamp can be compared with
    both nodes. *)
Theorem record_returns_iff_roles_fit u m a t md self :
  (add_transaction_edge u m a t md self).2 =
    (if decide (kind_of (merchant_graph self) m = Some User)
     then Raise (KeyError "unique_customers")
     else if decide (comparable (merchant_graph self) m t)
     then if decide (u = m ∨ kind_of (merchant_graph self) u = Some Merchant)
          then Raise (KeyError "unique_merchants")
          else if decide (comparable (merchant_graph self) u t)
          then Return ()
          else Raise (TypeError "can't compare offset-naive and offset-aware datetimes")
     else Raise (TypeError "can't compare offset-naive and offset-aware datetimes")) ∧
  ((add_transaction_edge u m a t md self).2 = Return () ↔
   (u ≠ m ∧
    Node.node_type <$> nodes (merchant_graph self) !! m ≠ Some User ∧
    Node.node_type <$> nodes (merchant_graph self) !! u ≠ Some Merchant) ∧
   Node.tz_aware <$> nodes (merchant_graph self) !! m ≠ Some (negb (aware t)) ∧
   Node.tz_aware <$> nodes (merchant_graph self) !! u ≠ Some (negb (aware t))).
Proof. split; [apply add_outcome|apply add_returns_iff]. Qed.

(** X3. Whether it returns or raises, [add_transaction_edge] only grows
    the graph: every node keeps its type and its [first_seen], no
    [last_seen] and no transaction count goes down, and every edge keeps
    the amounts it had, in order. *)
Theorem record_only_grows_graph u m a t md self :
  grows (merchant_graph self) (merchant_graph (add_transaction_edge u m a t md self).1).
Proof. apply add_grows. Qed.

(** X4. In the first day of a cache entry the time to live works: the
    entry is served exactly while it is younger than 3600 seconds. *)
Theorem cache_entry_first_day self key now r t :
  risk_cache self !! key = Some (r, t) →
  0 ≤ now - t < seconds 86400 →
  cache_check self key now = if (now - t) <? seconds 3600 then Some r else None.
Proof. apply cache_check_first_day. Qed.

Lemma cache_entry_first_day_witness :
  let r := Degraded "M1" (Float.lit 5 10) ["Analysis error"] "unavailable" in
  let self := mkAnalyzer (mkGraph ∅ ∅) (mkDiGraph ∅ ∅) {["merchant_risk_M1_none" := (r, 0)]} in
  cache_check self "merchant_risk_M1_none" (seconds 3599) = Some r ∧
  cache_check self "merchant_risk_M1_none" (seconds 3600) = None.
Proof.
  intros r self. split.
  - rewrite (cache_entry_first_day self _ (seconds 3599) r 0); [done|done|].
    unfold seconds, us_per_second. lia.
  - rewrite (cache_entry_first_day self _ (seconds 3600) r 0); [done|done|].
    unfold seconds, us_per_second. lia.
Defined.



(** X6. The body of the [try] block of [analyze_merchant_risk] raises
    exactly when the merchant has a node, a user is given and the
    analysis of their relationship raises: errors of the centrality,
    clustering, velocity and anomaly analyses never reach the handler. *)
Theorem handler_reached_iff lib self m u stored e :
  analysis_body lib self m u stored = Raise e ↔
  has_node (merchant_graph self) m = true ∧ truthy u = true ∧
  _analyze_user_merchant_relationship lib (merchant_graph self) (default "" u) m = Raise e.
Proof. apply analysis_body_raises. Qed.

(** ** The nodes after a call of [add_transaction_edge] *)

Ltac node_cases :=
  repeat (case_decide; subst; try done);
  repeat match goal with
         | |- context [nodes ?g !! ?k] => destruct (nodes g !! k) eqn:?; simpl
         end; try done; try congruence.

Lemma lookup_after_merchant_totals u m a t g k :
  nodes (after_merchant_totals u m a t g) !! k =
  if decide (k = m)
  then Some (totals_update a (node_before Merchant t g m))
  else if decide (k = u)
  then Some (node_before User t g u)
  else nodes g !! k.
Proof.
  unfold after_merchant_totals, node_before.
  rewrite !lookup_update_node, !lookup_ensure_node.
  node_cases.
Qed.

Lemma lookup_after_merchant_peer u m a t g k :
  nodes (after_merchant_peer u m a t g) !! k =
  if decide (k = m)
  then Some (peer_update u a (node_before Merchant t g m))
  else if decide (k = u)
  then Some (node_before User t g u)
  else nodes g !! k.
Proof.
  unfold after_merchant_peer. rewrite lookup_update_node, lookup_after_merchant_totals.
  unfold peer_update. node_cases.
Qed.

Lemma lookup_after_user_totals u m a t g k :
  nodes (after_user_totals u m a t g) !! k =
  if decide (k = m)
  then Some ((if decide (u = m) then totals_update a else id)
               (node_update u a t (node_before Merchant t g m)))
  else if decide (k = u)
  then Some (totals_update a (node_before User t g u))
  else nodes g !! k.
Proof.
  unfold after_user_totals. rewrite !lookup_update_node, lookup_after_merchant_peer.
  unfold node_update. node_cases.
Qed.

Lemma lookup_after_user_peer u m a t g k :
  u ≠ m →
  nodes (after_user_peer u m a t g) !! k =
  if decide (k = m)
  then Some (node_update u a t (node_before Merchant t g m))
  else if decide (k = u)
  then Some (peer_update m a (node_before User t g u))
  else nodes g !! k.
Proof.
  intros Hne. unfold after_user_peer.
  rewrite lookup_update_node, lookup_after_user_totals.
  unfold peer_update. node_cases.
Qed.

Lemma lookup_after_add u m a t g k :
  u ≠ m →
  nodes (after_add u m a t g) !! k =
  if decide (k = m)
  then Some (node_update u a t (node_before Merchant t g m))
  else if decide (k = u)
  then Some (node_update m a t (node_before User t g u))
  else nodes g !! k.
Proof.
  intros Hne. unfold after_add.
  rewrite nodes_add_or_update_edge, !lookup_update_node, lookup_after_user_totals.
  unfold node_update, peer_update. node_cases.
Qed.

(** The five ends of a call, with what is known of the two nodes at each. *)
Lemma add_ends u m a t md self :
  let g := merchant_graph self in
  let r := add_transaction_edge u m a t md self in
  (Node.node_type (node_before Merchant t g m) = User ∧
   r = (set_graph (after_merchant_totals u m a t g) self,
        Raise (KeyError "unique_customers"))) ∨
  (Node.node_type (node_before Merchant t g m) = Merchant ∧
   r = (set_graph (after_merchant_peer u m a t g) self,
        Raise (TypeError "can't compare offset-naive and offset-aware datetimes"))) ∨
  (Node.node_type (node_before Merchant t g m) = Merchant ∧
   (u = m ∨ Node.node_type (node_before User t g u) = Merchant) ∧
   r = (set_graph (after_user_totals u m a t g) self,
        Raise (KeyError "unique_merchants"))) ∨
  (Node.node_type (node_before Merchant t g m) = Merchant ∧ u ≠ m ∧
   r = (set_graph (after_user_peer u m a t g) self,
        Raise (TypeError "can't compare offset-naive and offset-aware datetimes"))) ∨
  (roles_fit g u m ∧ times_fit g u m t ∧
   r = (mkAnalyzer (after_add u m a t g)
          (di_add_edge u m (Arc.mk a (instant t) (default ∅ md)) (transaction_graph self))
          (_invalidate_cache m u (risk_cache self)),
        Return ())).
Proof.
  intros g r. pose proof (add_returns_iff u m a t md self) as Hret. subst g r.
  assert (∀ k, kind_of (after_merchant_totals u m a t (merchant_graph self)) m = Some k →
               Node.node_type (node_before Merchant t (merchant_graph self) m) = k) as Hkm.
  { intros k. unfold kind_of.
    rewrite lookup_after_merchant_totals, decide_True by done. simpl. congruence. }
  destruct (add_cases u m a t md self)
    as [[Hm H]|[(Hm & Hc & H)|[(Hm & Hc & Hu & H)|[(Hm & Hc & Hu & Hc' & H)|
        (Hm & Hu & Hc & Hc' & H)]]]];
    rewrite H in *.
  - left. split; [|done]. unfold kind_of in Hm.
    rewrite lookup_after_merchant_totals, decide_True in Hm by done. simpl in Hm.
    by destruct (Node.node_type (node_before Merchant t _ m)).
  - right. left. split; [by apply Hkm|done].
  - right. right. left. split; [by apply Hkm|]. split; [|done].
    destruct (decide (u = m)) as [|Hne]; [by left|right].
    unfold kind_of in Hu. rewrite lookup_after_merchant_totals in Hu.
    rewrite decide_False, decide_True in Hu by done. simpl in Hu.
    by destruct (Node.node_type (node_before User t _ u)).
  - right. right. right. left. split; [by apply Hkm|]. split; [|done].
    intros ->. congruence.
  - right. right. right. right. destruct Hret as [[? ?] _]; [done|]. eauto.
Qed.

(** What a call makes of one node. *)
Lemma add_node_cases u m a t md self k d' :
  let g := merchant_graph self in
  nodes (merchant_graph (add_transaction_edge u m a t md self).1) !! k = Some d' →
  (k ≠ m ∧ k ≠ u ∧ nodes g !! k = Some d') ∨
  (k = m ∧ (d' = totals_update a (node_before Merchant t g m) ∧
              Node.node_type d' = User ∨
            d' = peer_update u a (node_before Merchant t g m) ∨
            d' = node_update u a t (node_before Merchant t g m) ∨
            d' = totals_update a (node_update u a t (node_before Merchant t g m)))) ∨
  (k = u ∧ k ≠ m ∧ (d' = node_before User t g u ∨
                     d' = totals_update a (node_before User t g u) ∨
                     d' = peer_update m a (node_before User t g u) ∨
                     d' = node_update m a t (node_before User t g u))).
Proof.
  intros g. subst g.
  destruct (add_ends u m a t md self)
    as [[Hm H]|[(Hm & H)|[(Hm & Hu & H)|[(Hm & Hne & H)|(Hfit & _ & H)]]]];
    rewrite H; cbn [fst merchant_graph set_graph].
  - rewrite lookup_after_merchant_totals.
    repeat case_decide; subst; intros [= <-]; eauto 8.
  - rewrite lookup_after_merchant_peer.
    repeat case_decide; subst; intros [= <-]; eauto 8.
  - rewrite lookup_after_user_totals.
    repeat case_decide; subst; intros [= <-]; eauto 8.
  - rewrite lookup_after_user_peer by done.
    repeat case_decide; subst; intros [= <-]; eauto 8.
  - rewrite lookup_after_add by apply Hfit.
    repeat case_decide; subst; intros [= <-]; eauto 8.
Qed.

(** ** Counts of a node *)

Lemma size_add_peer x (X : gset string) : (size ({[x]} ∪ X) ≤ S (size X))%nat.
Proof.
  rewrite size_union_alt, size_singleton.
  apply le_n_S. apply subseteq_size.
  intros y Hy. by apply elem_of_difference in Hy as [? _].
Qed.

Lemma counted_totals_update a d :
  counted d → counted (totals_update a d).
Proof. intros [H1 H2]. split; [simpl; lia|done]. Qed.

Lemma counted_totals_update_user a d :
  (size (Node.peers d) ≤ Node.total_transactions d)%nat →
  Node.node_type d = User → counted (totals_update a d).
Proof. intros H1 H2. split; [simpl; lia|]. simpl. congruence. Qed.

Lemma size_add_peer_pos x (X : gset string) : (1 ≤ size ({[x]} ∪ X))%nat.
Proof.
  rewrite size_union_alt, size_singleton. lia.
Qed.

Lemma counted_peer_update x a d :
  (size (Node.peers d) ≤ Node.total_transactions d)%nat → counted (peer_update x a d).
Proof.
  intros H. split; intros; cbn; [|apply size_add_peer_pos].
  etrans; [apply size_add_peer|]. lia.
Qed.

Lemma counted_node_update x a t d :
  (size (Node.peers d) ≤ Node.total_transactions d)%nat → counted (node_update x a t d).
Proof.
  intros H. split; intros; cbn; [|apply size_add_peer_pos].
  etrans; [apply size_add_peer|]. lia.
Qed.

Lemma node_before_peers k t g n :
  every_node counted g →
  (size (Node.peers (node_before k t g n)) ≤
   Node.total_transactions (node_before k t g n))%nat.
Proof.
  intros Hg. unfold node_before. destruct (nodes g !! n) as [d|] eqn:Hd.
  - by apply (Hg n d).
  - cbn. by rewrite size_empty.
Qed.

Lemma node_before_user_counted t g n :
  every_node counted g → counted (node_before User t g n).
Proof.
  intros Hg. unfold node_before. destruct (nodes g !! n) as [d|] eqn:Hd.
  - by apply (Hg n d).
  - split; cbn; [by rewrite size_empty|done].
Qed.

Lemma counted_add u m a t md self :
  every_node counted (merchant_graph self) →
  every_node counted (merchant_graph (add_transaction_edge u m a t md self).1).
Proof.
  intros Hg k d' Hd'.
  pose proof (node_before_peers Merchant t _ m Hg) as Hm.
  pose proof (node_before_user_counted t _ u Hg) as Hu.
  apply add_node_cases in Hd'
    as [(_ & _ & H) | [(_ & [[-> Hk] | [-> | [-> | ->]]]) |
                       (_ & _ & [-> | [-> | [-> | ->]]])]].
  - by apply (Hg k).
  - by apply counted_totals_update_user.
  - by apply counted_peer_update.
  - by apply counted_node_update.
  - apply counted_totals_update. by apply counted_node_update.
  - done.
  - by apply counted_totals_update.
  - apply counted_peer_update, Hu.
  - apply counted_node_update, Hu.
Qed.

Lemma run_counted cs : every_node counted (merchant_graph (run cs)).
Proof.
  apply (run_ind (λ s, every_node counted (merchant_graph s))).
  - intros n d. unfold init; simpl. by rewrite lookup_empty.
  - intros s [u m a t md|lib m u now stored] IH; cbn [step].
    + by apply counted_add.
    + by rewrite analyze_graph.
Qed.

(** ** The velocity analysis on the graph of a history *)

Lemma velocity_body_user lib g m d :
  nodes g !! m = Some d →
  Node.node_type d = User →
  velocity_body lib g m = Raise (KeyError "unique_customers").
Proof.
  intros Hd Ht. unfold velocity_body.
  rewrite (proj2 (has_node_true g m)) by eauto. unfold node_data. rewrite Hd.
  cbn [negb mbind outcome_bind]. unfold int_div_float, py_div.
  rewrite velocity_time_span_nonzero. cbn [mbind outcome_bind].
  unfold node_peers. rewrite decide_False by congruence. done.
Qed.

Lemma velocity_body_metrics lib g m d :
  nodes g !! m = Some d →
  Node.node_type d = Merchant →
  Node.total_transactions d ≠ 0%nat →
  ∃ s, velocity_body lib g m = Return s ∧
       metrics s =
         [("transactions_per_hour",
           PyFloat (Float.div (Float.of_Z (Z.of_nat (Node.total_transactions d)))
                              (velocity_time_span d)));
          ("amount_per_hour",
           PyFloat (Float.div (Node.total_amount d) (velocity_time_span d)));
          ("unique_customers", PyInt (Z.of_nat (size (Node.peers d))));
          ("avg_transaction_amount",
           PyFloat (Float.div (Node.total_amount d)
                              (Float.of_Z (Z.of_nat (Node.total_transactions d)))));
          ("time_span_hours", time_span_value d)].
Proof.
  intros Hd Ht Hn. unfold velocity_body.
  rewrite (proj2 (has_node_true g m)) by eauto. unfold node_data. rewrite Hd.
  cbn [negb mbind outcome_bind]. unfold int_div_float, py_div.
  rewrite velocity_time_span_nonzero. cbn [mbind outcome_bind].
  unfold node_peers. rewrite decide_True by done. cbn [mbind outcome_bind].
  unfold float_div_int, int_true_div.
  destruct (Z.eqb_spec (Z.of_nat (Node.total_transactions d)) 0) as [|_]; [lia|].
  cbn [mbind outcome_bind].
  repeat match goal with
         | |- context [if ?c then (_, _) else (_, _)] => destruct c
         end; eexists; (split; [reflexivity|done]).
Qed.

(** X7. In every history of calls, the velocity analysis of a merchant
    node does not fail: the node has at least one transaction, so no
    division raises, and the five metrics are those of the node;
    [time_span_hours] is the int [1] when the node's first and last
    datetimes coincide, the float span in hours otherwise. On a user node
    it fails on the missing [unique_customers] and gives the empty
    analysis. *)
Theorem velocity_analysis_on_recorded_nodes cs lib m d :
  nodes (merchant_graph (run cs)) !! m = Some d →
  match Node.node_type d with
  | Merchant =>
      ∃ s, velocity_body lib (merchant_graph (run cs)) m = Return s ∧
           _analyze_velocity lib (merchant_graph (run cs)) m = s ∧
           metrics s =
             [("transactions_per_hour",
               PyFloat (Float.div (Float.of_Z (Z.of_nat (Node.total_transactions d)))
                                  (velocity_time_span d)));
              ("amount_per_hour",
               PyFloat (Float.div (Node.total_amount d) (velocity_time_span d)));
              ("unique_customers", PyInt (Z.of_nat (size (Node.peers d))));
              ("avg_transaction_amount",
               PyFloat (Float.div (Node.total_amount d)
                                  (Float.of_Z (Z.of_nat (Node.total_transactions d)))));
              ("time_span_hours", time_span_value d)] ∧
           (1 ≤ size (Node.peers d) ≤ Node.total_transactions d)%nat
  | User => _analyze_velocity lib (merchant_graph (run cs)) m = empty_sub
  end.
Proof.
  intros Hd. destruct (Node.node_type d) eqn:Ht.
  - destruct (run_counted cs m d Hd) as [Hp Hc]. specialize (Hc Ht).
    destruct (velocity_body_metrics lib _ m d Hd Ht) as (s & Hs & Hm); [lia|].
    exists s. unfold _analyze_velocity. rewrite Hs. repeat split; done.
  - unfold _analyze_velocity. by rewrite (velocity_body_user lib _ m d Hd Ht).
Qed.

Lemma velocity_analysis_on_recorded_nodes_witness :
  ∃ s, _analyze_velocity calm_lib (merchant_graph (run [Record "U1" "M1" ten 0 None])) "M1"
       = s ∧
       metric "unique_customers" (metrics s) = Some (PyInt 1) ∧
       metric "time_span_hours" (metrics s) = Some (PyInt 1).
Proof.
  destruct (velocity_analysis_on_recorded_nodes [Record "U1" "M1" ten 0 None] calm_lib "M1"
              (Node.mk Merchant 1 ten {["U1"]} 0 0)) as (s & _ & Hs & Hm & _).
  - vm_compute. reflexivity.
  - exists s. split; [done|]. rewrite Hm. split; reflexivity.
Defined.

(** ** Edges, counterparties and arcs *)

Lemma node_later_refl d : node_later d d.
Proof. split; [apply node_le_refl|done]. Qed.

Lemma node_later_trans d1 d2 d3 : node_later d1 d2 → node_later d2 d3 → node_later d1 d3.
Proof. intros [H1 H1'] [H2 H2']. split; [by etrans|by etrans]. Qed.

Lemma node_later_totals_update a d : node_later d (totals_update a d).
Proof. split; [|done]. repeat split; simpl; try done; lia. Qed.

Lemma node_later_peer_update x a d : node_later d (peer_update x a d).
Proof.
  split; [repeat split; simpl; try done; lia|]. simpl. apply union_subseteq_r.
Qed.

Lemma node_later_node_update x a t d : node_later d (node_update x a t d).
Proof.
  split; [repeat split; simpl; try done; lia|]. simpl. apply union_subseteq_r.
Qed.

Lemma node_before_Some k t g n d : nodes g !! n = Some d → node_before k t g n = d.
Proof. unfold node_before. by intros ->. Qed.

(** A call keeps every node, in a later state. *)
Lemma add_node_later u m a t md self k d :
  nodes (merchant_graph self) !! k = Some d →
  ∃ d', nodes (merchant_graph (add_transaction_edge u m a t md self).1) !! k = Some d' ∧
        node_later d d'.
Proof.
  intros Hd.
  destruct (add_grows u m a t md self) as [Hn _].
  destruct (Hn k d Hd) as (d' & Hd' & _). exists d'. split; [done|].
  apply add_node_cases in Hd'
    as [(_ & _ & H) | [(-> & [[-> Hk] | [-> | [-> | ->]]]) |
                       (-> & _ & [-> | [-> | [-> | ->]]])]];
    rewrite ?(node_before_Some _ _ _ _ _ Hd).
  - rewrite Hd in H. injection H as ->. apply node_later_refl.
  - apply node_later_totals_update.
  - apply node_later_peer_update.
  - apply node_later_node_update.
  - eapply node_later_trans; [apply node_later_node_update|apply node_later_totals_update].
  - apply node_later_refl.
  - apply node_later_totals_update.
  - apply node_later_peer_update.
  - apply node_later_node_update.
Qed.

(** In the graph of a history no edge is stored from a merchant to a
    user: between identities that fit their roles the reversed pair has
    no edge. *)
Lemma run_no_reversed_edge cs u m :
  roles_fit (merchant_graph (run cs)) u m →
  edges (merchant_graph (run cs)) !! (m, u) = None.
Proof.
  intros (_ & Hm & _). pose proof (run_ledger cs m u) as H. cbv zeta in H.
  destruct (edges _ !! (m, u)); [|done]. by destruct H as (H & _).
Qed.

Lemma linked_later self self' :
  edges (merchant_graph self') = edges (merchant_graph self) →
  transaction_graph self' = transaction_graph self →
  (∀ k d, nodes (merchant_graph self) !! k = Some d →
          ∃ d', nodes (merchant_graph self') !! k = Some d' ∧ node_later d d') →
  linked self → linked self'.
Proof.
  intros He Ht Hn H a b. specialize (H a b). cbv zeta in *. rewrite He, Ht.
  destruct (edges (merchant_graph self) !! (a, b)) as [e|]; [|done].
  destruct H as [(da & db & Ha & Hb & Hab & Hba & Hta & Htb) Harc]. split; [|done].
  destruct (Hn a da Ha) as (da' & Ha' & [(_ & _ & ? & _) Hsa]).
  destruct (Hn b db Hb) as (db' & Hb' & [(_ & _ & ? & _) Hsb]).
  exists da', db'. repeat split; try done; try lia; [by apply Hsa|by apply Hsb].
Qed.

Lemma last_snoc_fresh (a : float) : last [a] = Some a.
Proof. done. Qed.

Lemma run_linked cs : linked (run cs).
Proof.
  induction cs as [|c cs IH] using rev_ind.
  { intros a b. cbn. by rewrite lookup_empty. }
  rewrite run_snoc.
  destruct c as [u m a t md|lib m u now stored]; cbn [step].
  2:{ destruct (analyze_cases lib m u now stored (run cs)) as (s' & r & -> & Hg & Ht & _).
      eapply linked_later; [| | |exact IH]; cbn [fst]; rewrite ?Hg; try done.
      eauto using node_later_refl. }
  pose proof (add_node_later u m a t md (run cs)) as Hlater.
  destruct (add_ends u m a t md (run cs))
    as [[Hm H]|[(Hm & H)|[(Hm & Hu & H)|[(Hm & Hne & H)|(Hfit & _ & H)]]]].
  - eapply linked_later; [| |exact Hlater|exact IH]; rewrite H;
      cbn [fst merchant_graph set_graph transaction_graph].
    + apply edges_after_merchant_totals.
    + done.
  - eapply linked_later; [| |exact Hlater|exact IH]; rewrite H;
      cbn [fst merchant_graph set_graph transaction_graph].
    + apply edges_after_merchant_peer.
    + done.
  - eapply linked_later; [| |exact Hlater|exact IH]; rewrite H;
      cbn [fst merchant_graph set_graph transaction_graph].
    + apply edges_after_user_totals.
    + done.
  - eapply linked_later; [| |exact Hlater|exact IH]; rewrite H;
      cbn [fst merchant_graph set_graph transaction_graph].
    + apply edges_after_user_peer.
    + done.
  - rewrite H in Hlater |- *. cbn [fst] in *. intros x y. cbv zeta.
    cbn [merchant_graph transaction_graph] in *.
    rewrite lookup_edges_after_add by by apply run_no_reversed_edge.
    specialize (IH x y). cbv zeta in IH.
    assert (u ≠ m) as Hne by apply Hfit.
    destruct (decide ((x, y) = (u, m))) as [[= -> ->]|Hxy].
    + split.
      * eexists _, _. rewrite !lookup_after_add by done.
        rewrite decide_False, !decide_True by done.
        split; [done|]. split; [done|]. simpl.
        repeat split; try (apply elem_of_union_l, elem_of_singleton; reflexivity).
        all: destruct (edges _ !! (u, m)); simpl; lia.
      * eexists. cbn. rewrite lookup_insert_eq. split; [done|].
        destruct (edges _ !! (u, m)); simpl; [|done].
        split; [done|]. by rewrite last_snoc.
    + cbn [di_add_edge d_arcs]. rewrite lookup_insert_ne by done.
      destruct (edges _ !! (x, y)) as [e|]; [|done].
      destruct IH as [(da & db & Ha & Hb & Hab & Hba & Hta & Htb) Harc]. split; [|done].
      destruct (Hlater x da Ha) as (da' & Ha' & [(_ & _ & ? & _) Hsa]).
      destruct (Hlater y db Hb) as (db' & Hb' & [(_ & _ & ? & _) Hsb]).
      exists da', db'. repeat split; try done; try lia; [by apply Hsa|by apply Hsb].
Qed.



(** X9. In every history of calls the directed graph mirrors the edges:
    there is an arc from [a] to [b] exactly when there is an edge stored
    for [(a, b)], and the arc carries the time and the amount of the last
    transaction of the edge. *)
Theorem arcs_mirror_edges cs a b :
  match d_arcs (transaction_graph (run cs)) !! (a, b) with
  | Some arc =>
      ∃ e, edges (merchant_graph (run cs)) !! (a, b) = Some e ∧
           Arc.timestamp arc = Edge.last_transaction e ∧
           last (Edge.amounts e) = Some (Arc.amount arc)
  | None => edges (merchant_graph (run cs)) !! (a, b) = None
  end.
Proof.
  pose proof (run_linked cs a b) as Hl. cbv zeta in Hl.
  destruct (edges _ !! (a, b)) as [e|].
  - destruct Hl as [_ (arc & -> & ? & ?)]. eauto.
  - by rewrite Hl.
Qed.

(** ** Paths of the directed graph *)

(** An arc starts at a user node. *)
Lemma arc_from_user cs a b :
  arc (transaction_graph (run cs)) a b →
  kind_of (merchant_graph (run cs)) a = Some User.
Proof.
  intros [x Hx]. pose proof (run_linked cs a b) as Hl. pose proof (run_ledger cs a b) as Hg.
  cbv zeta in Hl, Hg. destruct (edges _ !! (a, b)) as [e|].
  - by destruct Hg as (? & _).
  - congruence.
Qed.

Lemma no_path_from_merchant cs m u :
  u ≠ m →
  kind_of (merchant_graph (run cs)) m ≠ Some User →
  ¬ path (transaction_graph (run cs)) m u.
Proof.
  intros Hne Hk Hp. destruct Hp as [|m c u Harc _]; [done|].
  by apply arc_from_user in Harc.
Qed.

(** X10. In every history of calls, the directed graph has no path from
    an identity that is not a user node to another identity: every arc
    starts at a user node. So the search for a circular pattern finds
    nothing for a merchant and a user, whenever the path routine answers
    True only for a path there is. *)
Theorem no_circular_pattern_for_a_merchant cs lib u m :
  u ≠ m →
  kind_of (merchant_graph (run cs)) m ≠ Some User →
  ¬ path (transaction_graph (run cs)) m u ∧
  ((has_path lib (transaction_graph (run cs)) m u = Return true →
    path (transaction_graph (run cs)) m u) →
   _detect_circular_pattern lib (transaction_graph (run cs)) u m = false).
Proof.
  intros Hne Hk. pose proof (no_path_from_merchant cs m u Hne Hk) as Hp.
  split; [done|]. intros Hs. unfold _detect_circular_pattern.
  destruct (has_path lib _ m u) as [[]|]; try done.
  exfalso. by apply Hp, Hs.
Qed.

Lemma no_circular_pattern_for_a_merchant_witness :
  _detect_circular_pattern calm_lib
    (transaction_graph (run [Record "U1" "M1" ten 0 None; Record "U1" "M2" ten 0 None]))
    "U1" "M1" = false.
Proof.
  apply (no_circular_pattern_for_a_merchant
           [Record "U1" "M1" ten 0 None; Record "U1" "M2" ten 0 None] calm_lib "U1" "M1").
  - done.
  - vm_compute. congruence.
  - done.
Defined.

(** ** The anomalies of a merchant *)

(** X11. Whatever the library answers and whatever the graph holds, the
    anomalies of a merchant are at most four, one of each type and in the
    order the types are looked for; without a user no circular pattern
    is reported. So the anomalies add at most 0.4 to the score. *)
Theorem anomalies_one_of_each_type lib self m u :
  sublist (anomaly_type <$> _detect_network_anomalies lib self m u) anomaly_types ∧
  (length (_detect_network_anomalies lib self m u) ≤ 4)%nat ∧
  (truthy u = false →
   "circular_transactions" ∉ anomaly_type <$> _detect_network_anomalies lib self m u) ∧
  Float.leb (Float.mul (Float.of_Z (Z.of_nat (length (_detect_network_anomalies lib self m u))))
                       (Float.lit 1 10))
            (Float.lit 4 10) = true.
Proof.
  unfold _detect_network_anomalies.
  destruct (truthy u); cbn [andb];
    try destruct (_detect_circular_pattern _ _ _ _);
    destruct (_detect_burst_pattern _ _) as [[]|];
    try destruct (5 <? _); try destruct (_is_isolated_cluster _ _ _);
    (split; [cbn; unfold anomaly_types;
             repeat first [apply sublist_nil_l | apply sublist_skip | apply sublist_cons]|]);
    (split; [cbn; lia|]);
    (split; [cbn; try done; intros _;
             repeat (apply not_elem_of_cons; split; [done|]); apply not_elem_of_nil|]);
    vm_compute; reflexivity.
Qed.

(** ** What the cache holds *)

(** The analysis of a merchant that has a node, when it returns. *)
Lemma analysis_body_known lib self m u stored self' r :
  has_node (merchant_graph self) m = true →
  analysis_body lib self m u stored = Return (self', r) →
  ∃ a, r = Analysis a ∧ merchant_id a = m ∧ complete a ∧
       centrality_metrics a = Some (_analyze_centrality lib (merchant_graph self) m) ∧
       clustering_metrics a = Some (_analyze_clustering lib (merchant_graph self) m) ∧
       velocity_metrics a = Some (_analyze_velocity lib (merchant_graph self) m) ∧
       network_anomalies a = _detect_network_anomalies lib self m u ∧
       self' = mkAnalyzer (merchant_graph self) (transaction_graph self)
                 (<[cache_key m u := (r, stored)]> (risk_cache self)).
Proof.
  intros Hn. unfold analysis_body. rewrite Hn.
  apply has_node_true in Hn as [d Hd]. unfold node_data. rewrite Hd.
  cbn [negb mbind outcome_bind].
  destruct (truthy u).
  - destruct (_analyze_user_merchant_relationship _ _ _ _) as [rel|] eqn:Hrel;
      cbn [mbind outcome_bind]; [|done].
    intros [= <- <-]. eexists. split; [done|].
    cbn [merchant_id centrality_metrics clustering_metrics velocity_metrics
         network_anomalies].
    repeat split; try done; cbn; eauto using clamp_in_unit.
  - cbn [mbind outcome_bind]. intros [= <- <-]. eexists. split; [done|].
    cbn [merchant_id centrality_metrics clustering_metrics velocity_metrics
         network_anomalies].
    repeat split; try done; cbn; eauto using clamp_in_unit.
Qed.

Lemma has_node_grows g g' n : grows g g' → has_node g n = true → has_node g' n = true.
Proof.
  intros [Hg _]. rewrite !has_node_true. intros [d Hd].
  destruct (Hg n d Hd) as (d' & Hd' & _). eauto.
Qed.

Lemma run_cache_sound cs : cache_sound (run cs).
Proof.
  apply (run_ind cache_sound).
  - intros k r t. unfold init; simpl. by rewrite lookup_empty.
  - intros s [u m a t md|lib m u now stored] IH; cbn [step].
    + intros k r t' Hk. apply add_cache_lookup in Hk.
      destruct (IH k r t' Hk) as (x & u' & -> & -> & Hn & Hc).
      exists x, u'. do 2 (split; [done|]). split; [|done].
      eapply has_node_grows; [apply add_grows|done].
    + destruct (analyze_cases lib m u now stored s)
        as (s' & r & -> & Hg & _ & [[_ ->]|[_ [(_ & _ & ->)|[(e & _ & _ & ->)|H]]]]);
        cbn [fst]; try done.
      destruct H as (Hn & a & x & -> & Hm & _ & Hb & Hc).
      intros k r t. rewrite Hc, Hg. destruct (decide (k = cache_key m u)) as [->|Hne].
      * rewrite lookup_insert_eq. intros [= <- <-].
        destruct (analysis_body_known _ _ _ _ _ _ _ Hn Hb) as (a' & [= <-] & _ & Hcomp & _).
        exists a, u. rewrite Hm. done.
      * rewrite lookup_insert_ne by done. apply IH.
Qed.

(** X12. In every history of calls, a cached result is a complete
    analysis, with a score between 0 and 1, of a merchant that has a
    node, stored under the key of a question about that merchant: the
    answer for an unknown merchant and the answer of the exception
    handler are never cached. *)
Theorem cache_holds_complete_analyses cs k r t :
  risk_cache (run cs) !! k = Some (r, t) →
  ∃ a u, r = Analysis a ∧ k = cache_key (merchant_id a) u ∧
         has_node (merchant_graph (run cs)) (merchant_id a) = true ∧
         is_Some (centrality_metrics a) ∧ is_Some (clustering_metrics a) ∧
         is_Some (velocity_metrics a) ∧ in_unit (risk_score a) = true ∧
         recommendations a = _generate_recommendations (risk_score a) (factors a).
Proof. apply run_cache_sound. Qed.

Lemma cache_holds_complete_analyses_witness :
  let cs := [Record "U1" "M1" ten 0 None; Analyze calm_lib "M1" None 0 0] in
  ∃ r, fst <$> risk_cache (run cs) !! "merchant_risk_M1_none" = Some r ∧
       result_merchant r = "M1".
Proof.
  intros cs.
  destruct (risk_cache (run cs) !! "merchant_risk_M1_none") as [[r t]|] eqn:Hr;
    [|by vm_compute in Hr].
  destruct (cache_holds_complete_analyses cs _ r t Hr) as (a & u & -> & Hk & _).
  exists (Analysis a). split; [done|]. simpl.
  vm_compute in Hr. injection Hr as <- _. reflexivity.
Defined.

(** ** When the handler answers *)

Lemma relationship_raises lib g u m e :
  _analyze_user_merchant_relationship lib g u m = Raise e →
  ∃ ed, get_edge g u m = Some ed ∧
        ((Edge.transaction_count ed = 0%nat ∧ e = ZeroDivisionError) ∨
         ((1 < length (Edge.amounts ed))%nat ∧ np_var lib (Edge.amounts ed) = Raise e)).
Proof.
  unfold _analyze_user_merchant_relationship.
  destruct (get_edge g u m) as [ed|]; [|done]. intros H. exists ed. split; [done|].
  revert H. unfold float_div_int.
  destruct (Z.eqb_spec (Z.of_nat (Edge.transaction_count ed)) 0) as [H0|H0].
  { intros [= <-]. left. split; [lia|done]. }
  cbn [mbind outcome_bind].
  destruct (Z.ltb_spec 1 (Z.of_nat (length (Edge.amounts ed)))) as [H1|H1].
  - destruct (np_var lib (Edge.amounts ed)) as [v|e'] eqn:Hv.
    + cbn [mbind outcome_bind].
      repeat match goal with
             | |- context [if ?c then (_, _) else (_, _)] => destruct c
             end; done.
    + destruct (50 <? _); cbn [mbind outcome_bind]; intros [= <-]; right; split; (lia || done).
  - repeat match goal with
           | |- context [if ?c then (_, _) else (_, _)] => destruct c
           end; done.
Qed.

Lemma run_edge_sound cs u m e :
  get_edge (merchant_graph (run cs)) u m = Some e → edge_sound e.
Proof.
  unfold get_edge. intros H.
  pose proof (run_ledger cs u m) as H1. pose proof (run_ledger cs m u) as H2.
  cbv zeta in H1, H2.
  destruct (edges _ !! (u, m)) as [e1|].
  - injection H as <-. by destruct H1 as (_ & _ & ? & _).
  - rewrite H in H2. by destruct H2 as (_ & _ & ? & _).
Qed.

(** X13. In every history of calls, [analyze_merchant_risk] answers with
    the result of its exception handler only when the variance routine
    raises on the amounts of the edge between the user and the merchant,
    of which there are at least two: no division by zero and no missing
    key reaches the handler, and the handler's answer never comes from
    the cache. *)
Theorem degraded_only_when_variance_raises cs lib m u now stored m' s fs err :
  (analyze_merchant_risk lib m u now stored (run cs)).2 = Return (Degraded m' s fs err) →
  ∃ ed e,
    get_edge (merchant_graph (run cs)) (default "" u) m = Some ed ∧
    (2 ≤ length (Edge.amounts ed))%nat ∧
    np_var lib (Edge.amounts ed) = Raise e ∧
    m' = m ∧ s = Float.lit 5 10 ∧ fs = ["Analysis error"] ∧ err = exn_str e.
Proof.
  destruct (analyze_cases lib m u now stored (run cs))
    as (s' & r & -> & _ & _ & [[Hc _]|[_ [(_ & -> & _)|[(e & Hb & -> & _)|H]]]]);
    cbn [snd]; intros Hr; try done.
  - injection Hr as ->. apply cache_check_Some in Hc as (t & Hc & _).
    destruct (run_cache_sound cs _ _ _ Hc) as (a & u' & ? & _). done.
  - apply analysis_body_raises in Hb as (_ & _ & Hrel).
    apply relationship_raises in Hrel as (ed & Hed & [[Hzero _]|[Hlen Hv]]).
    + destruct (run_edge_sound cs _ _ _ Hed) as (Hne & Hcount & _).
      rewrite Hzero in Hcount. by destruct (Edge.amounts ed).
    + unfold analysis_error in Hr. injection Hr as <- <- <- <-.
      exists ed, e. repeat split; done.
  - by destruct H as (_ & a & x & -> & _).
Qed.

Lemma degraded_only_when_variance_raises_witness :
  let cs := [Record "U1" "M1" ten 0 None; Record "U1" "M1" ten 0 None] in
  ∃ e, np_var broken_lib [ten; ten] = Raise e ∧
       (analyze_merchant_risk broken_lib "M1" (Some "U1") 0 0 (run cs)).2 =
       Return (Degraded "M1" (Float.lit 5 10) ["Analysis error"] (exn_str e)).
Proof.
  intros cs.
  destruct (degraded_only_when_variance_raises cs broken_lib "M1" (Some "U1") 0 0
              "M1" (Float.lit 5 10) ["Analysis error"] "unavailable")
    as (ed & e & Hed & _ & Hv & _ & _ & _ & He).
  - vm_compute. reflexivity.
  - exists (LibraryError "unavailable"). split; [done|]. vm_compute. reflexivity.
Defined.

(** ** Asking again *)



(** X15. The cache after a call of [add_transaction_edge]: a call that
    returns leaves exactly the entries whose keys contain neither of the
    two identities, unchanged; a call that raises leaves the whole cache
    as it was, although it has already counted the transaction on the
    merchant node. *)
Theorem cache_after_record u m a t md self :
  (∀ k v, risk_cache (add_transaction_edge u m a t md self).1 !! k = Some v ↔
          risk_cache self !! k = Some v ∧
          ((add_transaction_edge u m a t md self).2 = Return () →
           is_substring m k = false ∧ is_substring u k = false)) ∧
  (∀ e, (add_transaction_edge u m a t md self).2 = Raise e →
   risk_cache (add_transaction_edge u m a t md self).1 = risk_cache self ∧
   ∃ d', nodes (merchant_graph (add_transaction_edge u m a t md self).1) !! m = Some d' ∧
         (default 0%nat (Node.total_transactions <$> nodes (merchant_graph self) !! m)
          < Node.total_transactions d')%nat).
Proof.
  pose proof (add_cache u m a t md self) as Hc. cbv zeta in Hc.
  destruct (add_ends u m a t md self)
    as [[Hm H]|[(Hm & H)|[(Hm & Hu & H)|[(Hm & Hne & H)|(Hfit & _ & H)]]]];
    cbv zeta in H; rewrite H in *; cbn [fst snd merchant_graph set_graph] in *.
  - split; [intros k v; rewrite Hc; split; [by intros ?|by intros []]|].
    intros e _. split; [done|]. eexists.
    rewrite lookup_after_merchant_totals, decide_True by done. split; [done|].
    unfold node_before. destruct (nodes _ !! m); simpl; lia.
  - split; [intros k v; rewrite Hc; split; [by intros ?|by intros []]|].
    intros e _. split; [done|]. eexists.
    rewrite lookup_after_merchant_peer, decide_True by done. split; [done|].
    unfold node_before. destruct (nodes _ !! m); simpl; lia.
  - split; [intros k v; rewrite Hc; split; [by intros ?|by intros []]|].
    intros e _. split; [done|]. eexists.
    rewrite lookup_after_user_totals, decide_True by done. split; [done|].
    unfold node_before. destruct (decide (u = m)), (nodes _ !! m); simpl; lia.
  - split; [intros k v; rewrite Hc; split; [by intros ?|by intros []]|].
    intros e _. split; [done|]. eexists.
    rewrite lookup_after_user_peer, decide_True by done. split; [done|].
    unfold node_before. destruct (nodes _ !! m); simpl; lia.
  - split; [|done]. intros k v. rewrite Hc, invalidate_lookup_Some.
    split; [intros (? & ? & ?); done|]. intros [? Hs]. by destruct Hs.
Qed.

(** ** The transactions router *)

Lemma asked_only_snoc cs c : asked_only (cs ++ [c]) ↔ asked_only cs ∧ asked_only [c].
Proof. unfold asked_only. by rewrite Forall_app. Qed.

Lemma init_no_node m : has_node (merchant_graph init) m = false.
Proof. apply has_node_false. unfold init; simpl. apply lookup_empty. Qed.

Lemma init_no_cache key now : cache_check init key now = None.
Proof.
  unfold cache_check, init. cbn [risk_cache]. unfold datetime.
  by rewrite lookup_empty.
Qed.

(** An analyzer that is only asked stays new. *)
Lemma asked_only_init cs : asked_only cs → run cs = init.
Proof.
  induction cs as [|c cs IH] using rev_ind; [done|].
  rewrite asked_only_snoc, run_snoc. intros [Hcs Hc]. rewrite (IH Hcs).
  unfold asked_only in Hc. apply Forall_inv in Hc.
  destruct c as [? ? ? ? ?|lib m u now stored]; [destruct Hc|].
  cbn [step]. by rewrite (unknown_merchant_floor lib m u now stored init)
    by (apply init_no_node || apply init_no_cache).
Qed.

(** X16. The routers ask the analyzer and never record a transaction
    with it. In such a history the analyzer stays as new, so the scoring
    of a transaction always gets the graph risk 0.1 with the one factor
    "Unknown merchant", whatever the library: the transaction is flagged
    exactly when its fraud score is above 0.7. *)
Theorem router_graph_risk_is_constant cs lib u m score now stored :
  asked_only cs →
  run cs = init ∧
  score_transaction lib u m score now stored (run cs) =
    (run cs,
     Return (mkFraudScore score (Float.lit 1 10) (Float.ltb (Float.lit 7 10) score)
               (if Float.ltb (Float.lit 7 10) score then "flagged" else "cleared")
               ["Unknown merchant"])).
Proof.
  intros Hcs. rewrite (asked_only_init cs Hcs). split; [done|].
  unfold score_transaction.
  rewrite (unknown_merchant_floor lib m (Some u) now stored init)
    by (apply init_no_node || apply init_no_cache).
  cbn [mbind outcome_bind]. unfold is_flagged. cbn [result_score unknown_merchant risk_score].
  replace (Float.ltb (Float.lit 8 10) (Float.lit 1 10)) with false by (vm_compute; done).
  by rewrite orb_false_r.
Qed.

Lemma router_graph_risk_is_constant_witness :
  (score_transaction broken_lib "U1" "M1" (Float.lit 75 100) (seconds 5) (seconds 5)
     (run [Analyze calm_lib "M1" (Some "U1") 0 0;
           Analyze calm_lib "M1" (Some "U2") (seconds 1) (seconds 1)])).2 =
  Return (mkFraudScore (Float.lit 75 100) (Float.lit 1 10) true "flagged"
            ["Unknown merchant"]).
Proof.
  destruct (router_graph_risk_is_constant
              [Analyze calm_lib "M1" (Some "U1") 0 0;
               Analyze calm_lib "M1" (Some "U2") (seconds 1) (seconds 1)]
              broken_lib "U1" "M1" (Float.lit 75 100) (seconds 5) (seconds 5)) as [_ H].
  - repeat constructor.
  - rewrite H. vm_compute. reflexivity.
Defined.

(** ** A score without factors *)

Ltac unexplained :=
  repeat first
    [ progress cbn [or_else mbind outcome_bind sub_factors risk_contribution app]
    | match goal with
      | |- context [if ?c then (_, _) else (_, _)] => destruct c
      end ];
  first [ reflexivity | by intros [=] ].

Lemma centrality_unexplained lib g m :
  sub_factors (_analyze_centrality lib g m) = [] →
  risk_contribution (_analyze_centrality lib g m) = Float.zero.
Proof.
  unfold _analyze_centrality.
  match goal with |- context [or_else (mbind _ ?c) _] => destruct c as [[[deg bet] clo]|] end;
    cbn [or_else mbind outcome_bind]; [|done].
  unexplained.
Qed.

Lemma clustering_unexplained lib g m :
  sub_factors (_analyze_clustering lib g m) = [] →
  risk_contribution (_analyze_clustering lib g m) = Float.zero.
Proof.
  unfold _analyze_clustering.
  destruct (clustering lib g m) as [c|]; cbn [or_else mbind outcome_bind]; [|done].
  destruct (average_clustering lib g) as [ac|]; cbn [or_else mbind outcome_bind]; [|done].
  destruct (connected_components lib g) as [cc|]; cbn [or_else mbind outcome_bind]; [|done].
  unexplained.
Qed.

Lemma velocity_unexplained lib g m :
  sub_factors (_analyze_velocity lib g m) = [] →
  risk_contribution (_analyze_velocity lib g m) = Float.zero.
Proof.
  unfold _analyze_velocity, velocity_body.
  destruct (negb (has_node g m)); [done|].
  destruct (node_data g m) as [d|]; cbn [or_else mbind outcome_bind]; [|done].
  destruct (int_div_float _ _) as [tph|]; cbn [or_else mbind outcome_bind]; [|done].
  destruct (py_div _ _) as [aph|]; cbn [or_else mbind outcome_bind]; [|done].
  destruct (node_peers _ _) as [cs|]; cbn [or_else mbind outcome_bind]; [|done].
  destruct (float_div_int _ _) as [avg|]; cbn [or_else mbind outcome_bind]; [|done].
  destruct (int_true_div _ _) as [ratio|].
  2:{ repeat match goal with
             | |- context [if ?c then (_, _) else (_, _)] => destruct c
             end; done. }
  unexplained.
Qed.

Lemma relationship_unexplained lib g u m r :
  _analyze_user_merchant_relationship lib g u m = Return r →
  sub_factors r = [] → risk_contribution r = Float.zero.
Proof.
  unfold _analyze_user_merchant_relationship.
  destruct (get_edge g u m) as [e|]; [|by intros [= <-]].
  destruct (float_div_int _ _) as [avg|]; cbn [mbind outcome_bind]; [|by intros [=]].
  destruct (50 <? _), (1 <? _); cbn [mbind outcome_bind].
  all: try (destruct (np_var lib _) as [v|]; cbn [mbind outcome_bind]; [|by intros [=]]).
  all: repeat match goal with
              | |- context [if ?c then (_, _) else (_, _)] => destruct c
              end.
  all: intros [= <-]; unexplained.
Qed.

Lemma anomaly_risk_values (n : nat) :
  (n ≤ 4)%nat →
  let x := Float.mul (Float.of_Z (Z.of_nat n)) (Float.lit 1 10) in
  clamp (Float.add (Float.add (Float.add (Float.add Float.zero Float.zero) Float.zero)
                      Float.zero) x) = x ∧
  clamp (Float.add (Float.add (Float.add (Float.add (Float.add Float.zero Float.zero)
                      Float.zero) Float.zero) x) Float.zero) = x.
Proof.
  intros Hn. destruct n as [|[|[|[|[|n]]]]]; try lia; vm_compute; done.
Qed.

(** X17. An analysis that ran to its end without giving a factor owes
    its score to the anomalies alone: the score is 0.1 for each anomaly,
    rounded as the product is, and there are at most four; without an
    anomaly either, the score is 0.0. *)
Theorem score_without_factors lib self m u stored self' a :
  has_node (merchant_graph self) m = true →
  analysis_body lib self m u stored = Return (self', Analysis a) →
  factors a = [] →
  risk_score a =
    Float.mul (Float.of_Z (Z.of_nat (length (network_anomalies a)))) (Float.lit 1 10) ∧
  (length (network_anomalies a) ≤ 4)%nat ∧
  (network_anomalies a = [] → risk_score a = Float.zero).
Proof.
  intros Hn. unfold analysis_body. rewrite Hn.
  apply has_node_true in Hn as [d Hd]. unfold node_data. rewrite Hd.
  cbn [negb mbind outcome_bind].
  pose proof (centrality_unexplained lib (merchant_graph self) m) as H1.
  pose proof (clustering_unexplained lib (merchant_graph self) m) as H2.
  pose proof (velocity_unexplained lib (merchant_graph self) m) as H3.
  assert (length (_detect_network_anomalies lib self m u) ≤ 4)%nat as H4.
  { unfold _detect_network_anomalies.
    destruct (truthy u); cbn [andb];
      try destruct (_detect_circular_pattern _ _ _ _);
      destruct (_detect_burst_pattern _ _) as [[]|];
      try destruct (5 <? _); try destruct (_is_isolated_cluster _ _ _); cbn; lia. }
  destruct (anomaly_risk_values _ H4) as [Hx Hy]. cbv zeta in Hx, Hy.
  destruct (truthy u).
  - destruct (_analyze_user_merchant_relationship _ _ _ _) as [rel|] eqn:Hrel;
      cbn [mbind outcome_bind]; [|done].
    intros [= _ <-]. cbn [factors risk_score network_anomalies]. intros Hf.
    apply app_eq_nil in Hf as [Hf Hf4]. apply app_eq_nil in Hf as [Hf Hf3].
    apply app_eq_nil in Hf as [Hf Hf2]. cbn [app] in Hf.
    rewrite (H1 Hf), (H2 Hf2), (H3 Hf3), (relationship_unexplained _ _ _ _ _ Hrel Hf4).
    split; [exact Hy|]. split; [done|]. intros Ha. rewrite Ha in Hy |- *.
    etrans; [exact Hy|]. vm_compute. reflexivity.
  - cbn [mbind outcome_bind].
    intros [= _ <-]. cbn [factors risk_score network_anomalies]. intros Hf.
    apply app_eq_nil in Hf as [Hf Hf3]. apply app_eq_nil in Hf as [Hf Hf2].
    cbn [app] in Hf.
    rewrite (H1 Hf), (H2 Hf2), (H3 Hf3).
    split; [exact Hx|]. split; [done|]. intros Ha. rewrite Ha in Hx |- *.
    etrans; [exact Hx|]. vm_compute. reflexivity.
Qed.

Lemma score_without_factors_witness :
  let self := run [Record "U1" "M1" ten 0 None] in
  ∃ self' a, analysis_body calm_lib self "M1" None 0 = Return (self', Analysis a) ∧
             anomaly_type <$> network_anomalies a = ["isolated_cluster"] ∧
             risk_score a = Float.lit 1 10.
Proof.
  intros self.
  destruct (analysis_body calm_lib self "M1" None 0) as [[self' [a|]]|] eqn:Hb;
    [|by vm_compute in Hb..].
  destruct (score_without_factors calm_lib self "M1" None 0 self' a) as (Hs & _ & _).
  - vm_compute. reflexivity.
  - exact Hb.
  - vm_compute in Hb. by injection Hb as _ <-.
  - exists self', a. split; [done|]. rewrite Hs.
    vm_compute in Hb. injection Hb as _ <-. split; vm_compute; reflexivity.
Defined.

(** ** Recommendations *)

Lemma elem_of_factor_recommendations r fs :
  r ∈ concat (map factor_recommendation fs) ↔ ∃ f, f ∈ fs ∧ r ∈ factor_recommendation f.
Proof.
  induction fs as [|f fs IH]; simpl.
  - split; [by intros ?%elem_of_nil|]. by intros (f & ?%elem_of_nil & _).
  - rewrite elem_of_app, IH. split.
    + intros [H|(f' & Hf' & H)]; [exists f|exists f']; split; try done; by constructor.
    + intros (f' & Hf' & H). apply elem_of_cons in Hf' as [->|Hf']; eauto.
Qed.

Lemma length_factor_recommendations fs :
  (length (concat (map factor_recommendation fs)) ≤ length fs)%nat.
Proof.
  induction fs as [|f fs IH]; simpl; [done|]. rewrite length_app.
  assert (length (factor_recommendation f) ≤ 1)%nat; [|lia].
  unfold factor_recommendation. repeat (destruct (is_substring _ f); [simpl; lia|]).
  simpl; lia.
Qed.

(** X18. The recommendations are never empty: one to three for the level
    of the score, then at most one for each factor. The hub
    recommendation is given exactly when a factor mentions a high degree
    centrality, and the velocity one exactly when a factor mentions a
    high transaction velocity and no high degree centrality. *)
Theorem recommendations_follow_factors score fs :
  (1 ≤ length (_generate_recommendations score fs) ≤ 3 + length fs)%nat ∧
  ("Monitor for potential money laundering hub activity"
     ∈ _generate_recommendations score fs ↔
   ∃ f, f ∈ fs ∧ is_substring "High degree centrality" f = true) ∧
  ("Implement velocity-based transaction limits"
     ∈ _generate_recommendations score fs ↔
   ∃ f, f ∈ fs ∧ is_substring "High degree centrality" f = false ∧
        is_substring "High transaction velocity" f = true).
Proof.
  unfold _generate_recommendations.
  pose proof (length_factor_recommendations fs) as Hlen.
  split; [|split].
  - rewrite length_app.
    repeat match goal with |- context [if ?c then _ else _] => destruct c end;
      simpl; lia.
  - rewrite elem_of_app, elem_of_factor_recommendations. split.
    + intros [H|(f & Hf & H)].
      * exfalso. revert H.
        repeat match goal with |- context [if ?c then _ else _] => destruct c end;
          rewrite ?elem_of_cons, elem_of_nil; intros H; repeat destruct H as [H|H]; done.
      * exists f. split; [done|]. revert H. unfold factor_recommendation.
        destruct (is_substring "High degree centrality" f); [done|].
        repeat match goal with |- context [if ?c then _ else _] => destruct c end;
          rewrite ?elem_of_cons, elem_of_nil; intros H; repeat destruct H as [H|H]; done.
    + intros (f & Hf & H). right. exists f. split; [done|].
      unfold factor_recommendation. rewrite H. by constructor.
  - rewrite elem_of_app, elem_of_factor_recommendations. split.
    + intros [H|(f & Hf & H)].
      * exfalso. revert H.
        repeat match goal with |- context [if ?c then _ else _] => destruct c end;
          rewrite ?elem_of_cons, elem_of_nil; intros H; repeat destruct H as [H|H]; done.
      * exists f. split; [done|]. revert H. unfold factor_recommendation.
        destruct (is_substring "High degree centrality" f);
          [rewrite ?elem_of_cons, elem_of_nil; intros H; repeat destruct H as [H|H]; done|].
        destruct (is_substring "High transaction velocity" f); [done|].
        repeat match goal with |- context [if ?c then _ else _] => destruct c end;
          rewrite ?elem_of_cons, elem_of_nil; intros H; repeat destruct H as [H|H]; done.
    + intros (f & Hf & H1 & H2). right. exists f. split; [done|].
      unfold factor_recommendation. rewrite H1, H2. by constructor.
Qed.

(** ** Network statistics *)

Lemma count_nodes_split g :
  (count_nodes Merchant g + count_nodes User g)%nat = size (nodes g).
Proof.
  unfold count_nodes. rewrite <- length_map_to_list.
  induction (map_to_list (nodes g)) as [|[n d] l IH]; [done|].
  rewrite !filter_cons. cbn [snd].
  destruct (Node.node_type d);
    repeat (case_decide; try done); simpl; lia.
Qed.

Lemma count_nodes_pos k g n d :
  nodes g !! n = Some d → Node.node_type d = k → (1 ≤ count_nodes k g)%nat.
Proof.
  intros Hd Hk. unfold count_nodes.
  assert ((n, d) ∈ filter (λ nd, Node.node_type nd.2 = k) (map_to_list (nodes g))) as Hin.
  { apply list_elem_of_filter. split; [done|]. by apply elem_of_map_to_list. }
  destruct (filter _ _); [by apply elem_of_nil in Hin|simpl; lia].
Qed.

(** A call leaves a node for the merchant's identity, of the type the
    identity had, or a merchant node if it had none. *)
Lemma add_merchant_node u m a t md self :
  ∃ d', nodes (merchant_graph (add_transaction_edge u m a t md self).1) !! m = Some d' ∧
        Node.node_type d' = Node.node_type (node_before Merchant t (merchant_graph self) m).
Proof.
  destruct (add_ends u m a t md self)
    as [[Hm H]|[(Hm & H)|[(Hm & Hu & H)|[(Hm & Hne & H)|(Hfit & _ & H)]]]];
    cbv zeta in H; rewrite H; cbn [fst merchant_graph set_graph].
  - rewrite lookup_after_merchant_totals, decide_True by done. eauto.
  - rewrite lookup_after_merchant_peer, decide_True by done. eauto.
  - rewrite lookup_after_user_totals, decide_True by done.
    eexists. split; [done|]. by destruct (decide (u = m)).
  - rewrite lookup_after_user_peer, decide_True by done. eauto.
  - rewrite lookup_after_add, decide_True by (done || apply Hfit). eauto.
Qed.

(** A graph with a node has a merchant node. *)
Lemma run_has_merchant cs :
  nodes (merchant_graph (run cs)) = ∅ ∨
  ∃ n d, nodes (merchant_graph (run cs)) !! n = Some d ∧ Node.node_type d = Merchant.
Proof.
  apply (run_ind (λ s, nodes (merchant_graph s) = ∅ ∨
                       ∃ n d, nodes (merchant_graph s) !! n = Some d ∧
                              Node.node_type d = Merchant)).
  - by left.
  - intros s [u m a t md|lib m u now stored] IH; cbn [step].
    2:{ by rewrite analyze_graph. }
    right. destruct IH as [He|(n & d & Hd & Hk)].
    + destruct (add_merchant_node u m a t md s) as (d' & Hd' & Hk').
      exists m, d'. split; [done|]. rewrite Hk'. unfold node_before.
      by rewrite He, lookup_empty.
    + destruct (add_node_later u m a t md s n d Hd) as (d' & Hd' & [([Hk' _] & _) _]).
      exists n, d'. split; [done|]. congruence.
Qed.

(** X19. The statistics of the graph of a history, when the library
    routines return: every node is counted as a merchant or as a user;
    a graph with a node has a merchant node, and a graph with an edge
    has a user node too. A new analyzer has no node and no edge. *)
Theorem network_stats_counts cs lib slib s :
  get_network_stats lib slib (run cs) = Return s →
  total_nodes s = (merchant_nodes s + user_nodes s)%nat ∧
  (total_nodes s = 0%nat ∨ (1 ≤ merchant_nodes s)%nat) ∧
  (total_edges s = 0%nat ∨ (1 ≤ merchant_nodes s)%nat ∧ (1 ≤ user_nodes s)%nat) ∧
  (cs = [] → total_nodes s = 0%nat ∧ total_edges s = 0%nat).
Proof.
  unfold get_network_stats.
  destruct (number_connected_components slib _) as [ncc|]; [|done].
  destruct (average_clustering lib _) as [ac|]; [|done].
  destruct (density slib _) as [dn|]; [|done].
  cbn [mbind outcome_bind]. intros [= <-]. cbn.
  split; [by rewrite count_nodes_split|]. split; [|split].
  - destruct (run_has_merchant cs) as [->|(n & d & Hd & Hk)]; [by left|right].
    by eapply count_nodes_pos.
  - destruct (map_to_list (edges (merchant_graph (run cs)))) as [|[[a b] e] l] eqn:Hl.
    + left. apply map_to_list_empty_iff in Hl. by rewrite Hl.
    + right.
      assert (edges (merchant_graph (run cs)) !! (a, b) = Some e) as He.
      { apply elem_of_map_to_list. rewrite Hl. by left. }
      pose proof (run_ledger cs a b) as Hg. cbv zeta in Hg. rewrite He in Hg.
      destruct Hg as (Ha & Hb & _). unfold kind_of in Ha, Hb.
      destruct (nodes _ !! a) as [da|] eqn:Hda; [|done].
      destruct (nodes _ !! b) as [db|] eqn:Hdb; [|done].
      simpl in Ha, Hb. split.
      * apply (count_nodes_pos _ _ b db Hdb). congruence.
      * apply (count_nodes_pos _ _ a da Hda). congruence.
  - by intros ->.
Qed.

Lemma network_stats_counts_witness :
  let slib := mkStatsLib (λ _, Return 1%nat) (λ _, Return Float.one) in
  let cs := [Record "U1" "M1" ten 0 None; Record "U2" "M1" ten 0 None] in
  ∃ s, get_network_stats calm_lib slib (run cs) = Return s ∧
       total_nodes s = 3%nat ∧ merchant_nodes s = 1%nat ∧ user_nodes s = 2%nat.
Proof.
  intros slib cs.
  destruct (get_network_stats calm_lib slib (run cs)) as [s|] eqn:Hs;
    [|by vm_compute in Hs].
  destruct (network_stats_counts cs calm_lib slib s Hs) as (H1 & _).
  exists s. split; [done|]. vm_compute in Hs. injection Hs as <-.
  vm_compute. done.
Defined.

(** ** Neighbours and merchant chains *)

Lemma elem_of_neighbors g n x :
  x ∈ neighbors g n ↔ is_Some (edges g !! (n, x)) ∨ is_Some (edges g !! (x, n)).
Proof.
  unfold neighbors. rewrite list_elem_of_omap. split.
  - intros ([a b] & Hin & Hf). apply list_elem_of_fmap in Hin as ([k e] & Hk & Hin).
    simpl in Hk. subst k. apply elem_of_map_to_list in Hin. simpl in Hf.
    destruct (decide (a = n)) as [->|]; [injection Hf as ->; eauto|].
    destruct (decide (b = n)) as [->|]; [injection Hf as ->; eauto|done].
  - intros [[e He]|[e He]].
    + exists (n, x). split.
      * apply list_elem_of_fmap. exists ((n, x), e). split; [done|].
        by apply elem_of_map_to_list.
      * simpl. by rewrite decide_True.
    + exists (x, n). split.
      * apply list_elem_of_fmap. exists ((x, n), e). split; [done|].
        by apply elem_of_map_to_list.
      * simpl. destruct (decide (x = n)) as [->|]; [done|]. by rewrite decide_True.
Qed.

Lemma chain_merchants_spec g m ns acc :
  (∀ x, x ∈ ns → is_Some (nodes g !! x)) →
  ∃ S, chain_merchants g m ns acc = Return S ∧
       ∀ y, y ∈ S ↔ y ∈ acc ∨ (y ∈ ns ∧ kind_of g y = Some Merchant ∧ y ≠ m).
Proof.
  revert acc. induction ns as [|x ns IH]; intros acc Hns; simpl.
  - exists acc. split; [done|]. intros y. split; [by left|].
    by intros [?|[?%elem_of_nil _]].
  - destruct (Hns x) as [d Hd]; [by left|]. unfold node_data. rewrite Hd.
    cbn [mbind outcome_bind].
    edestruct IH as (S & -> & HS); [intros; apply Hns; by right|].
    exists S. split; [done|]. intros y. rewrite HS, elem_of_cons.
    assert (kind_of g x = Some (Node.node_type d)) as Hk by (unfold kind_of; by rewrite Hd).
    destruct (bool_decide (Node.node_type d = Merchant)) eqn:H1;
      [apply bool_decide_eq_true in H1|apply bool_decide_eq_false in H1];
      (destruct (bool_decide (x ≠ m)) eqn:H2;
       [apply bool_decide_eq_true in H2|apply bool_decide_eq_false in H2]);
      cbn [andb]; rewrite ?elem_of_union, ?elem_of_singleton.
    all: split; [intros [H|H]; [try destruct H as [->|H]|]; eauto 6;
                 try (right; split; [by left|]; split; congruence)
                |intros [H|([->|H] & Hy & Hne)]; eauto 6].
    all: try (exfalso; congruence).
    all: try (exfalso; apply H2; congruence).
    all: try tauto.
Qed.

Lemma chain_users_spec g m ns acc :
  (∀ x, x ∈ ns → is_Some (nodes g !! x) ∧
                 ∀ y, y ∈ neighbors g x → is_Some (nodes g !! y)) →
  ∃ S, chain_users g m ns acc = Return S ∧
       ∀ y, y ∈ S ↔
            y ∈ acc ∨
            ∃ x, x ∈ ns ∧ kind_of g x = Some User ∧
                 y ∈ neighbors g x ∧ kind_of g y = Some Merchant ∧ y ≠ m.
Proof.
  revert acc. induction ns as [|x ns IH]; intros acc Hns; simpl.
  - exists acc. split; [done|]. intros y. split; [by left|].
    by intros [?|(x & ?%elem_of_nil & _)].
  - destruct (Hns x) as [[d Hd] Hnb]; [by left|]. unfold node_data. rewrite Hd.
    cbn [mbind outcome_bind].
    assert (kind_of g x = Some (Node.node_type d)) as Hk by (unfold kind_of; by rewrite Hd).
    destruct (bool_decide (Node.node_type d = User)) eqn:H1;
      [apply bool_decide_eq_true in H1|apply bool_decide_eq_false in H1].
    + unfold G_neighbors. rewrite (proj2 (has_node_true g x)) by eauto.
      cbn [mbind outcome_bind].
      destruct (chain_merchants_spec g m (neighbors g x) acc Hnb) as (S1 & -> & HS1).
      cbn [mbind outcome_bind].
      edestruct (IH S1) as (S & -> & HS); [intros; apply Hns; by right|].
      exists S. split; [done|]. intros y. rewrite HS, HS1. split.
      * intros [[?|(? & ? & ?)]|(x' & ? & ?)]; [by left|right..].
        -- exists x. split; [by left|]. split; [congruence|done].
        -- exists x'. split; [by right|done].
      * intros [?|(x' & [->|?]%elem_of_cons & Hx' & ? & ? & ?)]; [by left; left| |].
        -- left. right. done.
        -- right. exists x'. done.
    + cbn [mbind outcome_bind].
      edestruct (IH acc) as (S & -> & HS); [intros; apply Hns; by right|].
      exists S. split; [done|]. intros y. rewrite HS. split.
      * intros [?|(x' & ? & ?)]; [by left|right]. exists x'. split; [by right|done].
      * intros [?|(x' & [->|?]%elem_of_cons & Hx' & ?)]; [by left| |].
        -- exfalso. apply H1. congruence.
        -- right. exists x'. done.
Qed.

(** Both ends of an edge of the graph of a history are nodes. *)
Lemma run_neighbors_nodes cs n x :
  x ∈ neighbors (merchant_graph (run cs)) n →
  is_Some (nodes (merchant_graph (run cs)) !! x) ∧
  is_Some (nodes (merchant_graph (run cs)) !! n).
Proof.
  assert (∀ a b, is_Some (edges (merchant_graph (run cs)) !! (a, b)) →
                 is_Some (nodes (merchant_graph (run cs)) !! a) ∧
                 is_Some (nodes (merchant_graph (run cs)) !! b)) as H.
  { intros a b [e He]. pose proof (run_ledger cs a b) as Hg. cbv zeta in Hg.
    rewrite He in Hg. destruct Hg as (Ha & Hb & _). unfold kind_of in Ha, Hb.
    destruct (nodes _ !! a), (nodes _ !! b); done. }
  intros [He|He]%elem_of_neighbors; apply H in He; tauto.
Qed.

(** X20. In every history of calls, the chain length of a merchant is one
    more than the number of other merchants that share a customer with
    it: merchants [y] with a user [x] that has an edge to both. The loops
    never fail on the graph of a history. *)
Theorem merchant_chain_counts_shared_customers cs m :
  ∃ others : gset string,
    _detect_merchant_chain (merchant_graph (run cs)) m = (size others + 1)%nat ∧
    ∀ y, y ∈ others ↔
         y ≠ m ∧ ∃ x, is_Some (edges (merchant_graph (run cs)) !! (x, m)) ∧
                      is_Some (edges (merchant_graph (run cs)) !! (x, y)).
Proof.
  assert (∀ a b, is_Some (edges (merchant_graph (run cs)) !! (a, b)) →
                 kind_of (merchant_graph (run cs)) a = Some User ∧
                 kind_of (merchant_graph (run cs)) b = Some Merchant) as Hkinds.
  { intros a b [e He]. pose proof (run_ledger cs a b) as Hg. cbv zeta in Hg.
    rewrite He in Hg. by destruct Hg as (Ha & Hb & _). }
  unfold _detect_merchant_chain, G_neighbors.
  destruct (has_node (merchant_graph (run cs)) m) eqn:Hn.
  - cbn [mbind outcome_bind].
    destruct (chain_users_spec (merchant_graph (run cs)) m
                (neighbors (merchant_graph (run cs)) m) ∅) as (S0 & -> & HS).
    { intros x Hx. split; [by apply (run_neighbors_nodes cs m x)|].
      intros y Hy. by apply (run_neighbors_nodes cs x y). }
    exists S0. cbn [mbind outcome_bind or_else]. split; [done|].
    intros y. rewrite HS. split.
    + intros [?%elem_of_empty|(x & Hx & Hkx & Hy & Hky & Hne)]; [done|].
      split; [done|]. exists x.
      apply elem_of_neighbors in Hx as [Hx|Hx]; [apply Hkinds in Hx; destruct Hx; congruence|].
      apply elem_of_neighbors in Hy as [Hy|Hy]; [|apply Hkinds in Hy; destruct Hy; congruence].
      done.
    + intros (Hne & x & Hxm & Hxy). right. exists x.
      destruct (Hkinds _ _ Hxm), (Hkinds _ _ Hxy).
      repeat split; try done; apply elem_of_neighbors; eauto.
  - exists ∅. cbn [or_else]. split; [by rewrite size_empty|].
    intros y. split; [by intros ?%elem_of_empty|].
    intros (_ & x & Hxm & _). exfalso. apply has_node_false in Hn.
    apply Hkinds in Hxm as [_ Hm]. unfold kind_of in Hm. by rewrite Hn in Hm.
Qed.

(** ** Isolated clusters *)

Lemma external_connections_closed g (component : gset string) members count :
  (∀ x, x ∈ members → has_node g x = true ∧
                       ∀ y, y ∈ neighbors g x → y ∈ component) →
  external_connections g component members count = Return count.
Proof.
  revert count. induction members as [|x members IH]; intros count Hc; [done|].
  cbn [external_connections]. destruct (Hc x) as [Hn Hnb]; [by left|].
  unfold G_neighbors. rewrite Hn. cbn [mbind outcome_bind].
  replace (filter (λ neighbor, neighbor ∉ component) (neighbors g x)) with (@nil string).
  - rewrite Nat.add_0_r. apply IH. intros; apply Hc; by right.
  - symmetry. induction (neighbors g x) as [|y l IHl]; [done|].
    rewrite filter_cons. destruct (decide (y ∉ component)) as [Hy|_].
    + exfalso. apply Hy, Hnb. by left.
    + apply IHl. intros; apply Hnb; by right.
Qed.

(** X21. When the component the library gives for the merchant is closed
    under neighbours, as a connected component is, the count of external
    connections is zero: the merchant is in an isolated cluster exactly
    when its component has fewer than ten nodes. *)
Theorem isolated_cluster_is_small_component lib g m (component : gset string) :
  node_connected_component lib g m = Return component →
  (∀ x, x ∈ component → has_node g x = true ∧
                         ∀ y, y ∈ neighbors g x → y ∈ component) →
  external_connections g component (elements component) 0 = Return 0%nat ∧
  _is_isolated_cluster lib g m = (Z.of_nat (size component) <? 10).
Proof.
  intros Hc Hclosed.
  assert (external_connections g component (elements component) 0 = Return 0%nat) as He.
  { apply external_connections_closed. intros x Hx. apply Hclosed.
    by apply elem_of_elements. }
  split; [done|]. unfold _is_isolated_cluster. rewrite Hc. cbn [mbind outcome_bind].
  destruct (Z.of_nat (size component) <? 10); [|done].
  by rewrite He.
Qed.

Lemma isolated_cluster_is_small_component_witness :
  _is_isolated_cluster calm_lib (merchant_graph (run [Record "U1" "M1" ten 0 None])) "M1"
  = true.
Proof.
  destruct (isolated_cluster_is_small_component calm_lib
              (merchant_graph (run [Record "U1" "M1" ten 0 None])) "M1"
              (dom (nodes (merchant_graph (run [Record "U1" "M1" ten 0 None])))))
    as [_ ->].
  - reflexivity.
  - intros x Hx. apply elem_of_dom in Hx. split; [by apply has_node_true|].
    intros y Hy. apply elem_of_dom.
    by apply (run_neighbors_nodes [Record "U1" "M1" ten 0 None] x y).
  - vm_compute. reflexivity.
Defined.

(** ** The relationship analysis after recorded transactions *)

Lemma very_frequent_ne (n : nat) s :
  s = "Highly variable transaction amounts" ∨ s = "New merchant relationship" →
  "Very frequent transactions (" +:+ pretty n +:+ ")" ≠ s.
Proof. intros [-> | ->]; rewrite append_cons; discriminate. Qed.

(** X22. In every history of calls, once amounts are recorded for a user
    and a merchant, the relationship analysis reports them: the count is
    their number, the total their sum from left to right and the average
    the total divided by the count; the factor for very frequent
    transactions is given exactly above fifty transactions. It fails
    only when the variance routine does, which is asked from two amounts
    on. *)
Theorem relationship_reports_recorded_amounts cs lib u m :
  recorded u m cs ≠ [] →
  match _analyze_user_merchant_relationship lib (merchant_graph (run cs)) u m with
  | Return s =>
      metric "transaction_count" (metrics s) =
        Some (PyInt (Z.of_nat (length (recorded u m cs)))) ∧
      metric "total_amount" (metrics s) = Some (PyFloat (fsum (recorded u m cs))) ∧
      metric "avg_amount" (metrics s) =
        Some (PyFloat (Float.div (fsum (recorded u m cs))
                                 (Float.of_Z (Z.of_nat (length (recorded u m cs)))))) ∧
      (("Very frequent transactions (" +:+ pretty (length (recorded u m cs)) +:+ ")")
         ∈ sub_factors s ↔ (50 < length (recorded u m cs))%nat) ∧
      "New merchant relationship" ∉ sub_factors s
  | Raise e =>
      (2 ≤ length (recorded u m cs))%nat ∧ np_var lib (recorded u m cs) = Raise e
  end.
Proof.
  intros Hl. pose proof (run_ledger cs u m) as H. cbv zeta in H.
  unfold _analyze_user_merchant_relationship, get_edge.
  destruct (edges _ !! (u, m)) as [e|]; [|done].
  destruct H as (_ & _ & (_ & Hc & Ht) & Ha). rewrite Hc, Ht, Ha.
  unfold float_div_int.
  destruct (Z.eqb_spec (Z.of_nat (length (recorded u m cs))) 0) as [H0|H0].
  { destruct (recorded u m cs); [done|simpl in H0; lia]. }
  cbn [mbind outcome_bind].
  pose proof (very_frequent_ne (length (recorded u m cs))) as Hvf.
  assert (∀ c : bool,
            (if c then (50 < length (recorded u m cs))%nat
             else ¬ (50 < length (recorded u m cs))%nat) →
            ∀ r : SubAnalysis,
              (sub_factors r =
                 (if c then ["Very frequent transactions (" +:+
                             pretty (length (recorded u m cs)) +:+ ")"] else []) ∨
               sub_factors r =
                 (if c then ["Very frequent transactions (" +:+
                             pretty (length (recorded u m cs)) +:+ ")"] else []) ++
                 ["Highly variable transaction amounts"]) →
              (("Very frequent transactions (" +:+ pretty (length (recorded u m cs)) +:+ ")")
                 ∈ sub_factors r ↔ (50 < length (recorded u m cs))%nat) ∧
              "New merchant relationship" ∉ sub_factors r) as Hfactors.
  { intros c Hc' r [-> | ->]; destruct c; cbn [app];
      rewrite ?elem_of_cons, ?elem_of_nil; (split; [split|]).
    all: try (intros _; by left).
    all: try (intros _; done).
    all: try (intros [H|[H|H]]; try done; exfalso; (by eapply Hvf; [|exact H]; eauto)
              || (symmetry in H; by eapply Hvf; [|exact H]; eauto)).
    all: try (intros [H|H]; try done; exfalso; (by eapply Hvf; [|exact H]; eauto)
              || (symmetry in H; by eapply Hvf; [|exact H]; eauto)).
    all: try (intros H; done). }
  destruct (Z.ltb_spec 1 (Z.of_nat (length (recorded u m cs)))) as [H1|H1].
  - destruct (np_var lib (recorded u m cs)) as [v|e'] eqn:Hv.
    + cbn [mbind outcome_bind].
      destruct (Z.ltb_spec 50 (Z.of_nat (length (recorded u m cs)))),
               (Float.ltb _ v); cbn [metrics metric String.eqb].
      all: (do 3 (split; [reflexivity|])).
      * apply (Hfactors true); [lia|]. right. reflexivity.
      * apply (Hfactors true); [lia|]. left. reflexivity.
      * apply (Hfactors false); [lia|]. right. reflexivity.
      * apply (Hfactors false); [lia|]. left. reflexivity.
    + destruct (50 <? _); cbn [mbind outcome_bind]; split; (lia || done).
  - destruct (Z.ltb_spec 50 (Z.of_nat (length (recorded u m cs))));
      cbn [mbind outcome_bind metrics metric String.eqb].
    all: (do 3 (split; [reflexivity|])).
    * apply (Hfactors true); [lia|]. left. reflexivity.
    * apply (Hfactors false); [lia|]. left. reflexivity.
Qed.

Lemma relationship_reports_recorded_amounts_witness :
  let cs := [Record "U1" "M1" ten 0 None; Record "U1" "M1" ten (seconds 60) None] in
  ∃ s, _analyze_user_merchant_relationship calm_lib (merchant_graph (run cs)) "U1" "M1"
       = Return s ∧
       metric "transaction_count" (metrics s) = Some (PyInt 2) ∧
       metric "avg_amount" (metrics s) = Some (PyFloat ten).
Proof.
  intros cs.
  pose proof (relationship_reports_recorded_amounts cs calm_lib "U1" "M1") as H.
  destruct (_analyze_user_merchant_relationship calm_lib (merchant_graph (run cs)) "U1" "M1")
    as [s|e] eqn:Hs; [|by vm_compute in Hs].
  destruct H as (H1 & _ & H3 & _).
  - vm_compute. congruence.
  - exists s. split; [done|]. rewrite H1, H3. split; vm_compute; reflexivity.
Defined.

(** ** Where a node comes from *)

Lemma first_named_app n cs cs' :
  first_named n (cs ++ cs') =
  match first_named n cs with Some x => Some x | None => first_named n cs' end.
Proof.
  induction cs as [|[u m a t md|lib m u now stored] cs IH]; simpl; [done| |done].
  by repeat case_decide.
Qed.

Lemma origin_totals_update a d : origin (totals_update a d) = origin d.
Proof. done. Qed.

Lemma origin_node_update x a t d : origin (node_update x a t d) = origin d.
Proof. done. Qed.

Lemma add_origin u m a t md self k :
  origin <$> nodes (merchant_graph (add_transaction_edge u m a t md self).1) !! k =
  match nodes (merchant_graph self) !! k with
  | Some d => Some (origin d)
  | None => if decide (m = k) then Some (Merchant, t)
            else if decide (u = k) then Some (User, t) else None
  end.
Proof.
  destruct (add_ends u m a t md self)
    as [[Hm H]|[(Hm & H)|[(Hm & Hu & H)|[(Hm & Hne & H)|(Hfit & _ & H)]]]];
    cbv zeta in H; rewrite H; cbn [fst merchant_graph set_graph].
  - rewrite lookup_after_merchant_totals. unfold node_before.
    repeat case_decide; subst; try done;
      destruct (nodes (merchant_graph self) !! _); try done; by destruct t.
  - rewrite lookup_after_merchant_peer. unfold node_before.
    repeat case_decide; subst; try done;
      destruct (nodes (merchant_graph self) !! _); try done; by destruct t.
  - rewrite lookup_after_user_totals. unfold node_before.
    repeat case_decide; subst; try done;
      destruct (nodes (merchant_graph self) !! _); try done; by destruct t.
  - rewrite lookup_after_user_peer by done. unfold node_before.
    repeat case_decide; subst; try done;
      destruct (nodes (merchant_graph self) !! _); try done; by destruct t.
  - rewrite lookup_after_add by apply Hfit. unfold node_before.
    repeat case_decide; subst; try done;
      destruct (nodes (merchant_graph self) !! _); try done; by destruct t.
Qed.

Lemma run_origin cs n :
  origin <$> nodes (merchant_graph (run cs)) !! n = first_named n cs.
Proof.
  induction cs as [|c cs IH] using rev_ind.
  { unfold run, init; simpl. by rewrite lookup_empty. }
  rewrite run_snoc, first_named_app, <- IH.
  destruct c as [u m a t md|lib m u now stored]; cbn [step first_named].
  - rewrite add_origin. by destruct (nodes _ !! n).
  - rewrite analyze_graph. by destruct (nodes _ !! n).
Qed.

(** X23. In every history of calls, the graph has a node for an identity
    exactly when a call of [add_transaction_edge] has named it, whether
    the call returned or raised; the node has the role the identity had
    in the first such call (merchant, when it was given as both) and
    [first_seen] is the timestamp of that call, whatever the later
    timestamps are. *)
Theorem node_remembers_first_call cs n :
  origin <$> nodes (merchant_graph (run cs)) !! n = first_named n cs.
Proof. apply run_origin. Qed.

(** ** The age of a cache entry *)

(** X24. The cache check looks at the [seconds] field of the age only, so
    it answers the same a whole number of days later (or earlier): an
    entry that is served at some age is served again at that age plus any
    number of days. *)
Theorem cache_check_repeats_daily self key now days :
  cache_check self key (now + days * seconds 86400) = cache_check self key now.
Proof.
  unfold cache_check. destruct (risk_cache self !! key) as [[r t]|]; [|done].
  replace (td_seconds (now + days * seconds 86400 - t)) with (td_seconds (now - t)); [done|].
  unfold td_seconds, seconds, us_per_second.
  replace (now + days * (86400 * 1000000) - t)
    with (now - t + (days * 86400) * 1000000) by lia.
  rewrite Z.div_add by lia. rewrite Z.mod_add; [done|lia].
Qed.

(** ** What an analysis leaves behind *)

(** X25. A call of [analyze_merchant_risk] changes neither graph, and of
    the cache at most the entry under the key of the question: that
    entry is either left as it was, or it now holds the answer of the
    call, a complete analysis, with the time it was stored. *)
Theorem analysis_touches_only_its_cache_entry lib m u now stored self :
  merchant_graph (analyze_merchant_risk lib m u now stored self).1 = merchant_graph self ∧
  transaction_graph (analyze_merchant_risk lib m u now stored self).1 =
    transaction_graph self ∧
  (∀ k, k ≠ cache_key m u →
        risk_cache (analyze_merchant_risk lib m u now stored self).1 !! k =
        risk_cache self !! k) ∧
  (risk_cache (analyze_merchant_risk lib m u now stored self).1 !! cache_key m u =
     risk_cache self !! cache_key m u ∨
   ∃ a, (analyze_merchant_risk lib m u now stored self).2 = Return (Analysis a) ∧
        complete a ∧ merchant_id a = m ∧
        risk_cache (analyze_merchant_risk lib m u now stored self).1 !! cache_key m u =
          Some (Analysis a, stored)).
Proof.
  destruct (analyze_cases lib m u now stored self)
    as (s' & r & -> & Hg & Ht & [[_ ->]|[_ [(_ & _ & ->)|[(e & _ & _ & ->)|H]]]]);
    cbn [fst snd]; try (do 2 (split; [done|]); split; [done|by left]).
  destruct H as (Hn & a & x & -> & Hm & _ & Hb & Hc).
  do 2 (split; [done|]). rewrite Hc. split.
  - intros k Hk. by rewrite lookup_insert_ne.
  - right. exists a. rewrite lookup_insert_eq.
    destruct (analysis_body_known _ _ _ _ _ _ _ Hn Hb) as (a' & [= <-] & _ & Hcomp & _).
    done.
Qed.

(** ** Scoring in every history *)

(** X26. In every history of calls, the scoring of a transaction gets an
    answer from the analyzer: no error of the analysis reaches the
    router. The graph is left as it was, the graph risk reported lies
    between 0 and 1, and the transaction is flagged exactly when the
    fraud score is above 0.7 or the graph risk above 0.8; an answer of
    the exception handler (0.5) does not flag by itself. *)
Theorem scoring_answers_in_every_history cs lib u m score now stored :
  ∃ self' r,
    analyze_merchant_risk lib m (Some u) now stored (run cs) = (self', Return r) ∧
    score_transaction lib u m score now stored (run cs) =
      (self',
       Return (mkFraudScore score (result_score r)
                 (Float.ltb (Float.lit 7 10) score ||
                  Float.ltb (Float.lit 8 10) (result_score r))
                 (if Float.ltb (Float.lit 7 10) score ||
                     Float.ltb (Float.lit 8 10) (result_score r)
                  then "flagged" else "cleared")
                 (result_factors r))) ∧
    merchant_graph self' = merchant_graph (run cs) ∧
    in_unit (result_score r) = true ∧
    (∀ m' s fs err, r = Degraded m' s fs err →
       Float.ltb (Float.lit 8 10) (result_score r) = false).
Proof.
  destruct (analyze_cases lib m (Some u) now stored (run cs))
    as (s' & r & Heq & Hg & _ & H). exists s', r. split; [done|].
  unfold score_transaction. rewrite Heq. cbn [mbind outcome_bind]. split; [done|].
  split; [done|].
  destruct H as [[(t & Hc & _)%cache_check_Some _]|[_ [(_ & -> & _)|[(e & _ & -> & _)|
    (_ & a & x & -> & _ & Hx & _)]]]].
  - split; [by eapply run_cache_bounded|].
    intros m' s fs err ->. destruct (run_cache_sound cs _ _ _ Hc) as (a & u' & ? & _). done.
  - split; [reflexivity|]. by intros.
  - split; [reflexivity|]. intros. vm_compute. reflexivity.
  - split; [simpl; rewrite Hx; apply clamp_in_unit|]. by intros.
Qed.

(** ** The calls that return, read off the history *)

Lemma kind_of_run cs n : kind_of (merchant_graph (run cs)) n = fst <$> first_named n cs.
Proof.
  rewrite <- run_origin. unfold kind_of. by destruct (nodes _ !! n).
Qed.

Lemma tz_of_run cs n :
  tz_of (merchant_graph (run cs)) n = (λ x, aware x.2) <$> first_named n cs.
Proof.
  rewrite <- run_origin. unfold tz_of. by destruct (nodes _ !! n).
Qed.

Lemma first_fits_spec cs n k t :
  first_fits k t (first_named n cs) = true ↔
  kind_of (merchant_graph (run cs)) n ≠ Some (match k with Merchant => User | User => Merchant end) ∧
  comparable (merchant_graph (run cs)) n t.
Proof.
  unfold comparable. rewrite kind_of_run, tz_of_run. unfold first_fits.
  destruct (first_named n cs) as [[k' t']|]; simpl; [|done].
  rewrite andb_true_iff, !bool_decide_eq_true. split.
  - intros [-> Ht]. split; [by destruct k|]. rewrite Ht. by destruct (aware t).
  - intros [Hk Ht]. split; [by destruct k, k'|].
    destruct (aware t'), (aware t); try done; exfalso; by apply Ht.
Qed.

(** A call returns exactly when it is accepted. *)
Lemma returns_iff_accepted cs u m a t md :
  (add_transaction_edge u m a t md (run cs)).2 = Return () ↔ accepted cs u m t = true.
Proof.
  rewrite add_returns_iff. unfold accepted, roles_fit, times_fit.
  rewrite !andb_true_iff, bool_decide_eq_true, !first_fits_spec. tauto.
Qed.

Lemma recorded_step_accepted before u m c :
  recorded_step u m (run before) c = accepted_step before u m c.
Proof.
  destruct c as [u' m' a t md|]; [|done]. cbn [recorded_step accepted_step].
  case_bool_decide as Heq; [|done]. destruct Heq as [-> ->]. cbn [andb].
  pose proof (returns_iff_accepted before u m a t md) as H.
  destruct (accepted before u m t).
  - by rewrite (proj2 H eq_refl).
  - destruct (_.2) as [[]|]; [|done]. by destruct H as [H _]; specialize (H eq_refl).
Qed.

Lemma recorded_from_accepted before u m cs :
  recorded_from (run before) u m cs = accepted_from before u m cs.
Proof.
  revert before. induction cs as [|c cs IH]; intros before; [done|].
  cbn [recorded_from accepted_from]. rewrite recorded_step_accepted. f_equal.
  rewrite <- run_snoc. apply IH.
Qed.

Lemma recorded_accepted u m cs : recorded u m cs = accepted_amounts u m cs.
Proof. apply (recorded_from_accepted []). Qed.

(** In a history of calls for one pair, made with timestamps of one
    kind, every call is accepted. *)
Lemma accepted_from_same_pair before u m b xs :
  u ≠ m →
  (∀ t, aware t = b → accepted before u m t = true) →
  Forall (λ x, aware x.1.2 = b) xs →
  accepted_from before u m (same_pair u m xs) = (λ x, x.1.1) <$> xs.
Proof.
  intros Hne. revert before. induction xs as [|[[a t] md] xs IH]; intros before Hb Hxs;
    [done|].
  apply Forall_cons in Hxs as [Ht Hxs]. cbn [fst snd] in Ht.
  cbn [same_pair fmap list_fmap accepted_from accepted_step fst snd].
  rewrite bool_decide_eq_true_2 by done. rewrite (Hb t Ht). cbn [andb app]. f_equal.
  apply IH; [|done]. intros t' Ht'. specialize (Hb t' Ht').
  unfold accepted in *. rewrite !first_named_app. cbn [first_named].
  rewrite decide_True by done. rewrite (decide_False (P := m = u)) by done.
  rewrite decide_True by done.
  apply andb_true_iff in Hb as [Hb Hu]. apply andb_true_iff in Hb as [Hb Hm].
  rewrite Hb. cbn [andb].
  destruct (first_named m before) as [[]|], (first_named u before) as [[]|];
    cbn [first_fits andb] in *; rewrite ?Hm, ?Hu; cbn [andb];
    rewrite ?bool_decide_eq_true_2 by congruence; done.
Qed.

(** The edge of a pair holds the amounts of the accepted calls. *)
Lemma accepted_edge cs u m :
  match edges (merchant_graph (run cs)) !! (u, m) with
  | Some e =>
      accepted_amounts u m cs ≠ [] ∧
      Edge.transaction_count e = length (accepted_amounts u m cs) ∧
      Edge.amounts e = accepted_amounts u m cs ∧
      Edge.total_amount e = fsum (accepted_amounts u m cs)
  | None => accepted_amounts u m cs = []
  end.
Proof.
  pose proof (run_ledger cs u m) as H. cbv zeta in H. rewrite recorded_accepted in H.
  destruct (edges _ !! (u, m)) as [e|]; [|done].
  destruct H as (_ & _ & (Hne & Hc & Ht) & Ha). rewrite <- Ha. done.
Qed.

(** C2, as the code has it. In every history of calls on a new analyzer,
    let [a1 .. an] be the amounts of the accepted calls of
    [add_transaction_edge] for the user [u] and the merchant [m], in
    order: the calls made while the two identities fit their roles and
    with a timestamp that can be compared with the earlier ones. The
    edge stored for [(u, m)] exists exactly when there is such a call; it
    has [transaction_count = n], its [amounts] are [a1 .. an] and its
    [total_amount] is their sum added from left to right in binary64,
    each partial sum rounded, not their exact sum. In particular, after
    any [n > 0] calls for one pair, with timestamps of one kind, the
    edge has [transaction_count = n]. And every edge of the graph has, at
    all times, [transaction_count] equal to the number of its [amounts]
    and [total_amount] equal to their rounded sum; compared with
    Python's [==], the total equals the amounts added up from zero (what
    [sum] computes before Python 3.12) as soon as the total is a number. *)
Theorem edge_accumulation cs u m :
  match edges (merchant_graph (run cs)) !! (u, m) with
  | Some e =>
      accepted_amounts u m cs ≠ [] ∧
      Edge.transaction_count e = length (accepted_amounts u m cs) ∧
      Edge.amounts e = accepted_amounts u m cs ∧
      Edge.total_amount e = fsum (accepted_amounts u m cs)
  | None => accepted_amounts u m cs = []
  end ∧
  (∀ xs b, u ≠ m → xs ≠ [] → Forall (λ x, aware x.1.2 = b) xs →
     ∃ e, get_edge (merchant_graph (run (same_pair u m xs))) u m = Some e ∧
          Edge.transaction_count e = length xs ∧
          Edge.amounts e = (λ x, x.1.1) <$> xs ∧
          Edge.total_amount e = fsum ((λ x, x.1.1) <$> xs)) ∧
  (∀ k e, edges (merchant_graph (run cs)) !! k = Some e →
          Edge.transaction_count e = length (Edge.amounts e) ∧
          Edge.total_amount e = fsum (Edge.amounts e) ∧
          (Float.is_nan (Edge.total_amount e) = false →
           Float.eqb (Edge.total_amount e) (Float.sum_from_zero (Edge.amounts e)) = true)).
Proof.
  split; [apply accepted_edge|]. split.
  - intros xs b Hne Hxs Hb.
    pose proof (accepted_edge (same_pair u m xs) u m) as H.
    assert (accepted_amounts u m (same_pair u m xs) = (λ x, x.1.1) <$> xs) as Ha.
    { apply (accepted_from_same_pair [] u m b); [done| |done].
      intros t _. unfold accepted. cbn [first_named first_fits].
      by rewrite bool_decide_eq_true_2. }
    rewrite Ha in H. unfold get_edge.
    destruct (edges _ !! (u, m)) as [e|].
    + destruct H as (_ & Hc & Hm & Ht). exists e. by rewrite length_fmap in Hc.
    + by destruct xs.
  - intros [a b] e He. pose proof (run_ledger cs a b) as H. cbv zeta in H.
    rewrite He in H. destruct H as (_ & _ & (_ & Hc & Ht) & _).
    do 2 (split; [done|]). rewrite Ht. apply fsum_sum_from_zero.
Qed.

(** The claim of C2 as stated fails. After the amounts 1e16, 1.0 and 1.0
    for one pair, [total_amount] is 1e16, although the exact sum
    1e16 + 2 is a double. After an amount that is not a number, the total
    is not equal ([==]) to the sum of the amounts. And after 0.1, 0.2 and
    0.3 the total is 0.6000000000000001, while [sum] compensates the
    rounding from Python 3.12 on and gives 0.6. Nor does every call
    count: a call with one identity in both roles raises and leaves no
    edge, and of a call with a naive timestamp followed by one with an
    aware timestamp only the first is counted. *)
Lemma total_amount_is_not_the_exact_sum :
  let total xs :=
    Edge.total_amount <$>
      get_edge (merchant_graph (run (same_pair "U1" "M1" ((λ a, (a, naive 0, None)) <$> xs))))
               "U1" "M1" in
  total [Float.of_Z (10 ^ 16); Float.one; Float.one] = Some (Float.of_Z (10 ^ 16)) ∧
  Float.of_Z (10 ^ 16 + 1 + 1) = S754_finite false 5000000000000001 1 ∧
  5000000000000001 * 2 ^ 1 = 10 ^ 16 + 1 + 1 ∧
  Float.eqb (Float.of_Z (10 ^ 16)) (Float.of_Z (10 ^ 16 + 1 + 1)) = false ∧
  total [S754_nan] = Some S754_nan ∧
  Float.eqb S754_nan (Float.sum_from_zero [S754_nan]) = false ∧
  Float.eqb S754_nan (Float.sum_compensated [S754_nan]) = false ∧
  total [Float.lit 1 10; Float.lit 2 10; Float.lit 3 10]
    = Some (S754_finite false 5404319552844596 (-53)) ∧
  Float.sum_compensated [Float.lit 1 10; Float.lit 2 10; Float.lit 3 10] = Float.lit 6 10 ∧
  Float.eqb (S754_finite false 5404319552844596 (-53)) (Float.lit 6 10) = false ∧
  get_edge (merchant_graph (run (same_pair "A" "A" [(ten, naive 0, None)]))) "A" "A" = None ∧
  Edge.transaction_count <$>
    get_edge (merchant_graph (run (same_pair "U1" "M1" [(ten, naive 0, None);
                                                         (ten, mkdt 1 true, None)])))
             "U1" "M1" = Some 1%nat.
Proof. vm_compute. done. Qed.

(** ** A call that raises after it has changed a node *)

(** C4, at a call that raises. The merchant "M1" has one transaction
    and its analysis is cached under "merchant_risk_M1_none". The call
    [add_transaction_edge("M1", "M2", 10.0, ...)], with "M1" as the
    user, creates the node "M2", counts a second transaction on "M1"
    and then raises KeyError('unique_merchants'), before the cache is
    invalidated: the cache is as it was, the entry of "M1" is still in
    it, and a second later the analysis of "M1" is answered from it,
    whatever the library would compute: the answer has the velocity
    metrics of the graph before the call (1.0 transactions per hour)
    while the graph now gives 2.0. *)
Theorem cache_entry_survives_failed_record lib lib' :
  let self := run [Record "U1" "M1" ten 0 None; Analyze lib "M1" None 0 0] in
  let failed := add_transaction_edge "M1" "M2" ten (seconds 1) None self in
  let answer :=
    (analyze_merchant_risk lib' "M1" None (seconds 2) (seconds 2) failed.1).2 in
  failed.2 = Raise (KeyError "unique_merchants") ∧
  (Node.total_transactions <$> nodes (merchant_graph self) !! "M1" = Some 1%nat ∧
   Node.total_transactions <$> nodes (merchant_graph failed.1) !! "M1" = Some 2%nat) ∧
  (has_node (merchant_graph self) "M2" = false ∧
   has_node (merchant_graph failed.1) "M2" = true) ∧
  risk_cache failed.1 = risk_cache self ∧
  cache_key "M1" None = "merchant_risk_M1_none" ∧
  contains "merchant_risk_M1_none" "M1" ∧
  ∃ a, risk_cache failed.1 !! "merchant_risk_M1_none" = Some (Analysis a, 0) ∧
       answer = Return (Analysis a) ∧
       velocity_metrics a = Some (_analyze_velocity lib (merchant_graph self) "M1") ∧
       metrics (_analyze_velocity lib (merchant_graph self) "M1") !! 0%nat
         = Some ("transactions_per_hour", PyFloat Float.one) ∧
       metrics (_analyze_velocity lib' (merchant_graph failed.1) "M1") !! 0%nat
         = Some ("transactions_per_hour", PyFloat (Float.of_Z 2)).
Proof.
  intros self failed answer. subst answer failed self.
  change (run [Record "U1" "M1" ten 0 None; Analyze lib "M1" None 0 0])
    with (step (run [Record "U1" "M1" ten 0 None]) (Analyze lib "M1" None 0 0)).
  cbn [step]. set (s1 := run [Record "U1" "M1" ten 0 None]).
  assert (has_node (merchant_graph s1) "M1" = true) as Hn by (by vm_compute).
  destruct (analyze_cases lib "M1" None 0 0 s1) as (s2 & r & Hs2 & Hg & Ht & H).
  rewrite Hs2. cbn [fst].
  assert (∃ a, r = Analysis a ∧
               velocity_metrics a = Some (_analyze_velocity lib (merchant_graph s1) "M1") ∧
               s2 = mkAnalyzer (merchant_graph s1) (transaction_graph s1)
                      (<[cache_key "M1" None := (r, 0)]> (risk_cache s1)))
    as (a & -> & Hv & ->).
  { destruct H as [[Hc _]|[_ [(Hn' & _)|[(e & Hb & _)|(_ & a & x & Hr & _ & _ & Hb & _)]]]].
    - by vm_compute in Hc.
    - congruence.
    - by apply analysis_body_raises in Hb as (_ & Hb & _).
    - apply (analysis_body_known _ _ _ _ _ _ _ Hn) in Hb
        as (a' & -> & _ & _ & _ & _ & Hv & _ & ->). by exists a'. }
  clear Hs2 Hg Ht H.
  split; [by rewrite add_outcome; vm_compute|].
  pose proof (add_cache "M1" "M2" ten (seconds 1) None
                (mkAnalyzer (merchant_graph s1) (transaction_graph s1)
                   (<[cache_key "M1" None := (Analysis a, 0)]> (risk_cache s1)))) as Hc.
  cbv zeta in Hc. rewrite add_outcome in Hc.
  change (call_end _ "M1" "M2" (seconds 1)) with
    (Raise (KeyError "unique_merchants") : outcome unit) in Hc.
  cbn [risk_cache] in Hc.
  split; [split; by vm_compute|]. split; [split; by vm_compute|].
  split; [done|]. split; [done|]. split; [by exists "merchant_risk_", "_none"|].
  exists a. change (cache_key "M1" None) with "merchant_risk_M1_none" in *. rewrite Hc.
  split; [by rewrite lookup_insert_eq|]. split.
  { unfold analyze_merchant_risk, cache_check. unfold datetime in *. rewrite Hc.
    by rewrite lookup_insert_eq. }
  split; [done|]. split; by vm_compute.
Qed.
